(** * DomeProjection: warping flat OpenGL images for a dome display

    A shallow embedding of [DomeProjection/Python/dome_projection.py].

    The Python code computes with numpy [float64] values.  Every function of
    the source is translated once, over an arithmetic signature [Arith]; the
    signature has two instances:

    - [FloatArith], IEEE 754 binary64 (Rocq's primitive floats), which is the
      arithmetic the program runs on: NaN, infinities and rounding included.
      It is executable and is used to run the code on concrete inputs;
    - [RealArith], exact real arithmetic, the idealisation in which the
      geometric statements of the specification are read.

    Python exceptions are modelled by the [result] type, identified by the
    name of the exception class. *)

From Stdlib Require Import ZArith List Bool String Lia Lra Psatz Reals Floats.
Import ListNotations.

Set Implicit Arguments.

(* Decimal float literals denote the nearest binary64 value, as in Python. *)
Set Warnings "-inexact-float".

(** ** Exceptions *)

Inductive result (A : Type) : Type :=
| Ok (a : A)
| Raise (exn : string).

Arguments Ok {A} a.
Arguments Raise {A} exn.

Definition bind {A B : Type} (m : result A) (k : A -> result B) : result B :=
  match m with
  | Ok a => k a
  | Raise e => Raise e
  end.

Notation "x <- m ;; k" := (bind m (fun x => k))
  (at level 61, m at next level, right associativity).
Notation "' p <- m ;; k" := (bind m (fun x => let p := x in k))
  (at level 61, p pattern, m at next level, right associativity).

Fixpoint mapM {A B : Type} (f : A -> result B) (l : list A) : result (list B) :=
  match l with
  | [] => Ok []
  | a :: l' => b <- f a ;; bs <- mapM f l' ;; Ok (b :: bs)
  end.

Definition ZeroDivisionError : string := "ZeroDivisionError".
Definition LinAlgError : string := "LinAlgError".
Definition IndexError : string := "IndexError".
Definition TypeError : string := "TypeError".
Definition ValueError : string := "ValueError".
Definition AssertionError : string := "AssertionError".

(** ** The arithmetic signature *)

Class Arith (F : Type) : Type := {
  fzero : F;
  fone : F;
  fhalf : F;                    (* the literal 0.5 *)
  of_Z : Z -> F;                (* int -> float conversion, float(i) *)
  fadd : F -> F -> F;
  fsub : F -> F -> F;
  fmul : F -> F -> F;
  fdiv : F -> F -> F;           (* numpy division: never raises *)
  fneg : F -> F;
  fsqrt : F -> F;
  fltb : F -> F -> bool;        (* x < y *)
  fleb : F -> F -> bool;        (* x <= y *)
  feqb : F -> F -> bool;        (* x == y *)
  ftrunc : F -> Z               (* C cast to an integer: truncation *)
}.

Declare Scope arith_scope.
Delimit Scope arith_scope with A.
Notation "x + y" := (fadd x y) : arith_scope.
Notation "x - y" := (fsub x y) : arith_scope.
Notation "x * y" := (fmul x y) : arith_scope.
Notation "x / y" := (fdiv x y) : arith_scope.
Notation "- x" := (fneg x) : arith_scope.
Notation "x <? y" := (fltb x y) : arith_scope.
Notation "x <=? y" := (fleb x y) : arith_scope.
Notation "x =? y" := (feqb x y) : arith_scope.

(** The trigonometric functions of numpy (libm) and the constant [pi]. *)
Record Libm (F : Type) : Type := {
  sin : F -> F;
  cos : F -> F;
  pi : F
}.

(** *** IEEE 754 binary64 *)

Definition float_of_Z (z : Z) : float :=
  if (z <? 0)%Z then PrimFloat.opp (PrimFloat.of_uint63 (Uint63.of_Z (- z)))
  else PrimFloat.of_uint63 (Uint63.of_Z z).

Definition float_trunc (x : float) : Z :=
  match Prim2SF x with
  | S754_finite s m e =>
      let v := match e with
               | Zneg p => (Zpos m / 2 ^ Zpos p)%Z
               | _ => (Zpos m * 2 ^ e)%Z
               end in
      if s then (- v)%Z else v
  | _ => 0%Z
  end.

#[export] Instance FloatArith : Arith float := {|
  fzero := 0%float;
  fone := 1%float;
  fhalf := 0.5%float;
  of_Z := float_of_Z;
  fadd := PrimFloat.add;
  fsub := PrimFloat.sub;
  fmul := PrimFloat.mul;
  fdiv := PrimFloat.div;
  fneg := PrimFloat.opp;
  fsqrt := PrimFloat.sqrt;
  fltb := PrimFloat.ltb;
  fleb := PrimFloat.leb;
  feqb := PrimFloat.eqb;
  ftrunc := float_trunc
|}.

(** libm on binary64 at the one angle the concrete runs below use: [sin 0]
    and [cos 0] are exact; every other argument answers NaN. *)
Definition FloatLibm0 : Libm float := {|
  sin := fun x => if PrimFloat.eqb x 0 then 0%float else PrimFloat.nan;
  cos := fun x => if PrimFloat.eqb x 0 then 1%float else PrimFloat.nan;
  pi := 0x1.921fb54442d18p+1%float
|}.

(** *** Exact real arithmetic *)

Definition Rltb (x y : R) : bool := if Rlt_dec x y then true else false.
Definition Rleb (x y : R) : bool := if Rle_dec x y then true else false.
Definition Reqb (x y : R) : bool := if Req_dec_T x y then true else false.

Definition Rtrunc (x : R) : Z :=
  if Rle_dec 0 x then Int_part x else (- Int_part (- x))%Z.

#[export] Instance RealArith : Arith R := {|
  fzero := 0%R;
  fone := 1%R;
  fhalf := (1 / 2)%R;
  of_Z := IZR;
  fadd := Rplus;
  fsub := Rminus;
  fmul := Rmult;
  fdiv := Rdiv;
  fneg := Ropp;
  fsqrt := R_sqrt.sqrt;
  fltb := Rltb;
  fleb := Rleb;
  feqb := Reqb;
  ftrunc := Rtrunc
|}.

Definition RealLibm : Libm R := {|
  sin := Rtrigo_def.sin;
  cos := Rtrigo_def.cos;
  pi := PI
|}.

(** ** Vectors, arrays and Python helpers *)

Record vec3 (F : Type) : Type := Vec3 { vx : F; vy : F; vz : F }.
Arguments Vec3 {F} vx vy vz.

(** [range(n)] *)
Definition range (n : Z) : list Z := map Z.of_nat (seq 0 (Z.to_nat n)).

(** Indexing a Python list or a numpy axis with an int: negative indices
    count from the end, anything outside raises [IndexError]. *)
Definition py_index {A : Type} (l : list A) (i : Z) : result A :=
  let n := Z.of_nat (List.length l) in
  let k := if (i <? 0)%Z then (i + n)%Z else i in
  if ((0 <=? k) && (k <? n))%Z
  then match nth_error l (Z.to_nat k) with
       | Some a => Ok a
       | None => Raise IndexError
       end
  else Raise IndexError.

(** [a[r, c]] on a two-dimensional array *)
Definition np_get2 {A : Type} (a : list (list A)) (r c : Z) : result A :=
  row <- py_index a r ;; py_index row c.

Section Generic.
Context {F : Type} {AR : Arith F}.
Local Open Scope arith_scope.

Definition two : F := of_Z 2.
Definition four : F := of_Z 4.

(** [x**2] *)
Definition sq (x : F) : F := x * x.

Definition vzero : vec3 F := Vec3 fzero fzero fzero.
Definition vadd (u v : vec3 F) : vec3 F :=
  Vec3 (vx u + vx v) (vy u + vy v) (vz u + vz v).
Definition vsub (u v : vec3 F) : vec3 F :=
  Vec3 (vx u - vx v) (vy u - vy v) (vz u - vz v).
(** scalar * array *)
Definition vscale (k : F) (v : vec3 F) : vec3 F :=
  Vec3 (k * vx v) (k * vy v) (k * vz v).
(** array / scalar *)
Definition vdiv (v : vec3 F) (k : F) : vec3 F :=
  Vec3 (vx v / k) (vy v / k) (vz v / k).
(** elementwise array * array *)
Definition vmul (u v : vec3 F) : vec3 F :=
  Vec3 (vx u * vx v) (vy u * vy v) (vz u * vz v).
(** [numpy.dot] of two 3-vectors *)
Definition dot (u v : vec3 F) : F :=
  vx u * vx v + vy u * vy v + vz u * vz v.
(** [numpy.cross] *)
Definition cross (u v : vec3 F) : vec3 F :=
  Vec3 (vy u * vz v - vz u * vy v)
       (vz u * vx v - vx u * vz v)
       (vx u * vy v - vy u * vx v).
(** [numpy.linalg.norm] of a 3-vector *)
Definition norm (v : vec3 F) : F :=
  fsqrt (sq (vx v) + sq (vy v) + sq (vz v)).

(** Python's [/] on two Python floats raises on a zero divisor. *)
Definition py_div (x y : F) : result F :=
  if y =? fzero then Raise ZeroDivisionError else Ok (x / y).

(** Python's builtin [min([x, y])] and [max([x, y])]: the first element is
    kept unless the second compares strictly better. *)
Definition py_min2 (x y : F) : F := if y <? x then y else x.
Definition py_max2 (x y : F) : F := if x <? y then y else x.

(** Python's builtin [max] of a list; [ValueError] on the empty list. *)
Definition py_max (l : list F) : result F :=
  match l with
  | [] => Raise ValueError
  | x :: l' => Ok (fold_left py_max2 l' x)
  end.

(** [list.index(x)]: position of the first element equal ([==]) to [x]. *)
Fixpoint py_list_index (l : list F) (x : F) : result Z :=
  match l with
  | [] => Raise ValueError
  | y :: l' => if y =? x then Ok 0%Z
               else i <- py_list_index l' x ;; Ok (i + 1)%Z
  end.

(** ** [flat_display_directions] *)

Section FlatDisplay.
Variable M : Libm F.
Variables (screen_height screen_width : F) (pixel_height pixel_width : Z)
          (distance_to_screen vertical_offset phi : F).

(** The two interpolation denominators, Python ints. *)
Definition row_denominator : Z := pixel_height - 1.
Definition col_denominator : Z := pixel_width - 1.

(** [rows[i, j] = float(i)], [columns[i, j] = float(j)] *)
Definition flat_x (j : Z) : F :=
  screen_width * (of_Z j / of_Z col_denominator - fhalf).
Definition flat_z (i : Z) : F :=
  distance_to_screen * sin M phi
  + (fhalf - of_Z i / of_Z row_denominator) * screen_height * cos M phi
  + vertical_offset.
Definition flat_y (i : Z) : F :=
  distance_to_screen * cos M phi
  + (of_Z i / of_Z row_denominator - fhalf) * screen_height * sin M phi.

(** The vector from the viewer to pixel [(i, j)], before normalisation. *)
Definition flat_vector (i j : Z) : vec3 F := Vec3 (flat_x j) (flat_y i) (flat_z i).

Definition flat_direction (i j : Z) : vec3 F :=
  let v := flat_vector i j in
  let r := fsqrt (sq (vx v) + sq (vy v) + sq (vz v)) in
  Vec3 (vx v / r) (vy v / r) (vz v / r).

(** The grid [dstack([x/r, y/r, z/r])] when [rows] and [columns] are both
    two-dimensional: [pixel_height] rows of [pixel_width] directions. *)
Definition flat_display_grid : list (list (vec3 F)) :=
  map (fun i => map (fun j => flat_direction i j) (range pixel_width))
      (range pixel_height).

(** With no row ([pixel_height <= 0]) [rows] is the one-dimensional empty
    array, of shape (0,), while [columns] has the shape (0, pixel_width), or
    (0,) when [pixel_width <= 0].  Adding [x**2], of the shape of [columns],
    to [y**2], of the shape of [rows], then fails for two or more columns:
    numpy cannot broadcast (0, pixel_width) with (0,).  One column broadcasts
    to the shape (0, 0), stacked into (0, 0, 3); no column leaves three arrays
    of shape (0,), which [dstack] stacks into the shape (1, 0, 3). *)
Definition flat_display_directions : result (list (list (vec3 F))) :=
  if (1 <=? pixel_height)%Z then Ok flat_display_grid
  else if (2 <=? pixel_width)%Z then Raise ValueError
  else if (pixel_width =? 1)%Z then Ok []
  else Ok [[]].

End FlatDisplay.

(** ** [numpy.linalg.solve] for a 2x2 system

    LAPACK's [gesv]: LU factorisation with partial pivoting ([getf2]: the
    subdiagonal entry is scaled by the reciprocal of the pivot), then forward
    and back substitution.  An exactly zero pivot is reported by LAPACK and
    turned into [LinAlgError] by numpy. *)
Definition fabs (x : F) : F := if x <? fzero then - x else x.

Definition linalg_solve2 (a00 a01 a10 a11 b0 b1 : F) : result (F * F) :=
  let '(p0, p1, o0, o1, c0, c1) :=
    if fabs a00 <? fabs a10
    then (a10, a11, a00, a01, b1, b0)
    else (a00, a01, a10, a11, b0, b1) in
  if p0 =? fzero then Raise LinAlgError
  else
    let l := o0 * (fone / p0) in
    let u11 := o1 - l * p1 in
    if u11 =? fzero then Raise LinAlgError
    else
      let y1 := c1 - l * c0 in
      let x1 := y1 / u11 in
      let x0 := (c0 - x1 * p1) / p0 in
      Ok (x0, x1).

(** ** The projector: calibration quads and focal point *)

(** A calibration image: four corner points, clockwise from the top left. *)
Definition quad : Type := list (vec3 F).

Definition _calc_projector_focal_point
    (first_projector_image second_projector_image : quad) : result (vec3 F) :=
  (* slope of the line along the top of the projected light *)
  f0 <- py_index first_projector_image 0 ;;
  let upper_z1 := vz f0 in
  s0 <- py_index second_projector_image 0 ;;
  let upper_z2 := vz s0 in
  let y1 := vy f0 in
  let y2 := vy s0 in
  upperSlope <- py_div (upper_z2 - upper_z1) (y2 - y1) ;;
  (* slope of the line along the bottom of the projected light *)
  f2 <- py_index first_projector_image 2 ;;
  let lower_z1 := vz f2 in
  s2 <- py_index second_projector_image 2 ;;
  let lower_z2 := vz s2 in
  lowerSlope <- py_div (lower_z2 - lower_z1) (y2 - y1) ;;
  (* y and z where the lines intersect *)
  '(y, z) <- linalg_solve2 upperSlope (- fone) lowerSlope (- fone)
               (upperSlope * y1 - upper_z1) (lowerSlope * y1 - lower_z1) ;;
  Ok (Vec3 (of_Z 0) y z).

(** ** The geometry passed to the constructor *)

Record Config : Type := {
  screen_height : list F;
  screen_width : list F;
  distance_to_screen : list F;
  pitch : list F;
  yaw : list F;
  roll : list F;
  image_pixel_height : list Z;
  image_pixel_width : list Z;
  projector_pixel_height : Z;
  projector_pixel_width : Z;
  first_projector_image : quad;
  second_projector_image : quad;
  mirror_radius : F;
  dome_center : vec3 F;
  dome_radius : F;
  animal_position : vec3 F
}.

(** ** [_dome_display_directions], pixel by pixel *)

Section DomePixel.
Variables (projector_focal_point : vec3 F) (mirror_radius_ : F)
          (dome_center_ : vec3 F) (dome_radius_ : F) (animal_position_ : vec3 F).

Let px := vx projector_focal_point.
Let py := vy projector_focal_point.
Let pz := vz projector_focal_point.

(** Coefficients of the mirror quadratic for the pixel direction [pd]. *)
Definition mirror_a (pd : vec3 F) : F := sq (vx pd) + sq (vy pd) + sq (vz pd).
Definition mirror_b (pd : vec3 F) : F :=
  two * px * vx pd + two * py * vy pd + two * pz * vz pd.
Definition mirror_c : F := sq px + sq py + sq pz - sq mirror_radius_.
Definition mirror_d_squared (pd : vec3 F) : F :=
  sq (mirror_b pd) - four * mirror_a pd * mirror_c.

(** The two candidate roots and the one the code picks. *)
Definition mirror_root_plus (pd : vec3 F) : F :=
  (- mirror_b pd + fsqrt (mirror_d_squared pd)) / (two * mirror_a pd).
Definition mirror_root_minus (pd : vec3 F) : F :=
  (- mirror_b pd - fsqrt (mirror_d_squared pd)) / (two * mirror_a pd).
Definition mirror_r (pd : vec3 F) : F :=
  py_min2 (mirror_root_plus pd) (mirror_root_minus pd).

(** First loop: [projector_mask[i, j]] and [incident_light_vectors[i, j]]. *)
Definition projector_mask_at (pd : vec3 F) : Z :=
  if fzero <=? mirror_d_squared pd then 1%Z else 0%Z.

Definition incident_light_vector (pd : vec3 F) : vec3 F :=
  if fzero <=? mirror_d_squared pd
  then let r := mirror_r pd in Vec3 (r * vx pd) (r * vy pd) (r * vz pd)
  else vzero.

Definition mirror_radius_vector (pd : vec3 F) : vec3 F :=
  vadd projector_focal_point (incident_light_vector pd).

Definition mirrorUnitNormal (pd : vec3 F) : vec3 F :=
  vdiv (mirror_radius_vector pd) mirror_radius_.

(** Second loop: the direction of the reflected light. *)
Definition reflectedLightVector (pd : vec3 F) : vec3 F :=
  let u := mirrorUnitNormal pd in
  vadd (vscale (of_Z (-2) * dot (incident_light_vector pd) u) u)
       (incident_light_vector pd).

Definition reflectedLightDirection (pd : vec3 F) : vec3 F :=
  if (projector_mask_at pd =? 1)%Z
  then vdiv (reflectedLightVector pd) (norm (reflectedLightVector pd))
  else vzero.

(** Coefficients of the dome quadratic. *)
Definition dome_rp (pd : vec3 F) : vec3 F :=
  vsub (mirror_radius_vector pd) dome_center_.
Definition dome_a (pd : vec3 F) : F :=
  let rld := reflectedLightDirection pd in
  sq (vx rld) + sq (vy rld) + sq (vz rld).
Definition dome_b (pd : vec3 F) : F :=
  let rld := reflectedLightDirection pd in
  let rp := dome_rp pd in
  two * vx rp * vx rld + two * vy rp * vy rld + two * vz rp * vz rld.
Definition dome_c (pd : vec3 F) : F :=
  let rp := dome_rp pd in
  sq (vx rp) + sq (vy rp) + sq (vz rp) - sq dome_radius_.
Definition dome_d_squared (pd : vec3 F) : F :=
  sq (dome_b pd) - four * dome_a pd * dome_c pd.

(** Third loop: the reflected light vector, up to the dome. *)
Definition dome_r (pd : vec3 F) : F :=
  let d := fsqrt (dome_d_squared pd) in
  py_max2 ((- dome_b pd + d) / (two * dome_a pd))
          ((- dome_b pd - d) / (two * dome_a pd)).

Definition reflected_light_vector (pd : vec3 F) : vec3 F :=
  if (projector_mask_at pd =? 1)%Z
  then let r := dome_r pd in
       let rld := reflectedLightDirection pd in
       Vec3 (r * vx rld) (r * vy rld) (r * vz rld)
  else vzero.

(** Fourth loop: the animal's viewing direction. *)
Definition animal_view_vector (pd : vec3 F) : vec3 F :=
  vsub (vadd (reflected_light_vector pd) (mirror_radius_vector pd))
       animal_position_.

Definition animal_view_direction (pd : vec3 F) : vec3 F :=
  if (projector_mask_at pd =? 1)%Z
  then vdiv (animal_view_vector pd) (norm (animal_view_vector pd))
  else vzero.

End DomePixel.

(** The projector's image plane: [self._projector_pixel_directions]. *)
Definition projector_pixel_directions (M : Libm F) (cfg : Config)
    (projector_focal_point : vec3 F) : result (list (list (vec3 F))) :=
  s1 <- py_index (second_projector_image cfg) 1 ;;
  let top_right_x := vx s1 in
  s0 <- py_index (second_projector_image cfg) 0 ;;
  let top_left_x := vx s0 in
  let top_left_z := vz s0 in
  s3 <- py_index (second_projector_image cfg) 3 ;;
  let bottom_left_z := vz s3 in
  let image_height := top_left_z - bottom_left_z in
  let image_width := top_right_x - top_left_x in
  let image_y := vy s0 in
  let projector_y := vy projector_focal_point in
  let distance_to_image := image_y - projector_y in
  let projector_z := vz projector_focal_point in
  let vertical_offset := bottom_left_z - projector_z + image_height / two in
  directions <-
    flat_display_directions M image_height image_width
      (projector_pixel_height cfg) (projector_pixel_width cfg)
      distance_to_image vertical_offset fzero ;;
  (* flip the sign of the x-values *)
  Ok (map (map (fun d => vmul d (Vec3 (of_Z (-1)) (of_Z 1) (of_Z 1)))) directions).

(** [zeros([H, W])] and [zeros([H, W, 3])]: numpy refuses a negative
    dimension. *)
Definition zeros_shape (H W : Z) : result unit :=
  if ((H <? 0) || (W <? 0))%Z then Raise ValueError else Ok tt.

(** The loops [for i in range(H): for j in range(W):] over the arrays derived
    from the pixel directions: cell [(i, j)] of the array they fill is
    computed from [pds[i, j]]. *)
Definition for_each_pixel {A : Type} (H W : Z) (pds : list (list (vec3 F)))
    (f : vec3 F -> A) : result (list (list A)) :=
  mapM (fun i => mapM (fun j => pd <- np_get2 pds i j ;; Ok (f pd)) (range W))
       (range H).

(** [_dome_display_directions] returns the animal view directions and leaves
    the mask in [self._projector_mask]; both are returned here. *)
Definition _dome_display_directions (M : Libm F) (cfg : Config)
    : result (list (list Z) * list (list (vec3 F))) :=
  projector_focal_point <-
    _calc_projector_focal_point (first_projector_image cfg)
                                (second_projector_image cfg) ;;
  pds <- projector_pixel_directions M cfg projector_focal_point ;;
  let H := projector_pixel_height cfg in
  let W := projector_pixel_width cfg in
  'tt <- zeros_shape H W ;;
  projector_mask <-
    for_each_pixel H W pds
      (projector_mask_at projector_focal_point (mirror_radius cfg)) ;;
  animal_view_directions <-
    for_each_pixel H W pds
      (animal_view_direction projector_focal_point (mirror_radius cfg)
         (dome_center cfg) (dome_radius cfg) (animal_position cfg)) ;;
  Ok (projector_mask, animal_view_directions).

(** ** The object built by [__init__] *)

(** One entry of a contributing-pixel list: [[screen, r, c]]; the row and
    column are floats. *)
Definition contribution : Type := (Z * F * F)%type.

Record DomeProjection : Type := {
  params : Config;
  _pitch : list F;
  _yaw : list F;
  _roll : list F;
  _projector_pixel_row : Z;
  _projector_pixel_col : Z;
  _vector_to_screen : list (vec3 F);
  _row_vector : list (vec3 F);
  _col_vector : list (vec3 F);
  _camera_view_directions : list (list (vec3 F));
  _projector_mask : list (list Z);
  _animal_view_directions : list (list (vec3 F));
  _contributing_pixels : list (list (list contribution))
}.

Definition with_saved_pixel (self : DomeProjection) (r c : Z) : DomeProjection :=
  {| params := params self;
     _pitch := _pitch self; _yaw := _yaw self; _roll := _roll self;
     _projector_pixel_row := r;
     _projector_pixel_col := c;
     _vector_to_screen := _vector_to_screen self;
     _row_vector := _row_vector self;
     _col_vector := _col_vector self;
     _camera_view_directions := _camera_view_directions self;
     _projector_mask := _projector_mask self;
     _animal_view_directions := _animal_view_directions self;
     _contributing_pixels := _contributing_pixels self |}.

(** ** [_calc_contributing_pixels] *)

(** The search for the nearest OpenGL screen:
    [(screen, direction_dot_direction_to_screen)] after the loop. *)
Fixpoint nearest_screen (direction : vec3 F) (direction_to_screen : list (vec3 F))
    (screens : list Z) (screen : Z) (direction_dot_direction_to_screen : F)
    : result (Z * F) :=
  match screens with
  | [] => Ok (screen, direction_dot_direction_to_screen)
  | i :: screens' =>
      d <- py_index direction_to_screen i ;;
      let dp := dot direction d in
      if direction_dot_direction_to_screen <? dp
      then nearest_screen direction direction_to_screen screens' i dp
      else nearest_screen direction direction_to_screen screens' screen
             direction_dot_direction_to_screen
  end.

Definition contributing_pixels_at
    (image_pixel_height_ image_pixel_width_ row_center col_center : list Z)
    (row_spacing col_spacing : list F)
    (vector_to_screen : list (vec3 F)) (distance_to_screen' : list F)
    (direction_to_screen row_vector_ col_vector_ : list (vec3 F))
    (screens : list Z) (direction : vec3 F) : result (list contribution) :=
    '(screen, direction_dot_direction_to_screen) <-
      nearest_screen direction direction_to_screen screens 0%Z fzero ;;
    if fzero <? direction_dot_direction_to_screen then
      dist <- py_index distance_to_screen' screen ;;
      let magnitude := dist / direction_dot_direction_to_screen in
      let x := magnitude * vx direction in
      let y := magnitude * vy direction in
      let z := magnitude * vz direction in
      vts <- py_index vector_to_screen screen ;;
      let on_screen_vector := vsub (Vec3 x y z) vts in
      rc <- py_index row_center screen ;;
      rv <- py_index row_vector_ screen ;;
      rs <- py_index row_spacing screen ;;
      let r := of_Z rc + dot on_screen_vector rv / rs in
      cc <- py_index col_center screen ;;
      cv <- py_index col_vector_ screen ;;
      cs <- py_index col_spacing screen ;;
      let c := of_Z cc + dot on_screen_vector cv / cs in
      (* make sure the pixel is inside the OpenGL image *)
      if negb (fzero <=? r) then Ok [] else
      h <- py_index image_pixel_height_ screen ;;
      if negb (r <? of_Z h) then Ok [] else
      if negb (fzero <=? c) then Ok [] else
      w <- py_index image_pixel_width_ screen ;;
      if negb (c <? of_Z w) then Ok [] else
      Ok [(screen, r, c)]
    else Ok [].

Definition _calc_contributing_pixels (cfg : Config)
    (vector_to_screen row_vector_ col_vector_ : list (vec3 F))
    (projector_mask : list (list Z))
    (animal_view_directions : list (list (vec3 F)))
    : result (list (list (list contribution))) :=
  let screens := range (Z.of_nat (List.length (distance_to_screen cfg))) in
  row_center <-
    mapM (fun i => h <- py_index (image_pixel_height cfg) i ;; Ok (h / 2)%Z) screens ;;
  row_spacing <-
    mapM (fun i => sh <- py_index (screen_height cfg) i ;;
                   h <- py_index (image_pixel_height cfg) i ;;
                   py_div sh (of_Z h)) screens ;;
  col_center <-
    mapM (fun i => w <- py_index (image_pixel_width cfg) i ;; Ok (w / 2)%Z) screens ;;
  col_spacing <-
    mapM (fun i => sw <- py_index (screen_width cfg) i ;;
                   w <- py_index (image_pixel_width cfg) i ;;
                   py_div sw (of_Z w)) screens ;;
  let distance_to_screen' := map norm vector_to_screen in
  direction_to_screen <-
    mapM (fun i => v <- py_index vector_to_screen i ;;
                   d <- py_index distance_to_screen' i ;;
                   Ok (vdiv v d)) screens ;;
  mapM (fun row =>
    mapM (fun col =>
      m <- np_get2 projector_mask row col ;;
      if (m =? 1)%Z then
        direction <- np_get2 animal_view_directions row col ;;
        contributing_pixels_at (image_pixel_height cfg) (image_pixel_width cfg)
          row_center col_center row_spacing col_spacing
          vector_to_screen distance_to_screen' direction_to_screen
          row_vector_ col_vector_ screens direction
      else Ok [])
      (range (projector_pixel_width cfg)))
    (range (projector_pixel_height cfg)).

(** ** [__init__] *)

(** The body of the loop over the screens: [vector_to_screen], [row_vector]
    and [col_vector] of one screen. *)
Definition screen_vectors (M : Libm F) (cfg : Config)
    (yaws pitches rolls : list F) (screen : Z)
    : result (vec3 F * vec3 F * vec3 F) :=
  yaw_ <- py_index yaws screen ;;
  pitch_ <- py_index pitches screen ;;
  roll_ <- py_index rolls screen ;;
  d <- py_index (distance_to_screen cfg) screen ;;
  let x := d * sin M yaw_ * cos M pitch_ in
  let y := d * cos M yaw_ * cos M pitch_ in
  let z := d * sin M pitch_ in
  let vts := Vec3 x y z in
  let col_vector := cross vts (Vec3 (sin M roll_ * cos M yaw_)
                                    (sin M roll_ * sin M yaw_)
                                    (cos M roll_)) in
  let col_vector := vdiv col_vector (norm col_vector) in
  let row_vector := cross vts col_vector in
  let row_vector := vdiv row_vector (norm row_vector) in
  Ok (vts, row_vector, col_vector).

Definition radians (M : Libm F) (i : F) : F := i * pi M / of_Z 180.

Definition __init__ (M : Libm F) (cfg : Config) : result DomeProjection :=
  let pitches := map (radians M) (pitch cfg) in
  let yaws := map (radians M) (yaw cfg) in
  let rolls := map (radians M) (roll cfg) in
  (* start the search in the middle of the projector's bottom row *)
  let projector_pixel_row := (projector_pixel_height cfg - 1)%Z in
  let projector_pixel_col := (projector_pixel_width cfg / 2)%Z in
  vectors <- mapM (screen_vectors M cfg yaws pitches rolls)
               (range (Z.of_nat (List.length (distance_to_screen cfg)))) ;;
  let vector_to_screen := map (fun t => fst (fst t)) vectors in
  let row_vector := map (fun t => snd (fst t)) vectors in
  let col_vector := map (fun t => snd t) vectors in
  sh0 <- py_index (screen_height cfg) 0 ;;
  sw0 <- py_index (screen_width cfg) 0 ;;
  ih0 <- py_index (image_pixel_height cfg) 0 ;;
  iw0 <- py_index (image_pixel_width cfg) 0 ;;
  d0 <- py_index (distance_to_screen cfg) 0 ;;
  p0 <- py_index pitches 0 ;;
  (* the sixth positional argument is [vertical_offset]; [phi] keeps its
     default 0 *)
  camera_view_directions <-
    flat_display_directions M sh0 sw0 ih0 iw0 d0 p0 fzero ;;
  '(projector_mask, animal_view_directions) <- _dome_display_directions M cfg ;;
  contributing_pixels <-
    _calc_contributing_pixels cfg vector_to_screen row_vector col_vector
      projector_mask animal_view_directions ;;
  Ok {| params := cfg;
        _pitch := pitches; _yaw := yaws; _roll := rolls;
        _projector_pixel_row := projector_pixel_row;
        _projector_pixel_col := projector_pixel_col;
        _vector_to_screen := vector_to_screen;
        _row_vector := row_vector;
        _col_vector := col_vector;
        _camera_view_directions := camera_view_directions;
        _projector_mask := projector_mask;
        _animal_view_directions := animal_view_directions;
        _contributing_pixels := contributing_pixels |}.

(** ** [warp_image_for_dome] *)

(** A PIL image: [size] is (width, height); [array(image)[r, c]] is the RGB
    triple of row [r], column [c], three [uint8] values. *)
Record Image : Type := {
  size : Z * Z;
  pixel_data : Z -> Z -> vec3 Z
}.

(** One axis of a numpy index. *)
Definition np_axis (n i : Z) : result Z :=
  let k := if (i <? 0)%Z then (i + n)%Z else i in
  if ((0 <=? k) && (k <? n))%Z then Ok k else Raise IndexError.

(** [pixels[r, c]] with float indices: numpy (as of the Python 2.7 releases
    this code was written for) truncates a float index to an integer. *)
Definition array_get (img : Image) (r c : F) : result (vec3 Z) :=
  ri <- np_axis (snd (size img)) (ftrunc r) ;;
  ci <- np_axis (fst (size img)) (ftrunc c) ;;
  Ok (pixel_data img ri ci).

(** [array(x, dtype=uint8)] on a float *)
Definition to_uint8 (x : F) : Z := (ftrunc x mod 256)%Z.

Definition of_rgb (p : vec3 Z) : vec3 F :=
  Vec3 (of_Z (vx p)) (of_Z (vy p)) (of_Z (vz p)).

(** The loop [for pixel in self._contributing_pixels[row][col]]. *)
Fixpoint sum_contributions (pixels : list Image) (l : list contribution)
    (pixel_value : vec3 F) : result (vec3 F) :=
  match l with
  | [] => Ok pixel_value
  | (screen, r, c) :: l' =>
      img <- py_index pixels screen ;;
      p <- array_get img r c ;;
      sum_contributions pixels l' (vadd pixel_value (of_rgb p))
  end.

Definition warp_pixel (pixels : list Image) (l : list contribution)
    : result (vec3 Z) :=
  pixel_value <- sum_contributions pixels l vzero ;;
  let n := Z.of_nat (List.length l) in
  let pixel_value := if (0 <? n)%Z then vdiv pixel_value (of_Z n) else pixel_value in
  Ok (Vec3 (to_uint8 (vx pixel_value)) (to_uint8 (vy pixel_value))
           (to_uint8 (vz pixel_value))).

Definition check_image (self : DomeProjection) (ii : Z * Image) : result Image :=
  w <- py_index (image_pixel_width (params self)) (fst ii) ;;
  h <- py_index (image_pixel_height (params self)) (fst ii) ;;
  if ((fst (size (snd ii)) =? w) && (snd (size (snd ii)) =? h))%Z
  then Ok (snd ii) else Raise AssertionError.

Definition warp_image_for_dome (self : DomeProjection) (images : list Image)
    : result (list (list (vec3 Z))) :=
  pixels <- mapM (check_image self)
              (combine (range (Z.of_nat (List.length images))) images) ;;
  mapM (fun row =>
    mapM (fun col =>
      cps <- py_index (_contributing_pixels self) row ;;
      l <- py_index cps col ;;
      warp_pixel pixels l)
      (range (projector_pixel_width (params self))))
    (range (projector_pixel_height (params self))).

(** ** The nearest-pixel search *)

Definition offsets : list (Z * Z) :=
  let row_above := [(-1, -1); (-1, 0); (-1, 1)]%Z in
  let beside := [(0, -1); (0, 1)]%Z in
  let row_below := [(1, -1); (1, 0); (1, 1)]%Z in
  row_above ++ beside ++ row_below.

Definition neighbors_of (self : DomeProjection) (row col : Z) : list (Z * Z) :=
  flat_map
    (fun d : Z * Z =>
       let '(dr, dc) := d in
       if ((0 <=? row + dr) && (row + dr <? projector_pixel_height (params self)))%Z
       then if ((0 <=? col + dc) && (col + dc <? projector_pixel_width (params self)))%Z
            then [((row + dr)%Z, (col + dc)%Z)]
            else []
       else [])
    offsets.

Definition _calc_neighbor_dot_products (self : DomeProjection) (row col : Z)
    (camera_direction : vec3 F) : result (list F * list (Z * Z)) :=
  let neighbors := neighbors_of self row col in
  neighbor_dps <-
    mapM (fun neighbor : Z * Z =>
            neighbor_direction <-
              np_get2 (_animal_view_directions self) (fst neighbor) (snd neighbor) ;;
            Ok (dot camera_direction neighbor_direction))
         neighbors ;;
  Ok (neighbor_dps, neighbors).

(** [random.randint(a, b)] takes the two bounds; any other number of
    arguments is a [TypeError].  [rnd] is the stream of raw random draws. *)
Definition randint (args : list Z) (rnd : list Z) : result (Z * list Z) :=
  match args with
  | [a; b] =>
      match rnd with
      | x :: rnd' => Ok ((a + x mod (b - a + 1))%Z, rnd')
      | [] => Ok (a, [])
      end
  | _ => Raise TypeError
  end.

(** A loop that ran out of [fuel] answers [None]. *)

(** [while self._projector_mask[r, c] == 0: ...] *)
Fixpoint find_masked_pixel (fuel : nat) (self : DomeProjection) (rnd : list Z)
    (r c : Z) : option (result (Z * Z * list Z)) :=
  match np_get2 (_projector_mask self) r c with
  | Raise e => Some (Raise e)
  | Ok m =>
      if (m =? 0)%Z then
        match fuel with
        | O => None
        | S fuel' =>
            match randint [projector_pixel_height (params self)] rnd with
            | Raise e => Some (Raise e)
            | Ok (r', rnd1) =>
                match randint [projector_pixel_width (params self)] rnd1 with
                | Raise e => Some (Raise e)
                | Ok (c', rnd2) => find_masked_pixel fuel' self rnd2 r' c'
                end
            end
        end
      else Some (Ok (r, c, rnd))
  end.

(** One turn of [while max(neighbor_dps) > dp]: [Ok None] when the loop
    condition is false, otherwise the state after the body. *)
Definition climb_step (self : DomeProjection) (camera_direction : vec3 F)
    (dp : F) (neighbor_dps : list F) (neighbors : list (Z * Z))
    : result (option (F * (Z * Z) * (list F * list (Z * Z)))) :=
  m <- py_max neighbor_dps ;;
  if dp <? m then
    let dp := m in
    k <- py_list_index neighbor_dps dp ;;
    rc <- py_index neighbors k ;;
    nn <- _calc_neighbor_dot_products self (fst rc) (snd rc) camera_direction ;;
    Ok (Some (dp, rc, nn))
  else Ok None.

Fixpoint climb (fuel : nat) (self : DomeProjection) (camera_direction : vec3 F)
    (dp : F) (rc : Z * Z) (neighbor_dps : list F) (neighbors : list (Z * Z))
    : option (result (Z * Z)) :=
  match climb_step self camera_direction dp neighbor_dps neighbors with
  | Raise e => Some (Raise e)
  | Ok None => Some (Ok rc)
  | Ok (Some (dp', rc', (neighbor_dps', neighbors'))) =>
      match fuel with
      | O => None
      | S fuel' => climb fuel' self camera_direction dp' rc' neighbor_dps' neighbors'
      end
  end.

Definition _find_closest_projector_pixel (fuel : nat) (self : DomeProjection)
    (rnd : list Z) (row col : Z)
    : option (result (Z * Z * DomeProjection * list Z)) :=
  match np_get2 (_camera_view_directions self) row col with
  | Raise e => Some (Raise e)
  | Ok camera_direction =>
      (* start with the last projector pixel *)
      let r := _projector_pixel_row self in
      let c := _projector_pixel_col self in
      match find_masked_pixel fuel self rnd r c with
      | None => None
      | Some (Raise e) => Some (Raise e)
      | Some (Ok (r, c, rnd')) =>
          match np_get2 (_animal_view_directions self) r c with
          | Raise e => Some (Raise e)
          | Ok animalDirection =>
              let dp := dot camera_direction animalDirection in
              match _calc_neighbor_dot_products self r c camera_direction with
              | Raise e => Some (Raise e)
              | Ok (neighbor_dps, neighbors) =>
                  match climb fuel self camera_direction dp (r, c)
                          neighbor_dps neighbors with
                  | None => None
                  | Some (Raise e) => Some (Raise e)
                  | Some (Ok (r, c)) =>
                      (* save the projector pixel for the next call *)
                      Some (Ok (r, c, with_saved_pixel self r c, rnd'))
                  end
              end
          end
      end
  end.

End Generic.

(** * Specification vocabulary *)

(** ** Laws of the comparisons

    The order-theoretic facts the proofs below use.  They hold of binary64 as
    they are stated: a NaN is below nothing and above nothing, and [x == x]
    is false exactly of NaN. *)

Class ArithLaws (F : Type) {AR : Arith F} : Prop := {
  ltb_irrefl : forall x, fltb x x = false;
  ltb_trans : forall x y z, fltb x y = true -> fltb y z = true -> fltb x z = true;
  ltb_not_leb : forall x y, fltb x y = true -> fleb y x = false;
  ltb_number : forall x y, fltb x y = true -> feqb y y = true;
  ltb_total : forall x y z,
    feqb y y = true -> fltb x z = true -> fltb x y = true \/ fltb y z = true;
  eqb_ltb_l : forall a b x, feqb a b = true -> fltb a x = fltb b x;
  eqb_ltb_r : forall a b x, feqb a b = true -> fltb x a = fltb x b;
  trunc_zero : ftrunc fzero = 0%Z;
  (* one [uint8] value summed and averaged alone comes back unchanged *)
  avg_one : forall c, (0 <= c < 256)%Z ->
    to_uint8 (fdiv (fadd fzero (of_Z c)) (of_Z 1)) = c
}.
Arguments ArithLaws F {AR}.

(** ** The nearest-pixel search: specification vocabulary *)

(** A grid of [H] rows of [W] cells. *)
Definition grid_shape {A : Type} (H W : Z) (g : list (list A)) : Prop :=
  List.length g = Z.to_nat H /\ Forall (fun row => List.length row = Z.to_nat W) g.

Section SearchSpec.
Context {F : Type} {AR : Arith F}.
Variable self : DomeProjection (F := F).
Variable camera_direction : vec3 F.

Definition in_grid (rc : Z * Z) : Prop :=
  (0 <= fst rc < projector_pixel_height (params self))%Z /\
  (0 <= snd rc < projector_pixel_width (params self))%Z.

(** The stored animal-view direction of a pixel of the grid. *)
Definition cell (rc : Z * Z) : vec3 F :=
  nth (Z.to_nat (snd rc))
      (nth (Z.to_nat (fst rc)) (_animal_view_directions self) []) vzero.

(** Its dot product with the query direction. *)
Definition dp_at (rc : Z * Z) : F := dot camera_direction (cell rc).

(** [x] is a number: [x == x] (false exactly of a NaN). *)
Definition number (x : F) : Prop := feqb x x = true.

(** The value of the variable [dp] when the search stands on pixel [rc]:
    the dot product there, up to [==]. *)
Definition dp_of (rc : Z * Z) (dp : F) : Prop :=
  dp = dp_at rc \/ feqb (dp_at rc) dp = true.

(** All the pixels of the projector grid. *)
Definition pixels : list (Z * Z) :=
  list_prod (range (projector_pixel_height (params self)))
            (range (projector_pixel_width (params self))).

(** The number of pixels whose dot product is strictly above [dp]: what
    decreases along the hill climb. *)
Definition above (dp : F) : nat :=
  List.length (filter (fun p => fltb dp (dp_at p)) pixels).

(** Where the loop stops: the loop condition is false there. *)
Definition stopped (rc : Z * Z) : Prop :=
  exists dp m,
    dp_of rc dp /\
    py_max (map dp_at (neighbors_of self (fst rc) (snd rc))) = Ok m /\
    fltb dp m = false.

End SearchSpec.

(** ** The contributing-pixel table *)

(** An entry [[screen, r, c]] that passed the test "inside the OpenGL
    image" of its screen. *)
Definition entry_inside {F : Type} {AR : Arith F} (cfg : Config (F := F)) (e : contribution (F := F)) : Prop :=
  let '(screen, r, c) := e in
  (0 <= screen < Z.of_nat (List.length (distance_to_screen cfg)))%Z /\
  exists h w,
    py_index (image_pixel_height cfg) screen = Ok h /\
    py_index (image_pixel_width cfg) screen = Ok w /\
    fleb fzero r = true /\ fltb r (of_Z h) = true /\
    fleb fzero c = true /\ fltb c (of_Z w) = true.

(** The reads of [warp_image_for_dome]: the truncated row and column of an
    entry index the image of its screen. *)
Definition index_inside {F : Type} {AR : Arith F} (cfg : Config (F := F))
    (e : contribution (F := F)) : Prop :=
  let '(screen, r, c) := e in
  exists h w,
    py_index (image_pixel_height cfg) screen = Ok h /\
    py_index (image_pixel_width cfg) screen = Ok w /\
    (0 <= ftrunc r < h)%Z /\ (0 <= ftrunc c < w)%Z.

(** ** The focal point solver *)

(** The two lines are those through [(y1, upper_z1)], [(y2, upper_z2)] and
    through [(y1, lower_z1)], [(y2, lower_z2)]; they are parallel when their
    direction vectors have a zero cross product. *)
Definition lines_parallel (f0 f2 s0 s2 : vec3 R) : Prop :=
  ((vy s0 - vy f0) * (vz s2 - vz f2) - (vy s0 - vy f0) * (vz s0 - vz f0) = 0)%R.

(** ** A reference set-up *)

Section Reference.
Local Open Scope float_scope.

(** The geometry of the reference set-up (the default arguments of
    [__init__]) with one OpenGL screen facing forward, at a small
    resolution. *)
Definition reference_config (H W : Z) (mirror_radius_ dome_radius_ : float)
    : Config (F := float) := {|
  screen_height := [1.0];
  screen_width := [1.4];
  distance_to_screen := [0.5];
  pitch := [0]; yaw := [0]; roll := [0];
  image_pixel_height := [4%Z];
  image_pixel_width := [4%Z];
  projector_pixel_height := H;
  projector_pixel_width := W;
  first_projector_image :=
    [Vec3 (-0.080) 0.436 0.137; Vec3 0.080 0.436 0.137;
     Vec3 0.080 0.436 0.043; Vec3 (-0.080) 0.436 0.043];
  second_projector_image :=
    [Vec3 (-0.115) 0.265 0.186; Vec3 0.115 0.265 0.186;
     Vec3 0.115 0.265 0.054; Vec3 (-0.115) 0.265 0.054];
  mirror_radius := mirror_radius_;
  dome_center := Vec3 0 0.138 0.309;
  dome_radius := dome_radius_;
  animal_position := Vec3 0 0.06 0.61
|}.

(** The reference set-up with a dome of radius 0.3 centred ahead of the
    mirror, at (0, 0.6, 0), and a projector of 8x8 pixels. *)
Definition dome_ahead_config : Config (F := float) := {|
  screen_height := [1.0];
  screen_width := [1.4];
  distance_to_screen := [0.5];
  pitch := [0]; yaw := [0]; roll := [0];
  image_pixel_height := [4%Z];
  image_pixel_width := [4%Z];
  projector_pixel_height := 8;
  projector_pixel_width := 8;
  first_projector_image :=
    [Vec3 (-0.080) 0.436 0.137; Vec3 0.080 0.436 0.137;
     Vec3 0.080 0.436 0.043; Vec3 (-0.080) 0.436 0.043];
  second_projector_image :=
    [Vec3 (-0.115) 0.265 0.186; Vec3 0.115 0.265 0.186;
     Vec3 0.115 0.265 0.054; Vec3 (-0.115) 0.265 0.054];
  mirror_radius := 0.215;
  dome_center := Vec3 0 0.6 0;
  dome_radius := 0.3;
  animal_position := Vec3 0 0.06 0.61
|}.

(** The reference set-up with the projector aimed at the lower half of the
    mirror: the two calibration quads of the reference set-up mirrored in the
    plane z = 0.  The projector has 4x4 pixels. *)
Definition lowered_beam_config : Config (F := float) := {|
  screen_height := [1.0];
  screen_width := [1.4];
  distance_to_screen := [0.5];
  pitch := [0]; yaw := [0]; roll := [0];
  image_pixel_height := [4%Z];
  image_pixel_width := [4%Z];
  projector_pixel_height := 4;
  projector_pixel_width := 4;
  first_projector_image :=
    [Vec3 (-0.080) 0.436 (-0.043); Vec3 0.080 0.436 (-0.043);
     Vec3 0.080 0.436 (-0.137); Vec3 (-0.080) 0.436 (-0.137)];
  second_projector_image :=
    [Vec3 (-0.115) 0.265 (-0.054); Vec3 0.115 0.265 (-0.054);
     Vec3 0.115 0.265 (-0.186); Vec3 (-0.115) 0.265 (-0.186)];
  mirror_radius := 0.215;
  dome_center := Vec3 0 0.138 0.309;
  dome_radius := 0.603;
  animal_position := Vec3 0 0.06 0.61
|}.

(** Two calibration quads of a beam whose top and bottom edges are
    parallel: the image is 1 high at the distance 0 and at the distance 1,
    and both edges rise by 49 in between. *)
Definition parallel_first_image : list (vec3 float) :=
  [Vec3 (-1) 0 1; Vec3 1 0 1; Vec3 1 0 0; Vec3 (-1) 0 0].
Definition parallel_second_image : list (vec3 float) :=
  [Vec3 (-1) 1 50; Vec3 1 1 50; Vec3 1 1 49; Vec3 (-1) 1 49].

(** The reference set-up calibrated with these two quads; the projector has
    2x2 pixels. *)
Definition parallel_beam_config : Config (F := float) := {|
  screen_height := [1.0];
  screen_width := [1.4];
  distance_to_screen := [0.5];
  pitch := [0]; yaw := [0]; roll := [0];
  image_pixel_height := [4%Z];
  image_pixel_width := [4%Z];
  projector_pixel_height := 2;
  projector_pixel_width := 2;
  first_projector_image := parallel_first_image;
  second_projector_image := parallel_second_image;
  mirror_radius := 0.215;
  dome_center := Vec3 0 0.138 0.309;
  dome_radius := 0.603;
  animal_position := Vec3 0 0.06 0.61
|}.

End Reference.

(** * Proofs *)

Unset Implicit Arguments.

Example float_div_zero : is_nan (fdiv (of_Z 0) (of_Z 0) : float) = true.
Proof. reflexivity. Qed.

Example float_trunc_ex : float_trunc 3.75%float = 3%Z /\ float_trunc (-3.75)%float = (-3)%Z.
Proof. split; reflexivity. Qed.

(** ** Lists, ranges and monadic maps *)

Lemma bind_Ok {A B : Type} (m : result A) (k : A -> result B) (b : B) :
  bind m k = Ok b -> exists a, m = Ok a /\ k a = Ok b.
Proof. destruct m as [a|e]; simpl; [eauto | discriminate]. Qed.

Ltac inv_bind H :=
  let a := fresh "a" in
  let Ha := fresh "Ha" in
  apply bind_Ok in H; destruct H as (a & Ha & H).

Lemma range_length (n : Z) : List.length (range n) = Z.to_nat n.
Proof. unfold range. now rewrite length_map, length_seq. Qed.

Lemma nth_error_range (n : Z) (i : nat) :
  (i < Z.to_nat n)%nat -> nth_error (range n) i = Some (Z.of_nat i).
Proof.
  intros H. unfold range. rewrite nth_error_map, nth_error_seq.
  destruct (Nat.ltb_spec i (Z.to_nat n)); [reflexivity | lia].
Qed.

Lemma py_index_nonneg {A : Type} (l : list A) (i : Z) :
  (0 <= i)%Z ->
  py_index l i = match nth_error l (Z.to_nat i) with
                 | Some a => Ok a
                 | None => Raise IndexError
                 end.
Proof.
  intros Hi. unfold py_index.
  destruct (Z.ltb_spec i 0); [lia|].
  destruct (Z.leb_spec 0 i); [|lia]. simpl.
  destruct (Z.ltb_spec i (Z.of_nat (List.length l))); [reflexivity|].
  destruct (nth_error l (Z.to_nat i)) eqn:E; [|reflexivity].
  assert (Z.to_nat i < List.length l)%nat by (apply nth_error_Some; congruence). lia.
Qed.

Lemma py_index_Ok_inv {A : Type} (l : list A) (i : Z) (a : A) :
  (0 <= i)%Z -> py_index l i = Ok a ->
  nth_error l (Z.to_nat i) = Some a /\ (i < Z.of_nat (List.length l))%Z.
Proof.
  intros Hi H. rewrite py_index_nonneg in H by assumption.
  destruct (nth_error l (Z.to_nat i)) eqn:E; [|discriminate].
  injection H as ->. split; [reflexivity|].
  assert (Z.to_nat i < List.length l)%nat by (apply nth_error_Some; congruence). lia.
Qed.

Lemma py_index_in_range {A : Type} (l : list A) (i : Z) :
  (0 <= i < Z.of_nat (List.length l))%Z -> exists a, py_index l i = Ok a.
Proof.
  intros Hi. rewrite py_index_nonneg by lia.
  destruct (nth_error l (Z.to_nat i)) eqn:E; [eauto|].
  apply nth_error_None in E. lia.
Qed.

Lemma in_range (n i : Z) : In i (range n) <-> (0 <= i < n)%Z.
Proof.
  unfold range. rewrite in_map_iff. split.
  - intros (k & <- & Hk). apply in_seq in Hk. lia.
  - intros Hi. exists (Z.to_nat i). split; [lia | apply in_seq; lia].
Qed.

Lemma py_index_range (n i : Z) : (0 <= i < n)%Z -> py_index (range n) i = Ok i.
Proof.
  intros Hi. rewrite py_index_nonneg by lia.
  rewrite nth_error_range by lia. f_equal. lia.
Qed.

Lemma py_index_map {A B : Type} (f : A -> B) (l : list A) (i : Z) :
  py_index (map f l) i = bind (py_index l i) (fun a => Ok (f a)).
Proof.
  unfold py_index. rewrite length_map.
  destruct (_ && _)%bool; [|reflexivity].
  rewrite nth_error_map. now destruct (nth_error l _).
Qed.

Lemma np_get2_map {A B : Type} (f : A -> B) (g : list (list A)) (r c : Z) :
  np_get2 (map (map f) g) r c = bind (np_get2 g r c) (fun a => Ok (f a)).
Proof.
  unfold np_get2. rewrite py_index_map.
  destruct (py_index g r); simpl; [apply py_index_map | reflexivity].
Qed.

Lemma mapM_length {A B : Type} (f : A -> result B) (l : list A) (out : list B) :
  mapM f l = Ok out -> List.length out = List.length l.
Proof.
  revert out. induction l as [|a l IH]; simpl; intros out H.
  - now injection H as <-.
  - inv_bind H. inv_bind H. injection H as <-. simpl. f_equal. eauto.
Qed.

Lemma mapM_nth_error {A B : Type} (f : A -> result B) (l : list A) (out : list B) :
  mapM f l = Ok out ->
  forall i a, nth_error l i = Some a ->
  exists b, nth_error out i = Some b /\ f a = Ok b.
Proof.
  revert out. induction l as [|x l IH]; simpl; intros out H i a Hi.
  - destruct i; discriminate.
  - inv_bind H. inv_bind H. injection H as <-.
    destruct i as [|i]; simpl in *.
    + injection Hi as <-. eauto.
    + eauto.
Qed.

Lemma mapM_py_index {A B : Type} (f : A -> result B) (l : list A) (out : list B)
    (i : Z) (a : A) :
  mapM f l = Ok out -> (0 <= i)%Z -> py_index l i = Ok a ->
  exists b, py_index out i = Ok b /\ f a = Ok b.
Proof.
  intros H Hi Ha. apply py_index_Ok_inv in Ha; [|assumption]. destruct Ha as [Ha _].
  destruct (mapM_nth_error _ _ _ H _ _ Ha) as (b & Hb & Hf).
  exists b. split; [|assumption].
  rewrite py_index_nonneg by assumption. now rewrite Hb.
Qed.

Lemma mapM_total {A B : Type} (f : A -> result B) (g : A -> B) (l : list A) :
  (forall a, In a l -> f a = Ok (g a)) -> mapM f l = Ok (map g l).
Proof.
  induction l as [|a l IH]; simpl; intros Hf; [reflexivity|].
  rewrite Hf by now left. simpl. rewrite IH by (intros; apply Hf; now right).
  reflexivity.
Qed.

Lemma filter_length_lt {A : Type} (f g : A -> bool) (l : list A) (a : A) :
  (forall x, f x = true -> g x = true) ->
  In a l -> g a = true -> f a = false ->
  (List.length (filter f l) < List.length (filter g l))%nat.
Proof.
  intros Hfg. induction l as [|x l IH]; simpl; intros Hin Hg Hf; [contradiction|].
  assert (Hle : (List.length (filter f l) <= List.length (filter g l))%nat).
  { clear -Hfg. induction l as [|y l IH]; simpl; [lia|].
    destruct (f y) eqn:E; [rewrite (Hfg _ E); simpl; lia|].
    destruct (g y); simpl; lia. }
  destruct Hin as [-> | Hin].
  - rewrite Hg, Hf. simpl. lia.
  - specialize (IH Hin Hg Hf).
    destruct (f x) eqn:E; [rewrite (Hfg _ E); simpl; lia|].
    destruct (g x); simpl; lia.
Qed.

Lemma mapM_Forall {A B : Type} (f : A -> result B) (P : B -> Prop)
    (l : list A) (out : list B) :
  mapM f l = Ok out ->
  (forall a b, In a l -> f a = Ok b -> P b) -> Forall P out.
Proof.
  revert out. induction l as [|x l IH]; simpl; intros out H HP.
  - injection H as <-. constructor.
  - inv_bind H. inv_bind H. injection H as <-.
    constructor; [eapply HP; eauto | apply IH; eauto].
Qed.

(** A grid computed cell by cell over [range(H)] x [range(W)]. *)
Lemma mapM_grid {B : Type} (g : Z -> Z -> result B) (H W : Z) (out : list (list B))
    (row col : Z) :
  mapM (fun r => mapM (fun c => g r c) (range W)) (range H) = Ok out ->
  (0 <= row < H)%Z -> (0 <= col < W)%Z ->
  exists b, np_get2 out row col = Ok b /\ g row col = Ok b.
Proof.
  intros E Hr Hc.
  destruct (mapM_py_index _ _ _ row _ E (proj1 Hr) (py_index_range _ _ Hr))
    as (cells & Hcells & Erow).
  destruct (mapM_py_index _ _ _ col _ Erow (proj1 Hc) (py_index_range _ _ Hc))
    as (b & Hb & Eb).
  exists b. split; [|assumption]. unfold np_get2. now rewrite Hcells.
Qed.


Lemma grid_shape_map {A B : Type} (f : A -> B) (H W : Z) (g : list (list A)) :
  grid_shape H W g -> grid_shape H W (map (map f) g).
Proof.
  intros [Hlen Hrows]. split; [now rewrite length_map|].
  apply Forall_forall. intros row Hrow. apply in_map_iff in Hrow.
  destruct Hrow as (row' & <- & Hin). rewrite length_map.
  rewrite Forall_forall in Hrows. now apply Hrows.
Qed.

Lemma grid_shape_mapM {B : Type} (g : Z -> Z -> result B) (H W : Z)
    (out : list (list B)) :
  mapM (fun r => mapM (fun c => g r c) (range W)) (range H) = Ok out ->
  grid_shape H W out.
Proof.
  intros E. split.
  - rewrite (mapM_length _ _ _ E). apply range_length.
  - eapply mapM_Forall; [exact E|]. intros r cells _ Hcells. simpl in Hcells.
    rewrite (mapM_length _ _ _ Hcells). apply range_length.
Qed.

Lemma np_get2_grid {A : Type} (cellf : Z -> Z -> A) (H W i j : Z) :
  (0 <= i < H)%Z -> (0 <= j < W)%Z ->
  np_get2 (map (fun i => map (fun j => cellf i j) (range W)) (range H)) i j
  = Ok (cellf i j).
Proof.
  intros Hi Hj. unfold np_get2.
  rewrite py_index_map, (py_index_range H i Hi). simpl.
  now rewrite py_index_map, (py_index_range W j Hj).
Qed.


(** ** The laws hold of binary64 and of the reals *)

Module SFOrder.

Ltac cmp_cases :=
  repeat match goal with
  | |- context [Z.compare ?a ?b] =>
      let H := fresh in destruct (Z.compare_spec a b) as [H|H|H]; try subst
  | H : context [Z.compare ?a ?b] |- _ =>
      let H' := fresh in destruct (Z.compare_spec a b) as [H'|H'|H']; try subst
  | |- context [Pos.compare_cont Eq ?a ?b] =>
      let H := fresh in change (Pos.compare_cont Eq a b) with (Pos.compare a b);
      destruct (Pos.compare_spec a b) as [H|H|H]; try subst
  | H : context [Pos.compare_cont Eq ?a ?b] |- _ =>
      let H' := fresh in change (Pos.compare_cont Eq a b) with (Pos.compare a b) in H;
      destruct (Pos.compare_spec a b) as [H'|H'|H']; try subst
  end.

Ltac crush :=
  simpl in *; try discriminate; try reflexivity; try congruence;
  cmp_cases; simpl in *; try discriminate; try reflexivity; try congruence; try lia.

Ltac split_float x :=
  let s := fresh "s" in
  destruct x as [s|s| |s ? ?]; try destruct s.

Lemma lt_irrefl x : SFltb x x = false.
Proof. unfold SFltb. split_float x; crush. Qed.

Lemma lt_trans x y z : SFltb x y = true -> SFltb y z = true -> SFltb x z = true.
Proof. unfold SFltb. split_float x; split_float y; crush; split_float z; crush. Qed.

Lemma lt_not_le x y : SFltb x y = true -> SFleb y x = false.
Proof. unfold SFltb, SFleb. split_float x; split_float y; crush. Qed.

Lemma lt_number x y : SFltb x y = true -> SFeqb y y = true.
Proof. unfold SFltb, SFeqb. split_float x; split_float y; crush. Qed.

Lemma lt_total x y z :
  SFeqb y y = true -> SFltb x z = true -> SFltb x y = true \/ SFltb y z = true.
Proof.
  unfold SFltb, SFeqb.
  split_float y; crush; split_float x; crush; split_float z; crush;
    try (left; reflexivity); try (right; reflexivity).
Qed.

Lemma eq_lt_l a b x : SFeqb a b = true -> SFltb a x = SFltb b x.
Proof. unfold SFltb, SFeqb. split_float a; split_float b; crush; split_float x; crush. Qed.

Lemma eq_lt_r a b x : SFeqb a b = true -> SFltb x a = SFltb x b.
Proof. unfold SFltb, SFeqb. split_float a; split_float b; crush; split_float x; crush. Qed.

End SFOrder.

#[export] Instance FloatLaws : ArithLaws float.
Proof.
  constructor; simpl; intros *.
  - rewrite ltb_spec. apply SFOrder.lt_irrefl.
  - rewrite !ltb_spec. apply SFOrder.lt_trans.
  - rewrite ltb_spec, leb_spec. apply SFOrder.lt_not_le.
  - rewrite ltb_spec, eqb_spec. apply SFOrder.lt_number.
  - rewrite !ltb_spec, eqb_spec. apply SFOrder.lt_total.
  - rewrite !ltb_spec, eqb_spec. apply SFOrder.eq_lt_l.
  - rewrite !ltb_spec, eqb_spec. apply SFOrder.eq_lt_r.
  - reflexivity.
  - intros Hc.
    assert (Hall : forallb
              (fun c => (to_uint8 (PrimFloat.div (PrimFloat.add 0%float (float_of_Z c))
                                                 (float_of_Z 1)) =? c)%Z)
              (range 256) = true) by (vm_compute; reflexivity).
    rewrite forallb_forall in Hall. apply Z.eqb_eq, Hall, in_range. assumption.
Qed.

Lemma Rltb_true x y : Rltb x y = true <-> (x < y)%R.
Proof. unfold Rltb. destruct (Rlt_dec x y); split; intros; try discriminate; tauto. Qed.

Lemma Rltb_false x y : Rltb x y = false <-> (y <= x)%R.
Proof.
  unfold Rltb. destruct (Rlt_dec x y); split; intros; try discriminate; try lra; auto.
Qed.

Lemma Rleb_true x y : Rleb x y = true <-> (x <= y)%R.
Proof. unfold Rleb. destruct (Rle_dec x y); split; intros; try discriminate; tauto. Qed.

Lemma Rleb_false x y : Rleb x y = false <-> (y < x)%R.
Proof.
  unfold Rleb. destruct (Rle_dec x y); split; intros; try discriminate; try lra; auto.
Qed.

Lemma Reqb_true x y : Reqb x y = true <-> x = y.
Proof. unfold Reqb. destruct (Req_dec_T x y); split; intros; try discriminate; tauto. Qed.

Lemma Reqb_false x y : Reqb x y = false <-> x <> y.
Proof. unfold Reqb. destruct (Req_dec_T x y); split; intros; try discriminate; tauto. Qed.

Lemma Int_part_0 : Int_part 0 = 0%Z.
Proof.
  destruct (base_Int_part 0) as [H1 H2].
  apply le_IZR in H1.
  assert (H3 : (-1 < IZR (Int_part 0))%R) by lra.
  apply lt_IZR in H3. lia.
Qed.

#[export] Instance RealLaws : ArithLaws R.
Proof.
  constructor; simpl; intros *.
  - apply Rltb_false. lra.
  - rewrite !Rltb_true. lra.
  - rewrite Rltb_true, Rleb_false. lra.
  - intros _. now apply Reqb_true.
  - rewrite !Rltb_true. intros _ H.
    destruct (Rlt_dec x y); [now left | right; lra].
  - rewrite Reqb_true. now intros ->.
  - rewrite Reqb_true. now intros ->.
  - unfold Rtrunc. destruct (Rle_dec 0 0); [apply Int_part_0 | lra].
  - intros Hc. unfold to_uint8. simpl.
    replace ((0 + IZR c) / 1)%R with (IZR c) by field.
    unfold Rtrunc. destruct (Rle_dec 0 (IZR c)) as [_ | N].
    + rewrite <- (Int_part_spec (IZR c) c) by lra. now apply Z.mod_small.
    + exfalso. apply N. apply IZR_le. lia.
Qed.

(** ** The construction pipeline *)

Section Pipeline.
Context {F : Type} {AR : Arith F}.

(** What [__init__] leaves in the object. *)
Lemma init_inv (M : Libm F) (cfg : Config) (self : DomeProjection) :
  __init__ M cfg = Ok self ->
  params self = cfg /\
  _dome_display_directions M cfg
    = Ok (_projector_mask self, _animal_view_directions self) /\
  _calc_contributing_pixels cfg (_vector_to_screen self) (_row_vector self)
    (_col_vector self) (_projector_mask self) (_animal_view_directions self)
    = Ok (_contributing_pixels self) /\
  _projector_pixel_row self = (projector_pixel_height cfg - 1)%Z /\
  _projector_pixel_col self = (projector_pixel_width cfg / 2)%Z.
Proof.
  unfold __init__. intros H.
  apply bind_Ok in H. destruct H as (vectors & _ & H).
  do 6 (apply bind_Ok in H; destruct H as (? & _ & H)).
  apply bind_Ok in H. destruct H as (camera & _ & H).
  apply bind_Ok in H. destruct H as ([mask avd] & Hdome & H).
  apply bind_Ok in H. destruct H as (cp & Hcp & H).
  injection H as <-. simpl.
  repeat split; assumption.
Qed.

(** *** [flat_display_directions] *)

Lemma flat_display_directions_rows (M : Libm F) (sh sw : F) (ph pw : Z)
    (d off phi : F) :
  (1 <= ph)%Z ->
  flat_display_directions M sh sw ph pw d off phi
  = Ok (flat_display_grid M sh sw ph pw d off phi).
Proof.
  intros Hph. unfold flat_display_directions.
  destruct (Z.leb_spec 1 ph); [reflexivity | lia].
Qed.


Lemma flat_display_grid_shape (M : Libm F) (sh sw : F) (ph pw : Z) (d off phi : F) :
  grid_shape ph pw (flat_display_grid M sh sw ph pw d off phi).
Proof.
  unfold grid_shape, flat_display_grid. split.
  - now rewrite length_map, range_length.
  - apply Forall_forall. intros row Hrow. apply in_map_iff in Hrow.
    destruct Hrow as (i & <- & _). now rewrite length_map, range_length.
Qed.

Lemma np_get2_flat (M : Libm F) (sh sw : F) (ph pw : Z) (d off phi : F) (i j : Z) :
  (0 <= i < ph)%Z -> (0 <= j < pw)%Z ->
  np_get2 (flat_display_grid M sh sw ph pw d off phi) i j
  = Ok (flat_direction M sh sw ph pw d off phi i j).
Proof.
  intros Hi Hj. unfold flat_display_grid. now apply np_get2_grid.
Qed.

(** *** The loops over the projector pixels *)

Lemma for_each_pixel_shape {A : Type} (H W : Z) (pds : list (list (vec3 F)))
    (f : vec3 F -> A) (g : list (list A)) :
  for_each_pixel H W pds f = Ok g -> grid_shape H W g.
Proof. apply grid_shape_mapM. Qed.


(** On a grid of [H] rows of [W] cells the loops visit every cell. *)
Lemma for_each_pixel_grid {A : Type} (H W : Z) (cellf : Z -> Z -> vec3 F)
    (f : vec3 F -> A) :
  for_each_pixel H W
    (map (fun i => map (fun j => cellf i j) (range W)) (range H)) f
  = Ok (map (map f) (map (fun i => map (fun j => cellf i j) (range W)) (range H))).
Proof.
  unfold for_each_pixel. rewrite map_map.
  apply mapM_total. intros i Hi. rewrite map_map.
  apply mapM_total. intros j Hj.
  apply in_range in Hi, Hj.
  unfold np_get2. rewrite py_index_map, (py_index_range H i Hi). simpl.
  now rewrite py_index_map, (py_index_range W j Hj).
Qed.

(** The projector's image plane, for a projector of at least one row. *)
Lemma projector_pixel_directions_rows (M : Libm F) (cfg : Config)
    (focal : vec3 F) (pds : list (list (vec3 F))) :
  projector_pixel_directions M cfg focal = Ok pds ->
  (1 <= projector_pixel_height cfg)%Z ->
  exists sh sw d off,
    pds = map (fun i => map (fun j =>
                 vmul (flat_direction M sh sw (projector_pixel_height cfg)
                         (projector_pixel_width cfg) d off fzero i j)
                      (Vec3 (of_Z (-1)) (of_Z 1) (of_Z 1)))
               (range (projector_pixel_width cfg)))
              (range (projector_pixel_height cfg)).
Proof.
  unfold projector_pixel_directions. intros H Hrows.
  apply bind_Ok in H. destruct H as (s1 & _ & H).
  apply bind_Ok in H. destruct H as (s0 & _ & H).
  apply bind_Ok in H. destruct H as (s3 & _ & H).
  apply bind_Ok in H. destruct H as (g & Hg & H).
  injection H as <-.
  rewrite flat_display_directions_rows in Hg by assumption.
  injection Hg as <-.
  do 4 eexists. unfold flat_display_grid. rewrite map_map.
  apply map_ext. intros i. rewrite map_map. reflexivity.
Qed.

(** *** [_dome_display_directions] *)

Lemma dome_inv (M : Libm F) (cfg : Config) mask avd :
  _dome_display_directions M cfg = Ok (mask, avd) ->
  let H := projector_pixel_height cfg in
  let W := projector_pixel_width cfg in
  exists focal pds,
    _calc_projector_focal_point (first_projector_image cfg)
      (second_projector_image cfg) = Ok focal /\
    projector_pixel_directions M cfg focal = Ok pds /\
    (0 <= H)%Z /\ (0 <= W)%Z /\
    for_each_pixel H W pds (projector_mask_at focal (mirror_radius cfg)) = Ok mask /\
    for_each_pixel H W pds
      (animal_view_direction focal (mirror_radius cfg)
         (dome_center cfg) (dome_radius cfg) (animal_position cfg)) = Ok avd.
Proof.
  intros E H W. unfold _dome_display_directions in E.
  apply bind_Ok in E. destruct E as (focal & Hf & E).
  apply bind_Ok in E. destruct E as (pds & Hp & E).
  apply bind_Ok in E. destruct E as ([] & Hz & E).
  apply bind_Ok in E. destruct E as (mask' & Hm & E).
  apply bind_Ok in E. destruct E as (avd' & Ha & E).
  injection E as <- <-.
  exists focal, pds. repeat split; try assumption.
  - unfold zeros_shape in Hz. fold H in Hz.
    destruct (Z.ltb_spec H 0); [discriminate | assumption].
  - unfold zeros_shape in Hz. fold W in Hz.
    destruct (Z.ltb_spec W 0); [now rewrite orb_true_r in Hz | assumption].
Qed.

(** With at least one row, every array of the method is the pixel
    directions mapped cell by cell. *)
Lemma dome_inv_rows (M : Libm F) (cfg : Config) mask avd :
  _dome_display_directions M cfg = Ok (mask, avd) ->
  (1 <= projector_pixel_height cfg)%Z ->
  exists focal pds,
    _calc_projector_focal_point (first_projector_image cfg)
      (second_projector_image cfg) = Ok focal /\
    projector_pixel_directions M cfg focal = Ok pds /\
    mask = map (map (projector_mask_at focal (mirror_radius cfg))) pds /\
    avd = map (map (animal_view_direction focal (mirror_radius cfg)
                      (dome_center cfg) (dome_radius cfg) (animal_position cfg))) pds.
Proof.
  intros E Hrows.
  destruct (dome_inv _ _ _ _ E) as (focal & pds & Hf & Hp & _ & _ & Hm & Ha).
  exists focal, pds. split; [assumption|]. split; [assumption|].
  destruct (projector_pixel_directions_rows _ _ _ _ Hp Hrows)
    as (sh & sw & d & off & ->).
  rewrite for_each_pixel_grid in Hm. rewrite for_each_pixel_grid in Ha.
  injection Hm as <-. injection Ha as <-. auto.
Qed.




(** The entry of the table at a pixel whose mask is not 1 is the empty list. *)
Lemma contributing_unmasked (cfg : Config) vts rv cv mask avd cp row col m :
  _calc_contributing_pixels cfg vts rv cv mask avd = Ok cp ->
  (0 <= row < projector_pixel_height cfg)%Z ->
  (0 <= col < projector_pixel_width cfg)%Z ->
  np_get2 mask row col = Ok m -> m <> 1%Z ->
  np_get2 cp row col = Ok [].
Proof.
  unfold _calc_contributing_pixels. intros H Hr Hc Hm Hne.
  repeat inv_bind H.
  destruct (mapM_grid _ _ _ _ _ _ H Hr Hc) as (l & Hl & El).
  rewrite Hm in El. simpl in El.
  destruct (Z.eqb_spec m 1); [contradiction|].
  injection El as <-. assumption.
Qed.

Lemma warp_pixel_nil `{!ArithLaws F} (pixels : list Image) :
  warp_pixel pixels [] = Ok (Vec3 0 0 0)%Z.
Proof. unfold warp_pixel, to_uint8. simpl. now rewrite trunc_zero. Qed.

(** Each output pixel of [warp_image_for_dome] is [warp_pixel] of the entry
    of the table, on the checked images. *)
Lemma warp_image_at (self : DomeProjection) images out row col :
  warp_image_for_dome self images = Ok out ->
  (0 <= row < projector_pixel_height (params self))%Z ->
  (0 <= col < projector_pixel_width (params self))%Z ->
  exists pixels l px,
    mapM (check_image self)
      (combine (range (Z.of_nat (List.length images))) images) = Ok pixels /\
    np_get2 (_contributing_pixels self) row col = Ok l /\
    warp_pixel pixels l = Ok px /\
    np_get2 out row col = Ok px.
Proof.
  unfold warp_image_for_dome. intros H Hr Hc.
  inv_bind H.
  destruct (mapM_grid _ _ _ _ _ _ H Hr Hc) as (px & Hpx & E).
  inv_bind E. inv_bind E.
  exists a, a1, px. repeat split; try assumption.
  unfold np_get2. now rewrite Ha0.
Qed.

End Pipeline.

(** C5: a projector pixel whose ray from the focal point misses the mirror
    sphere (negative mirror discriminant) has mask 0 and an empty
    contributing-pixel list, and [warp_image_for_dome] writes black
    (0, 0, 0) there.  The pixel value is computed by [warp_pixel] on the empty
    list, which answers black for every list of images, the empty one
    included: no source image is read. *)
Theorem missed_mirror_pixel_is_black
    {F : Type} {AR : Arith F} {L : ArithLaws F}
    (M : Libm F) (cfg : Config) (self : DomeProjection)
    (focal : vec3 F) (pds : list (list (vec3 F))) (row col : Z) (pd : vec3 F) :
  __init__ M cfg = Ok self ->
  _calc_projector_focal_point (first_projector_image cfg)
    (second_projector_image cfg) = Ok focal ->
  projector_pixel_directions M cfg focal = Ok pds ->
  (0 <= row < projector_pixel_height cfg)%Z ->
  (0 <= col < projector_pixel_width cfg)%Z ->
  np_get2 pds row col = Ok pd ->
  fltb (mirror_d_squared focal (mirror_radius cfg) pd) fzero = true ->
  np_get2 (_projector_mask self) row col = Ok 0%Z /\
  np_get2 (_contributing_pixels self) row col = Ok [] /\
  (forall pixels : list Image, warp_pixel pixels [] = Ok (Vec3 0 0 0)%Z) /\
  (forall images out,
      warp_image_for_dome self images = Ok out ->
      np_get2 out row col = Ok (Vec3 0 0 0)%Z).
Proof.
  intros Hinit Hfocal Hpds Hr Hc Hpd Hneg.
  destruct (init_inv _ _ _ Hinit) as (Hparams & Hdome & Hcp & _).
  assert (Hrows : (1 <= projector_pixel_height cfg)%Z) by lia.
  destruct (dome_inv_rows _ _ _ _ Hdome Hrows)
    as (focal' & pds' & Hf' & Hp' & Hmask & _).
  rewrite Hfocal in Hf'. injection Hf' as <-.
  rewrite Hpds in Hp'. injection Hp' as <-.
  assert (Hm : np_get2 (_projector_mask self) row col = Ok 0%Z).
  { rewrite Hmask, np_get2_map, Hpd. simpl. unfold projector_mask_at.
    now rewrite (ltb_not_leb _ _ Hneg). }
  assert (Hl : np_get2 (_contributing_pixels self) row col = Ok []).
  { eapply contributing_unmasked; eauto. discriminate. }
  repeat split; try assumption.
  - intros pixels. apply warp_pixel_nil.
  - intros images out Hw. rewrite <- Hparams in Hr, Hc.
    destruct (warp_image_at _ _ _ _ _ Hw Hr Hc) as (pixels & l & px & _ & Hl' & Hpx & Hout).
    rewrite Hl in Hl'. injection Hl' as <-.
    rewrite warp_pixel_nil in Hpx. injection Hpx as <-. assumption.
Qed.

Lemma missed_mirror_pixel_is_black_witness :
  exists self,
    __init__ FloatLibm0 (reference_config 4 4 0.215 0.603) = Ok self /\
    np_get2 (_projector_mask self) 0 0 = Ok 0%Z /\
    np_get2 (_contributing_pixels self) 0 0 = Ok [] /\
    (forall pixels : list Image, warp_pixel (F := float) pixels [] = Ok (Vec3 0 0 0)%Z) /\
    (forall images out,
        warp_image_for_dome self images = Ok out ->
        np_get2 out 0 0 = Ok (Vec3 0 0 0)%Z).
Proof.
  destruct (__init__ FloatLibm0 (reference_config 4 4 0.215 0.603)) as [self|e] eqn:E;
    [|vm_compute in E; discriminate].
  exists self. split; [reflexivity|].
  eapply (missed_mirror_pixel_is_black FloatLibm0 _ self _ _ 0 0 _ E).
  - vm_compute. reflexivity.
  - vm_compute. reflexivity.
  - simpl. lia.
  - simpl. lia.
  - vm_compute. reflexivity.
  - vm_compute. reflexivity.
Defined.

(** ** The nearest-pixel search *)

Section SearchProofs.
Context {F : Type} {AR : Arith F} {L : ArithLaws F}.
Variable self : DomeProjection (F := F).
Variable q : vec3 F.
Let H := projector_pixel_height (params self).
Let W := projector_pixel_width (params self).
Hypothesis shape : grid_shape H W (_animal_view_directions self).

Lemma np_get2_cell (rc : Z * Z) :
  in_grid self rc ->
  np_get2 (_animal_view_directions self) (fst rc) (snd rc) = Ok (cell self rc).
Proof.
  intros [Hr Hc]. fold H in Hr. fold W in Hc. destruct shape as [Hlen Hrows].
  unfold np_get2, cell.
  rewrite py_index_nonneg by lia.
  destruct (nth_error (_animal_view_directions self) (Z.to_nat (fst rc))) as [rw|] eqn:E.
  - simpl. rewrite (nth_error_nth _ _ _ E).
    assert (Hw : List.length rw = Z.to_nat W).
    { rewrite Forall_forall in Hrows. apply Hrows. eapply nth_error_In; eauto. }
    rewrite py_index_nonneg by lia.
    destruct (nth_error rw (Z.to_nat (snd rc))) as [v|] eqn:E2.
    + now rewrite (nth_error_nth _ _ _ E2).
    + apply nth_error_None in E2. lia.
  - apply nth_error_None in E. lia.
Qed.

Lemma neighbors_in_grid (r c : Z) (n : Z * Z) :
  In n (neighbors_of self r c) -> in_grid self n.
Proof.
  unfold neighbors_of, in_grid. intros Hin.
  apply in_flat_map in Hin. destruct Hin as ([dr dc] & _ & Hin).
  destruct (_ && _)%bool eqn:E1 in Hin; [|contradiction].
  destruct (_ && _)%bool eqn:E2 in Hin; [|contradiction].
  destruct Hin as [<- | []]. simpl. lia.
Qed.

Lemma neighbors_nonempty (rc : Z * Z) :
  in_grid self rc -> (2 <= H \/ 2 <= W)%Z ->
  neighbors_of self (fst rc) (snd rc) <> [].
Proof.
  intros [Hr Hc] Hbig. fold H in Hr. fold W in Hc.
  assert (Hex : exists d, In d offsets /\
            (0 <= fst rc + fst d < H /\ 0 <= snd rc + snd d < W)%Z).
  { unfold offsets. simpl.
    destruct Hbig as [Hb | Hb].
    - destruct (Z.eq_dec (fst rc) 0).
      + exists (1, 0)%Z. simpl. split; [tauto | lia].
      + exists (-1, 0)%Z. simpl. split; [tauto | lia].
    - destruct (Z.eq_dec (snd rc) 0).
      + exists (0, 1)%Z. simpl. split; [tauto | lia].
      + exists (0, -1)%Z. simpl. split; [tauto | lia]. }
  destruct Hex as ([dr dc] & Hd & Hin). simpl in Hin.
  intros Hnil.
  assert (Hmem : In ((fst rc + dr)%Z, (snd rc + dc)%Z) (neighbors_of self (fst rc) (snd rc))).
  { unfold neighbors_of. apply in_flat_map. exists (dr, dc). split; [assumption|].
    fold H. fold W.
    destruct (Z.leb_spec 0 (fst rc + dr)); [|lia].
    destruct (Z.ltb_spec (fst rc + dr) H); [|lia].
    destruct (Z.leb_spec 0 (snd rc + dc)); [|lia].
    destruct (Z.ltb_spec (snd rc + dc) W); [|lia].
    simpl. now left. }
  rewrite Hnil in Hmem. contradiction.
Qed.

Lemma calc_neighbor_dot_products_eq (r c : Z) :
  _calc_neighbor_dot_products self r c q
  = Ok (map (dp_at self q) (neighbors_of self r c), neighbors_of self r c).
Proof.
  unfold _calc_neighbor_dot_products.
  rewrite (mapM_total _ (dp_at self q)); [reflexivity|].
  intros n Hn. rewrite np_get2_cell by (eapply neighbors_in_grid; eauto).
  reflexivity.
Qed.


(** *** Python's [max] and [list.index] *)

Lemma fold_max_in (l : list F) (acc : F) :
  fold_left py_max2 l acc = acc \/ In (fold_left py_max2 l acc) l.
Proof.
  revert acc. induction l as [|y l IH]; simpl; intros acc; [now left|].
  destruct (IH (py_max2 acc y)) as [E | Hin]; [|now right; right].
  rewrite E. unfold py_max2. destruct (fltb acc y); [right; now left | now left].
Qed.

Lemma py_max_in (l : list F) (m : F) : py_max l = Ok m -> In m l.
Proof.
  destruct l as [|x l]; simpl; [discriminate|]. intros E. injection E as <-.
  destruct (fold_max_in l x) as [-> | Hin]; [now left | now right].
Qed.

Lemma fold_max_upper (l : list F) (acc : F) :
  number acc -> Forall number l ->
  fltb (fold_left py_max2 l acc) acc = false /\
  forall x, In x l -> fltb (fold_left py_max2 l acc) x = false.
Proof.
  revert acc. induction l as [|y l IH]; simpl; intros acc Hacc Hl.
  - split; [apply ltb_irrefl | contradiction].
  - inversion Hl as [|? ? Hy Hl']; subst.
    assert (Hacc' : number (py_max2 acc y)).
    { unfold py_max2. now destruct (fltb acc y). }
    destruct (IH _ Hacc' Hl') as [Hm Hx].
    set (m := fold_left py_max2 l (py_max2 acc y)) in *.
    unfold py_max2 in Hm. destruct (fltb acc y) eqn:E.
    + split.
      * destruct (fltb m acc) eqn:E'; [|reflexivity].
        rewrite (ltb_trans _ _ _ E' E) in Hm. discriminate.
      * intros x [<- | Hin]; [assumption | now apply Hx].
    + split; [assumption|].
      intros x [<- | Hin]; [|now apply Hx].
      destruct (fltb m y) eqn:E'; [|reflexivity].
      destruct (ltb_total _ acc _ Hacc E') as [C | C]; congruence.
Qed.

Lemma py_max_upper (l : list F) (m : F) :
  Forall number l -> py_max l = Ok m -> forall x, In x l -> fltb m x = false.
Proof.
  destruct l as [|a l]; simpl; [discriminate|]. intros Hl E. injection E as <-.
  inversion Hl; subst.
  destruct (fold_max_upper l a) as [Ha Hx]; try assumption.
  intros x [<- | Hin]; [assumption | now apply Hx].
Qed.

Lemma py_list_index_spec (l : list F) (m : F) :
  (exists x, In x l /\ feqb x m = true) ->
  exists k e, py_list_index l m = Ok (Z.of_nat k) /\
              nth_error l k = Some e /\ feqb e m = true.
Proof.
  induction l as [|y l IH]; intros (x & Hin & Hx); [contradiction|].
  simpl. destruct (feqb y m) eqn:E.
  - exists 0%nat, y. auto.
  - destruct Hin as [-> | Hin]; [congruence|].
    destruct IH as (k & e & Hk & He & Hem); [eauto|].
    exists (S k), e. rewrite Hk. simpl. repeat split; try assumption.
    f_equal. lia.
Qed.

(** *** One move of the hill climb *)

Lemma dp_of_ltb_l (rc : Z * Z) (dp x : F) :
  dp_of self q rc dp -> fltb dp x = fltb (dp_at self q rc) x.
Proof. intros [-> | E]; [reflexivity | symmetry; now apply eqb_ltb_l]. Qed.

Lemma dp_of_ltb_r (rc : Z * Z) (dp x : F) :
  dp_of self q rc dp -> fltb x dp = fltb x (dp_at self q rc).
Proof. intros [-> | E]; [reflexivity | symmetry; now apply eqb_ltb_r]. Qed.

Lemma climb_step_stop (dp : F) (l : list F) (ns : list (Z * Z)) (m : F) :
  py_max l = Ok m -> fltb dp m = false -> climb_step self q dp l ns = Ok None.
Proof. unfold climb_step. intros -> E. simpl. now rewrite E. Qed.

Lemma climb_step_move (rc : Z * Z) (dp m : F) :
  in_grid self rc ->
  py_max (map (dp_at self q) (neighbors_of self (fst rc) (snd rc))) = Ok m ->
  fltb dp m = true ->
  exists rc',
    climb_step self q dp
      (map (dp_at self q) (neighbors_of self (fst rc) (snd rc)))
      (neighbors_of self (fst rc) (snd rc))
    = Ok (Some (m, rc', (map (dp_at self q) (neighbors_of self (fst rc') (snd rc')),
                         neighbors_of self (fst rc') (snd rc')))) /\
    In rc' (neighbors_of self (fst rc) (snd rc)) /\
    dp_of self q rc' m.
Proof.
  intros Hrc Hmax Hlt.
  set (ns := neighbors_of self (fst rc) (snd rc)) in *.
  destruct (py_list_index_spec (map (dp_at self q) ns) m) as (k & e & Hk & He & Hem).
  { exists m. split; [now apply py_max_in | eapply ltb_number; eauto]. }
  rewrite nth_error_map in He.
  destruct (nth_error ns k) as [rc'|] eqn:Ek; [|discriminate].
  simpl in He. injection He as <-.
  exists rc'. unfold climb_step. rewrite Hmax. simpl. rewrite Hlt, Hk. simpl.
  rewrite py_index_nonneg by lia. rewrite Nat2Z.id, Ek. simpl.
  rewrite calc_neighbor_dot_products_eq. simpl.
  repeat split.
  - eapply nth_error_In; eauto.
  - now right.
Qed.

(** *** Termination: the number of pixels strictly above [dp] decreases *)

Lemma in_pixels (rc : Z * Z) : In rc (pixels self) <-> in_grid self rc.
Proof.
  destruct rc as [r c]. unfold pixels. rewrite in_prod_iff, !in_range. reflexivity.
Qed.

Lemma above_decreases (dp : F) (rc' : Z * Z) (m : F) :
  in_grid self rc' -> dp_of self q rc' m -> fltb dp m = true ->
  (above self q m < above self q dp)%nat.
Proof.
  intros Hrc Hm Hlt. unfold above.
  apply filter_length_lt with (a := rc').
  - intros p Hp. eapply ltb_trans; eauto.
  - now apply in_pixels.
  - now rewrite <- (dp_of_ltb_r _ _ _ Hm).
  - rewrite (dp_of_ltb_l _ _ _ Hm). apply ltb_irrefl.
Qed.

Lemma above_zero (dp m : F) (rc : Z * Z) :
  above self q dp = 0%nat -> in_grid self rc -> m = dp_at self q rc -> fltb dp m = false.
Proof.
  unfold above. intros Hz Hrc ->.
  destruct (fltb dp (dp_at self q rc)) eqn:E; [|reflexivity].
  assert (Hin : In rc (filter (fun p => fltb dp (dp_at self q p)) (pixels self))).
  { apply filter_In. split; [now apply in_pixels | assumption]. }
  destruct (filter _ (pixels self)); [contradiction | discriminate].
Qed.

Lemma climb_terminates (big : (2 <= H \/ 2 <= W)%Z) (fuel : nat) :
  forall (dp : F) (rc : Z * Z),
    in_grid self rc -> dp_of self q rc dp -> (above self q dp <= fuel)%nat ->
    exists rc',
      climb fuel self q dp rc
        (map (dp_at self q) (neighbors_of self (fst rc) (snd rc)))
        (neighbors_of self (fst rc) (snd rc)) = Some (Ok rc') /\
      in_grid self rc' /\ stopped self q rc'.
Proof.
  induction fuel as [|fuel IH]; intros dp rc Hrc Hdp Hfuel.
  - destruct (py_max (map (dp_at self q) (neighbors_of self (fst rc) (snd rc))))
      as [m|e] eqn:Emax.
    + assert (Hm : fltb dp m = false).
      { apply py_max_in in Emax. apply in_map_iff in Emax.
        destruct Emax as (n & <- & Hn).
        eapply above_zero; [lia | eapply neighbors_in_grid; eauto | reflexivity]. }
      exists rc. simpl. rewrite (climb_step_stop _ _ _ _ Emax Hm).
      repeat split; try apply Hrc. exists dp, m. auto.
    + exfalso. pose proof (neighbors_nonempty rc Hrc big) as Hne.
      destruct (neighbors_of self (fst rc) (snd rc)); [congruence | discriminate].
  - destruct (py_max (map (dp_at self q) (neighbors_of self (fst rc) (snd rc))))
      as [m|e] eqn:Emax.
    + destruct (fltb dp m) eqn:Hm.
      * destruct (climb_step_move rc dp m Hrc Emax Hm) as (rc' & Estep & Hin & Hdp').
        assert (Hrc' : in_grid self rc') by (eapply neighbors_in_grid; eauto).
        pose proof (above_decreases dp rc' m Hrc' Hdp' Hm) as Hdec.
        destruct (IH m rc' Hrc' Hdp') as (rc'' & Eclimb & Hg & Hs); [lia|].
        exists rc''. simpl. rewrite Estep. auto.
      * exists rc. simpl. rewrite (climb_step_stop _ _ _ _ Emax Hm).
        repeat split; try apply Hrc. exists dp, m. auto.
    + exfalso. pose proof (neighbors_nonempty rc Hrc big) as Hne.
      destruct (neighbors_of self (fst rc) (snd rc)); [congruence | discriminate].
Qed.

Lemma above_bound (dp : F) : (above self q dp <= Z.to_nat (H * W))%nat.
Proof.
  unfold above. etransitivity; [apply filter_length_le|].
  unfold pixels. rewrite length_prod, !range_length.
  destruct (Z.le_gt_cases 0 H), (Z.le_gt_cases 0 W); nia.
Qed.

Lemma stopped_local_max (rc : Z * Z) :
  in_grid self rc -> stopped self q rc ->
  (forall p, in_grid self p -> number (dp_at self q p)) ->
  forall n, In n (neighbors_of self (fst rc) (snd rc)) ->
            fltb (dp_at self q rc) (dp_at self q n) = false.
Proof.
  intros Hrc (dp & m & Hdp & Emax & Hm) Hnum n Hn.
  rewrite (dp_of_ltb_l _ _ _ Hdp) in Hm.
  assert (Hall : Forall number (map (dp_at self q) (neighbors_of self (fst rc) (snd rc)))).
  { apply Forall_forall. intros x Hx. apply in_map_iff in Hx.
    destruct Hx as (p & <- & Hp). apply Hnum. eapply neighbors_in_grid; eauto. }
  assert (Hmn : number m).
  { rewrite Forall_forall in Hall. apply Hall. now apply py_max_in. }
  pose proof (py_max_upper _ _ Hall Emax (dp_at self q n) (in_map _ _ _ Hn)) as Hup.
  destruct (fltb (dp_at self q rc) (dp_at self q n)) eqn:E; [|reflexivity].
  destruct (ltb_total _ m _ Hmn E); congruence.
Qed.

(** The neighbors are the pixels of the grid one step away along a row, a
    column or a diagonal. *)
Lemma neighbors_of_adjacent (r c : Z) (n : Z * Z) :
  In n (neighbors_of self r c) <->
  in_grid self n /\ n <> (r, c) /\
  (Z.abs (fst n - r) <= 1)%Z /\ (Z.abs (snd n - c) <= 1)%Z.
Proof.
  destruct n as [nr nc]. unfold neighbors_of, in_grid.
  rewrite in_flat_map. simpl. split.
  - intros ([dr dc] & Hoff & Hin).
    destruct (_ && _)%bool eqn:E1 in Hin; [|contradiction].
    destruct (_ && _)%bool eqn:E2 in Hin; [|contradiction].
    destruct Hin as [E | []]. injection E as <- <-.
    apply andb_prop in E1, E2. destruct E1 as [A1 A2], E2 as [B1 B2].
    apply Z.leb_le in A1, B1. apply Z.ltb_lt in A2, B2.
    unfold offsets in Hoff. simpl in Hoff.
    repeat (destruct Hoff as [Hoff | Hoff];
            [injection Hoff as <- <-;
             repeat split; try lia; intros E; injection E; lia|]).
    contradiction.
  - intros ((Hr & Hc) & Hne & Ar & Ac).
    exists ((nr - r)%Z, (nc - c)%Z). split.
    + assert (Hd : (nr - r = -1 \/ nr - r = 0 \/ nr - r = 1)%Z) by lia.
      assert (He : (nc - c = -1 \/ nc - c = 0 \/ nc - c = 1)%Z) by lia.
      assert (Hz : ~ (nr - r = 0 /\ nc - c = 0)%Z).
      { intros [A B]. apply Hne. f_equal; lia. }
      unfold offsets. simpl.
      destruct Hd as [Ed | [Ed | Ed]], He as [Ee | [Ee | Ee]];
        first [exfalso; apply Hz; split; assumption
              | rewrite Ed, Ee; repeat (first [left; reflexivity | right])].
    + replace (r + (nr - r))%Z with nr by lia.
      replace (c + (nc - c))%Z with nc by lia.
      destruct (Z.leb_spec 0 nr); [|lia].
      destruct (Z.ltb_spec nr (projector_pixel_height (params self))); [|lia].
      destruct (Z.leb_spec 0 nc); [|lia].
      destruct (Z.ltb_spec nc (projector_pixel_width (params self))); [|lia].
      simpl. now left.
Qed.

End SearchProofs.

(** C9: the restart path.  When the saved pixel is masked out, and whatever
    the other pixels are (one of them is valid), the loop body runs once and
    its first statement, [randint(self._projector_pixel_height)], calls
    [random.randint] with one argument instead of two bounds: the search
    raises [TypeError] before it has picked a pixel. *)
Theorem restart_from_random_pixel_raises_TypeError
    {F : Type} {AR : Arith F}
    (self : DomeProjection (F := F)) (rnd : list Z) (row col : Z) (q : vec3 F)
    (fuel : nat) (r1 c1 : Z) :
  np_get2 (_camera_view_directions self) row col = Ok q ->
  (* the saved pixel has mask = false *)
  np_get2 (_projector_mask self)
    (_projector_pixel_row self) (_projector_pixel_col self) = Ok 0%Z ->
  (* at least one projector pixel has mask = true *)
  np_get2 (_projector_mask self) r1 c1 = Ok 1%Z ->
  _find_closest_projector_pixel (S fuel) self rnd row col = Some (Raise TypeError).
Proof.
  intros Hq Hmask _. unfold _find_closest_projector_pixel. rewrite Hq.
  simpl. rewrite Hmask. reflexivity.
Qed.

Lemma restart_from_random_pixel_raises_TypeError_witness :
  exists self,
    __init__ FloatLibm0 lowered_beam_config = Ok self /\
    _projector_pixel_row self = 3%Z /\ _projector_pixel_col self = 2%Z /\
    np_get2 (_projector_mask self) 3 2 = Ok 0%Z /\
    np_get2 (_projector_mask self) 0 1 = Ok 1%Z /\
    _find_closest_projector_pixel 16 self [7; 11]%Z 0 0 = Some (Raise TypeError).
Proof.
  destruct (__init__ FloatLibm0 lowered_beam_config) as [self|e] eqn:E;
    [|vm_compute in E; discriminate].
  assert (Hs := E). vm_compute in Hs. injection Hs as Hs.
  exists self. split; [reflexivity|].
  assert (Hrow : _projector_pixel_row self = 3%Z) by (subst self; reflexivity).
  assert (Hcol : _projector_pixel_col self = 2%Z) by (subst self; reflexivity).
  assert (Hmask : np_get2 (_projector_mask self) 3 2 = Ok 0%Z)
    by (subst self; vm_compute; reflexivity).
  assert (Hone : np_get2 (_projector_mask self) 0 1 = Ok 1%Z)
    by (subst self; vm_compute; reflexivity).
  split; [exact Hrow|]. split; [exact Hcol|].
  split; [exact Hmask|]. split; [exact Hone|].
  eapply (restart_from_random_pixel_raises_TypeError self [7; 11]%Z 0 0 _ 15 0 1).
  - subst self. vm_compute. reflexivity.
  - rewrite Hrow, Hcol. exact Hmask.
  - exact Hone.
Defined.

(** ** Exact arithmetic: the geometry *)

Section RealGeometry.
Local Open Scope R_scope.

Lemma Rltb_spec (x y : R) : reflect (x < y) (Rltb x y).
Proof. unfold Rltb. destruct (Rlt_dec x y); constructor; assumption. Qed.

Lemma Rleb_spec (x y : R) : reflect (x <= y) (Rleb x y).
Proof. unfold Rleb. destruct (Rle_dec x y); constructor; assumption. Qed.

Lemma Reqb_spec (x y : R) : reflect (x = y) (Reqb x y).
Proof. unfold Reqb. destruct (Req_dec_T x y); constructor; assumption. Qed.

(** The smaller root of [a r^2 + b r + c] with [a > 0]. *)
Lemma least_root (a b c : R) :
  0 < a -> 0 <= b * b - 4 * a * c ->
  let s := R_sqrt.sqrt (b * b - 4 * a * c) in
  let r := (- b - s) / (2 * a) in
  a * r * r + b * r + c = 0 /\
  (forall r', a * r' * r' + b * r' + c = 0 -> r <= r') /\
  (0 < c -> b < 0 -> 0 < r) /\
  r <= (- b + s) / (2 * a).
Proof.
  intros Ha HD s r.
  assert (Hs : 0 <= s) by apply R_sqrt.sqrt_pos.
  assert (Hss : s * s = b * b - 4 * a * c) by (apply R_sqrt.sqrt_sqrt; assumption).
  assert (Hr : 2 * a * r = - b - s) by (unfold r; field; lra).
  repeat split.
  - assert (E : 4 * a * (a * r * r + b * r + c) = 0).
    { replace (4 * a * (a * r * r + b * r + c))
        with ((2 * a * r) * (2 * a * r) + 2 * b * (2 * a * r) + 4 * a * c) by ring.
      rewrite Hr. nra. }
    nra.
  - intros r' E.
    assert (Hq : (2 * a * r' + b) * (2 * a * r' + b) = s * s) by nra.
    assert (Hge : - s <= 2 * a * r' + b) by nra.
    assert (2 * a * r <= 2 * a * r') by lra.
    nra.
  - intros Hc Hb.
    assert (s < - b) by nra.
    assert (0 < 2 * a * r) by lra.
    nra.
  - unfold r. apply Rmult_le_compat_r; [|lra].
    apply Rlt_le, Rinv_0_lt_compat. lra.
Qed.

Lemma mirror_r_real (p : vec3 R) (mr : R) (pd : vec3 R) :
  0 < mirror_a pd -> 0 <= mirror_d_squared p mr pd ->
  mirror_r p mr pd
  = (- mirror_b p pd - R_sqrt.sqrt (mirror_b p pd * mirror_b p pd
                             - 4 * mirror_a pd * mirror_c p mr))
    / (2 * mirror_a pd).
Proof.
  intros Ha HD.
  destruct (least_root (mirror_a pd) (mirror_b p pd) (mirror_c p mr) Ha HD)
    as (_ & _ & _ & Hle).
  unfold mirror_r, py_min2.
  change (mirror_root_minus p mr pd)
    with ((- mirror_b p pd - R_sqrt.sqrt (mirror_b p pd * mirror_b p pd
                                          - 4 * mirror_a pd * mirror_c p mr))
          / (2 * mirror_a pd)) in *.
  change (mirror_root_plus p mr pd)
    with ((- mirror_b p pd + R_sqrt.sqrt (mirror_b p pd * mirror_b p pd
                                          - 4 * mirror_a pd * mirror_c p mr))
          / (2 * mirror_a pd)) in *.
  cbv zeta in Hle.
  match goal with
  | |- (if fltb ?x ?y then _ else _) = _ =>
      change (fltb x y) with (Rltb x y); destruct (Rltb_spec x y)
  end.
  - reflexivity.
  - lra.
Qed.


(** C1, amended: for a pixel whose mirror quadratic has a nonnegative
    discriminant, the scalar [r] the code picks is the smaller of the two
    roots: the point [p + r d] lies on the mirror sphere and no other
    intersection parameter is smaller.  When the focal point is outside the
    mirror and the ray heads towards it, both roots are positive and [r] is
    the nearest intersection ahead of the focal point.  (Exact arithmetic.) *)
Theorem mirror_r_is_least_root (p : vec3 R) (mr : R) (pd : vec3 R) :
  (0 < mirror_a pd)%R ->
  (0 <= mirror_d_squared p mr pd)%R ->
  let r := mirror_r p mr pd in
  (* the chosen point lies on the mirror sphere *)
  dot (vadd p (vscale r pd)) (vadd p (vscale r pd)) = sq mr /\
  (* no other intersection parameter is smaller *)
  (forall r' : R,
      dot (vadd p (vscale r' pd)) (vadd p (vscale r' pd)) = sq mr -> (r <= r')%R) /\
  (* with the focal point outside the mirror and the ray heading towards it,
     both roots are positive and [r] is the nearest intersection ahead *)
  ((sq mr < dot p p)%R -> (dot p pd < 0)%R -> (0 < r)%R).
Proof.
  intros Ha HD r.
  assert (Er : r = mirror_r p mr pd) by reflexivity.
  rewrite (mirror_r_real p mr pd Ha HD) in Er.
  destruct (least_root (mirror_a pd) (mirror_b p pd) (mirror_c p mr) Ha HD)
    as (Hroot & Hmin & Hpos & _).
  cbv zeta in Hroot, Hmin, Hpos. rewrite <- Er in Hroot, Hmin, Hpos.
  assert (Hsphere : forall t : R,
    (dot (vadd p (vscale t pd)) (vadd p (vscale t pd)) - sq mr
     = mirror_a pd * t * t + mirror_b p pd * t + mirror_c p mr)%R).
  { intros t. unfold dot, vadd, vscale, sq, mirror_a, mirror_b, mirror_c, sq, two.
    simpl. ring. }
  repeat split.
  - pose proof (Hsphere r). lra.
  - intros r' E. apply Hmin. pose proof (Hsphere r'). lra.
  - intros Hout Hdir. apply Hpos.
    + unfold mirror_c, sq, dot in *. simpl in *. lra.
    + unfold mirror_b, two, dot in *. simpl in *. lra.
Qed.

Lemma mirror_r_is_least_root_witness :
  0 < mirror_r (Vec3 0 2 0) 1 (Vec3 0 (-1) 0).
Proof.
  apply (mirror_r_is_least_root (Vec3 0 2 0) 1 (Vec3 0 (-1) 0));
    unfold mirror_a, mirror_d_squared, mirror_b, mirror_c, sq, dot, two, four;
    simpl; lra.
Defined.

(** ** Unit norm in exact arithmetic *)

Lemma vec3_eq_zero (w : vec3 R) :
  vx w * vx w + vy w * vy w + vz w * vz w = 0 -> w = vzero.
Proof.
  destruct w as [x y z]. simpl. intros E.
  assert (x = 0) by nra. assert (y = 0) by nra. assert (z = 0) by nra.
  subst. reflexivity.
Qed.

Lemma norm_normalized (w : vec3 R) : w <> vzero -> norm (vdiv w (norm w)) = 1.
Proof.
  intros Hw. unfold norm, vdiv, sq. simpl.
  set (n2 := vx w * vx w + vy w * vy w + vz w * vz w).
  assert (Hpos : 0 < n2).
  { destruct (Rle_lt_dec n2 0) as [Hle | Hlt]; [|assumption].
    exfalso. apply Hw, vec3_eq_zero. fold n2.
    pose proof (Rle_0_sqr (vx w)). pose proof (Rle_0_sqr (vy w)).
    pose proof (Rle_0_sqr (vz w)). unfold Rsqr in *. unfold n2 in *. lra. }
  assert (Hn : 0 < R_sqrt.sqrt n2) by (apply R_sqrt.sqrt_lt_R0; assumption).
  assert (Hnn : R_sqrt.sqrt n2 * R_sqrt.sqrt n2 = n2)
    by (apply R_sqrt.sqrt_sqrt; lra).
  set (n := R_sqrt.sqrt n2) in *.
  replace (vx w / n * (vx w / n) + vy w / n * (vy w / n) + vz w / n * (vz w / n))
    with (n2 / (n * n)) by (unfold n2; field; lra).
  rewrite Hnn. replace (n2 / n2) with 1 by (field; lra).
  apply R_sqrt.sqrt_1.
Qed.



(** ** [numpy.linalg.solve] in exact arithmetic *)

Lemma fabs_real (x : R) : fabs x = Rabs x.
Proof.
  unfold fabs. change (fltb x fzero) with (Rltb x 0).
  destruct (Rltb_spec x 0) as [Hlt | Hge]; simpl.
  - now rewrite Rabs_left.
  - rewrite Rabs_right; [reflexivity | lra].
Qed.

(** [linalg_solve2] solves a regular system. *)
Lemma linalg_solve2_regular (a00 a01 a10 a11 b0 b1 : R) :
  a00 * a11 - a01 * a10 <> 0 ->
  exists x0 x1,
    linalg_solve2 a00 a01 a10 a11 b0 b1 = Ok (x0, x1) /\
    a00 * x0 + a01 * x1 = b0 /\ a10 * x0 + a11 * x1 = b1.
Proof.
  intros Hdet. unfold linalg_solve2. rewrite !fabs_real.
  change (fltb (Rabs a00) (Rabs a10)) with (Rltb (Rabs a00) (Rabs a10)).
  destruct (Rltb_spec (Rabs a00) (Rabs a10)) as [Hlt | Hge].
  - assert (Hp : a10 <> 0).
    { intros ->. rewrite Rabs_R0 in Hlt. pose proof (Rabs_pos a00). lra. }
    change (feqb a10 fzero) with (Reqb a10 0).
    destruct (Reqb_spec a10 0) as [E | _]; [contradiction|].
    cbv zeta.
    change (feqb (fsub a01 (fmul (fmul a00 (fdiv fone a10)) a11)) fzero)
      with (Reqb (a01 - a00 * (1 / a10) * a11) 0).
    destruct (Reqb_spec (a01 - a00 * (1 / a10) * a11) 0) as [E | Hu].
    { exfalso. apply Hdet.
      assert (E' : (a01 - a00 * (1 / a10) * a11) * a10 = 0) by (rewrite E; ring).
      field_simplify in E'; [|assumption]. lra. }
    eexists. eexists. split; [reflexivity|]. simpl. split; field; (split; [assumption | lra]).
  - assert (Hp : a00 <> 0).
    { intros ->. rewrite Rabs_R0 in Hge.
      assert (a10 = 0).
      { destruct (Req_dec a10 0) as [E | N]; [assumption|].
        pose proof (Rabs_pos_lt a10 N). lra. }
      subst. apply Hdet. ring. }
    change (feqb a00 fzero) with (Reqb a00 0).
    destruct (Reqb_spec a00 0) as [E | _]; [contradiction|].
    cbv zeta.
    change (feqb (fsub a11 (fmul (fmul a10 (fdiv fone a00)) a01)) fzero)
      with (Reqb (a11 - a10 * (1 / a00) * a01) 0).
    destruct (Reqb_spec (a11 - a10 * (1 / a00) * a01) 0) as [E | Hu].
    { exfalso. apply Hdet.
      assert (E' : (a11 - a10 * (1 / a00) * a01) * a00 = 0) by (rewrite E; ring).
      field_simplify in E'; [|assumption]. lra. }
    eexists. eexists. split; [reflexivity|]. simpl.
    split; field; (split; [assumption | lra]).
Qed.

End RealGeometry.

Lemma py_index_In {A : Type} (l : list A) (i : Z) (a : A) :
  py_index l i = Ok a -> In a l.
Proof.
  unfold py_index. destruct (_ && _)%bool; [|discriminate].
  destruct (nth_error l _) eqn:E; [|discriminate].
  intros H. injection H as <-. eapply nth_error_In; eauto.
Qed.

Lemma np_get2_In {A : Type} (g : list (list A)) (r c : Z) (a : A) :
  np_get2 g r c = Ok a -> exists row, In row g /\ In a row.
Proof.
  unfold np_get2. intros H. inv_bind H.
  exists a0. split; eapply py_index_In; eauto.
Qed.



Section UnitNorm.
Local Open Scope R_scope.



End UnitNorm.



(** ** The contributing-pixel table *)

Section TableEntries.
Context {F : Type} {AR : Arith F} {L : ArithLaws F}.

Lemma nearest_screen_spec (direction : vec3 F) (dts : list (vec3 F))
    (screens : list Z) (screen0 : Z) (best0 : F) (screen : Z) (best : F) :
  nearest_screen direction dts screens screen0 best0 = Ok (screen, best) ->
  (screen = screen0 /\ best = best0) \/ In screen screens.
Proof.
  revert screen0 best0. induction screens as [|i screens IH]; simpl; intros s0 b0 H.
  - injection H as <- <-. now left.
  - inv_bind H. destruct (fltb b0 (dot direction a)).
    + destruct (IH _ _ H) as [[-> ->] | Hin]; right; [now left | now right].
    + destruct (IH _ _ H) as [[-> ->] | Hin]; [now left | right; now right].
Qed.

Lemma contributing_pixels_at_inside (cfg : Config)
    row_center col_center row_spacing col_spacing vts dist dts rv cv direction l :
  contributing_pixels_at (image_pixel_height cfg) (image_pixel_width cfg)
    row_center col_center row_spacing col_spacing vts dist dts rv cv
    (range (Z.of_nat (List.length (distance_to_screen cfg)))) direction = Ok l ->
  (List.length l <= 1)%nat /\ Forall (entry_inside cfg) l.
Proof.
  unfold contributing_pixels_at. intros H.
  inv_bind H. destruct a as [screen best].
  destruct (fltb fzero best) eqn:Ebest;
    [|injection H as <-; split; [simpl; lia | constructor]].
  assert (Hscreen : In screen (range (Z.of_nat (List.length (distance_to_screen cfg))))).
  { destruct (nearest_screen_spec _ _ _ _ _ _ _ Ha) as [[_ ->] | Hin]; [|assumption].
    rewrite ltb_irrefl in Ebest. discriminate. }
  apply in_range in Hscreen.
  repeat inv_bind H.
  match type of H with context [fleb fzero ?r] =>
    destruct (fleb fzero r) eqn:E1; simpl in H;
      [|injection H as <-; split; [simpl; lia | constructor]] end.
  inv_bind H.
  match type of H with context [fltb ?r (of_Z ?h)] =>
    destruct (fltb r (of_Z h)) eqn:E2; simpl in H;
      [|injection H as <-; split; [simpl; lia | constructor]] end.
  match type of H with context [fleb fzero ?c] =>
    destruct (fleb fzero c) eqn:E3; simpl in H;
      [|injection H as <-; split; [simpl; lia | constructor]] end.
  inv_bind H.
  match type of H with context [fltb ?c (of_Z ?w)] =>
    destruct (fltb c (of_Z w)) eqn:E4; simpl in H;
      [|injection H as <-; split; [simpl; lia | constructor]] end.
  injection H as <-. split; [simpl; lia|].
  constructor; [|constructor].
  unfold entry_inside. split; [assumption|]. eauto 10.
Qed.

Lemma contributing_pixels_inside (cfg : Config) vts rv cv mask avd cp row col :
  _calc_contributing_pixels cfg vts rv cv mask avd = Ok cp ->
  (0 <= row < projector_pixel_height cfg)%Z ->
  (0 <= col < projector_pixel_width cfg)%Z ->
  exists l, np_get2 cp row col = Ok l /\
            (List.length l <= 1)%nat /\ Forall (entry_inside cfg) l.
Proof.
  unfold _calc_contributing_pixels. intros H Hr Hc.
  repeat inv_bind H.
  destruct (mapM_grid _ _ _ _ _ _ H Hr Hc) as (l & Hl & El).
  exists l. split; [assumption|].
  inv_bind El. destruct (a4 =? 1)%Z.
  - inv_bind El. eapply contributing_pixels_at_inside; eauto.
  - injection El as <-. split; [simpl; lia | constructor].
Qed.

Lemma contributing_table_inside (cfg : Config) vts rv cv mask avd cp :
  _calc_contributing_pixels cfg vts rv cv mask avd = Ok cp ->
  Forall (Forall (Forall (entry_inside cfg))) cp.
Proof.
  unfold _calc_contributing_pixels. intros H.
  repeat inv_bind H.
  eapply mapM_Forall; [exact H|]. intros row cells _ Hcells. simpl in Hcells.
  eapply mapM_Forall; [exact Hcells|]. intros col l _ El. simpl in El.
  inv_bind El. destruct (a4 =? 1)%Z.
  - inv_bind El. eapply contributing_pixels_at_inside; eauto.
  - injection El as <-. constructor.
Qed.

End TableEntries.

(** ** Warping images of one colour, in exact arithmetic *)

Lemma combine_seq_In {A : Type} (l : list A) (s n : nat) (i : Z) (a : A) :
  In (i, a) (combine (map Z.of_nat (seq s n)) l) ->
  exists k, i = Z.of_nat (s + k) /\ nth_error l k = Some a.
Proof.
  revert s l. induction n as [|n IH]; simpl; intros s l Hin; [contradiction|].
  destruct l as [|x l]; [contradiction|].
  destruct Hin as [E | Hin].
  - injection E as <- <-. exists 0%nat. split; [f_equal; lia | reflexivity].
  - destruct (IH _ _ Hin) as (k & -> & Hk).
    exists (S k). split; [f_equal; lia | assumption].
Qed.

Lemma map_snd_combine_range {A : Type} (l : list A) :
  map snd (combine (range (Z.of_nat (List.length l))) l) = l.
Proof.
  unfold range. rewrite Nat2Z.id. generalize 0%nat.
  induction l as [|x l IH]; simpl; intros s; [reflexivity|].
  now rewrite IH.
Qed.

Lemma mapM_exists {A B : Type} (f : A -> result B) (l : list A) :
  (forall a, In a l -> exists b, f a = Ok b) -> exists out, mapM f l = Ok out.
Proof.
  induction l as [|a l IH]; simpl; intros Hf; [eauto|].
  destruct (Hf a) as (b & ->); [now left|].
  destruct IH as (bs & ->); [intros; apply Hf; now right|].
  simpl. eauto.
Qed.

Section ConstantImages.
Context {F : Type} {AR : Arith F} {L : ArithLaws F}.
Variable cfg : Config (F := F).
Variable images : list Image.
Variable C : vec3 Z.

Hypothesis one_per_screen :
  List.length images = List.length (distance_to_screen cfg).
Hypothesis constant_colour :
  forall i img, nth_error images i = Some img ->
    py_index (image_pixel_width cfg) (Z.of_nat i) = Ok (fst (size img)) /\
    py_index (image_pixel_height cfg) (Z.of_nat i) = Ok (snd (size img)) /\
    forall r c, pixel_data img r c = C.
Hypothesis colour_range :
  (0 <= vx C < 256 /\ 0 <= vy C < 256 /\ 0 <= vz C < 256)%Z.

Lemma read_inside (e : contribution (F := F)) :
  entry_inside cfg e -> index_inside cfg e ->
  exists img, py_index images (fst (fst e)) = Ok img /\
              array_get img (snd (fst e)) (snd e) = Ok C.
Proof.
  destruct e as [[screen r] c]. simpl.
  intros (Hs & _) (h & w & Hh & Hw & Br & Bc).
  destruct (py_index_in_range images screen) as (img & Himg); [lia|].
  exists img. split; [assumption|].
  apply py_index_Ok_inv in Himg; [|lia]. destruct Himg as [Hnth _].
  destruct (constant_colour _ _ Hnth) as (Hw' & Hh' & Hpx).
  rewrite Z2Nat.id in Hw', Hh' by lia.
  rewrite Hw in Hw'. rewrite Hh in Hh'. injection Hw' as ->. injection Hh' as ->.
  unfold array_get, np_axis.
  destruct (Z.ltb_spec (ftrunc r) 0); [lia|].
  destruct (Z.ltb_spec (ftrunc c) 0); [lia|].
  destruct (Z.leb_spec 0 (ftrunc r)); [|lia].
  destruct (Z.leb_spec 0 (ftrunc c)); [|lia].
  destruct (Z.ltb_spec (ftrunc r) (snd (size img))); [|lia].
  destruct (Z.ltb_spec (ftrunc c) (fst (size img))); [|lia].
  simpl. now rewrite Hpx.
Qed.

(** A list of one entry: the pixel is the colour of the images. *)
Lemma warp_pixel_constant (e : contribution (F := F)) :
  entry_inside cfg e -> index_inside cfg e -> warp_pixel images [e] = Ok C.
Proof.
  intros He Hi. destruct (read_inside e He Hi) as (img & Himg & Hget).
  destruct e as [[screen r] c]. simpl in Himg, Hget.
  unfold warp_pixel. cbn [sum_contributions]. rewrite Himg. simpl bind.
  rewrite Hget. simpl.
  destruct colour_range as (Hx & Hy & Hz).
  rewrite !avg_one by assumption. now destruct C.
Qed.

Lemma check_images_pass (self : DomeProjection) :
  params self = cfg ->
  mapM (check_image self)
    (combine (range (Z.of_nat (List.length images))) images) = Ok images.
Proof.
  intros Hp.
  rewrite (mapM_total _ snd).
  - now rewrite map_snd_combine_range.
  - intros [i img] Hin. unfold range in Hin.
    apply combine_seq_In in Hin. destruct Hin as (k & -> & Hk). simpl in *.
    destruct (constant_colour _ _ Hk) as (Hw & Hh & _).
    unfold check_image. simpl. rewrite Hp, Hw, Hh. simpl.
    now rewrite !Z.eqb_refl.
Qed.

End ConstantImages.

(** In exact arithmetic an entry that passed the test "inside the OpenGL
    image" indexes the image. *)
Lemma Int_part_IZR (z : Z) : Int_part (IZR z) = z.
Proof. symmetry. apply Int_part_spec. lra. Qed.

Lemma Rtrunc_IZR (z : Z) : (0 <= z)%Z -> Rtrunc (IZR z) = z.
Proof.
  intros Hz. unfold Rtrunc. apply IZR_le in Hz.
  destruct (Rle_dec 0 (IZR z)); [apply Int_part_IZR | contradiction].
Qed.

Lemma Rtrunc_bounds (r : R) (h : Z) :
  (0 <= r)%R -> (r < IZR h)%R -> (0 <= Rtrunc r < h)%Z.
Proof.
  intros H0 Hh. unfold Rtrunc. destruct (Rle_dec 0 r); [|contradiction].
  destruct (base_Int_part r) as [Hle Hgt].
  split.
  - assert (Hlt : (-1 < IZR (Int_part r))%R) by lra. apply lt_IZR in Hlt. lia.
  - apply lt_IZR. lra.
Qed.

Lemma entry_inside_index_real (cfg : Config (F := R)) (e : contribution (F := R)) :
  entry_inside cfg e -> index_inside cfg e.
Proof.
  destruct e as [[screen r] c].
  intros (_ & h & w & Hh & Hw & Hr0 & Hrh & Hc0 & Hcw).
  exists h, w. repeat split; try assumption;
    simpl in *; apply Rleb_true in Hr0, Hc0; apply Rltb_true in Hrh, Hcw;
    try (apply (Rtrunc_bounds r h); assumption);
    try (apply (Rtrunc_bounds c w); assumption).
Qed.

(** The warp of images of one colour, given that the reads are in range. *)
Lemma warp_of_constant_images
    {F : Type} {AR : Arith F} {L : ArithLaws F}
    (M : Libm F) (cfg : Config) (self : DomeProjection)
    (images : list Image) (C : vec3 Z) :
  __init__ M cfg = Ok self ->
  (* one image per screen, of the configured size, filled with [C] *)
  List.length images = List.length (distance_to_screen cfg) ->
  (forall i img, nth_error images i = Some img ->
      py_index (image_pixel_width cfg) (Z.of_nat i) = Ok (fst (size img)) /\
      py_index (image_pixel_height cfg) (Z.of_nat i) = Ok (snd (size img)) /\
      forall r c, pixel_data img r c = C) ->
  (0 <= vx C < 256 /\ 0 <= vy C < 256 /\ 0 <= vz C < 256)%Z ->
  (* the float coordinates of the table, truncated, index the images *)
  (forall row col l,
      np_get2 (_contributing_pixels self) row col = Ok l ->
      Forall (index_inside cfg) l) ->
  exists out,
    warp_image_for_dome self images = Ok out /\
    forall row col,
      (0 <= row < projector_pixel_height cfg)%Z ->
      (0 <= col < projector_pixel_width cfg)%Z ->
      exists l,
        np_get2 (_contributing_pixels self) row col = Ok l /\
        (l <> [] -> np_get2 out row col = Ok C) /\
        (l = [] -> np_get2 out row col = Ok (Vec3 0 0 0)%Z) /\
        (np_get2 (_projector_mask self) row col = Ok 0%Z ->
         np_get2 out row col = Ok (Vec3 0 0 0)%Z).
Proof.
  intros Hinit Hlen Hconst Hrange Hindex.
  destruct (init_inv _ _ _ Hinit) as (Hparams & _ & Hcp & _).
  assert (Hpix : forall row col,
    (0 <= row < projector_pixel_height cfg)%Z ->
    (0 <= col < projector_pixel_width cfg)%Z ->
    exists l px,
      np_get2 (_contributing_pixels self) row col = Ok l /\
      warp_pixel images l = Ok px /\
      (l <> [] -> px = C) /\ (l = [] -> px = (Vec3 0 0 0)%Z)).
  { intros row col Hr Hc.
    destruct (contributing_pixels_inside _ _ _ _ _ _ _ _ _ Hcp Hr Hc)
      as (l & Hl & Hlen1 & Hin).
    pose proof (Hindex _ _ _ Hl) as Hidx.
    destruct l as [|e [|e' l]]; [| |simpl in Hlen1; lia].
    - exists [], (Vec3 0 0 0)%Z. rewrite warp_pixel_nil. repeat split; congruence.
    - exists [e], C.
      apply Forall_inv in Hin. apply Forall_inv in Hidx.
      rewrite (warp_pixel_constant cfg images C Hlen Hconst Hrange) by assumption.
      repeat split; congruence. }
  assert (Hwarp : exists out, warp_image_for_dome self images = Ok out).
  { unfold warp_image_for_dome.
    rewrite (check_images_pass cfg images C Hconst self Hparams). simpl bind.
    rewrite Hparams.
    apply mapM_exists. intros row Hrow. apply in_range in Hrow.
    apply mapM_exists. intros col Hcol. apply in_range in Hcol.
    destruct (Hpix row col Hrow Hcol) as (l & px & Hl & Hpx & _).
    unfold np_get2 in Hl. inv_bind Hl. rewrite Ha. simpl. rewrite Hl. simpl.
    eauto. }
  destruct Hwarp as (out & Hout). exists out. split; [assumption|].
  intros row col Hr Hc.
  destruct (Hpix row col Hr Hc) as (l & px & Hl & Hpx & Hne & Hnil).
  assert (Hget : np_get2 out row col = Ok px).
  { rewrite <- Hparams in Hr, Hc.
    destruct (warp_image_at _ _ _ _ _ Hout Hr Hc)
      as (pixels & l' & px' & Hchk & Hl' & Hpx' & Hget).
    rewrite (check_images_pass cfg images C Hconst self Hparams) in Hchk.
    injection Hchk as <-. rewrite Hl in Hl'. injection Hl' as <-.
    rewrite Hpx in Hpx'. injection Hpx' as <-. assumption. }
  exists l. repeat split; try assumption.
  - intros Hl0. rewrite Hget. f_equal. now apply Hne.
  - intros Hl0. rewrite Hget. f_equal. now apply Hnil.
  - intros Hm. rewrite Hget. f_equal. apply Hnil.
    assert (Hl0 : np_get2 (_contributing_pixels self) row col = Ok [])
      by (eapply contributing_unmasked; eauto; discriminate).
    congruence.
Qed.

Lemma np_get2_Forall {A : Type} (P : A -> Prop) (g : list (list A)) (r c : Z) (a : A) :
  Forall (Forall P) g -> np_get2 g r c = Ok a -> P a.
Proof.
  intros Hg H. destruct (np_get2_In _ _ _ _ H) as (row & Hrow & Ha).
  rewrite Forall_forall in Hg. specialize (Hg _ Hrow).
  rewrite Forall_forall in Hg. now apply Hg.
Qed.

(** C10: if every screen's image is filled with one colour [C], the output of
    [warp_image_for_dome] is [C] at every projector pixel whose contributing
    list is not empty, and black at every pixel whose list is empty, in
    particular at every pixel whose mask is 0.  The table is the one built by
    [__init__]; its float coordinates are used as array indices, and the
    statement takes as a hypothesis that, truncated, they index the images
    (in exact arithmetic they do: [constant_images_warp_real]). *)
Theorem constant_images_warp_to_constant
    {F : Type} {AR : Arith F} {L : ArithLaws F}
    (M : Libm F) (cfg : Config) (self : DomeProjection)
    (images : list Image) (C : vec3 Z) :
  __init__ M cfg = Ok self ->
  (* one image per screen, of the configured size, filled with [C] *)
  List.length images = List.length (distance_to_screen cfg) ->
  (forall i img, nth_error images i = Some img ->
      py_index (image_pixel_width cfg) (Z.of_nat i) = Ok (fst (size img)) /\
      py_index (image_pixel_height cfg) (Z.of_nat i) = Ok (snd (size img)) /\
      forall r c, pixel_data img r c = C) ->
  (0 <= vx C < 256 /\ 0 <= vy C < 256 /\ 0 <= vz C < 256)%Z ->
  (* the float coordinates of the table, truncated, index the images *)
  (forall row col l,
      np_get2 (_contributing_pixels self) row col = Ok l ->
      Forall (index_inside cfg) l) ->
  exists out,
    warp_image_for_dome self images = Ok out /\
    forall row col,
      (0 <= row < projector_pixel_height cfg)%Z ->
      (0 <= col < projector_pixel_width cfg)%Z ->
      exists l,
        np_get2 (_contributing_pixels self) row col = Ok l /\
        (l <> [] -> np_get2 out row col = Ok C) /\
        (l = [] -> np_get2 out row col = Ok (Vec3 0 0 0)%Z) /\
        (np_get2 (_projector_mask self) row col = Ok 0%Z ->
         np_get2 out row col = Ok (Vec3 0 0 0)%Z).
Proof. exact (warp_of_constant_images M cfg self images C). Qed.

(** In exact arithmetic the test "inside the OpenGL image" already puts the
    reads in range. *)
Corollary constant_images_warp_real
    (M : Libm R) (cfg : Config (F := R)) (self : DomeProjection)
    (images : list Image) (C : vec3 Z) :
  __init__ M cfg = Ok self ->
  List.length images = List.length (distance_to_screen cfg) ->
  (forall i img, nth_error images i = Some img ->
      py_index (image_pixel_width cfg) (Z.of_nat i) = Ok (fst (size img)) /\
      py_index (image_pixel_height cfg) (Z.of_nat i) = Ok (snd (size img)) /\
      forall r c, pixel_data img r c = C) ->
  (0 <= vx C < 256 /\ 0 <= vy C < 256 /\ 0 <= vz C < 256)%Z ->
  exists out,
    warp_image_for_dome self images = Ok out /\
    forall row col,
      (0 <= row < projector_pixel_height cfg)%Z ->
      (0 <= col < projector_pixel_width cfg)%Z ->
      exists l,
        np_get2 (_contributing_pixels self) row col = Ok l /\
        (l <> [] -> np_get2 out row col = Ok C) /\
        (l = [] -> np_get2 out row col = Ok (Vec3 0 0 0)%Z) /\
        (np_get2 (_projector_mask self) row col = Ok 0%Z ->
         np_get2 out row col = Ok (Vec3 0 0 0)%Z).
Proof.
  intros Hinit Hlen Hconst Hrange.
  apply (warp_of_constant_images M cfg self images C); try assumption.
  intros row col l Hl.
  destruct (init_inv _ _ _ Hinit) as (_ & _ & Hcp & _).
  assert (Hall : Forall (Forall (Forall (entry_inside cfg))) (_contributing_pixels self)).
  { eapply contributing_table_inside; eauto. }
  pose proof (np_get2_Forall _ _ _ _ _ Hall Hl) as Hin.
  eapply Forall_impl; [|exact Hin]. apply entry_inside_index_real.
Qed.

Lemma constant_images_warp_to_constant_witness :
  let images := [{| size := (4, 4)%Z;
                    pixel_data := fun _ _ => Vec3 10 200 30 |}]%Z in
  exists self out,
    __init__ FloatLibm0 (reference_config 4 4 0.215 0.603) = Ok self /\
    warp_image_for_dome self images = Ok out /\
    np_get2 out 2 1 = Ok (Vec3 10 200 30)%Z /\
    np_get2 out 0 0 = Ok (Vec3 0 0 0)%Z.
Proof.
  intros images.
  assert (Hcolour : (0 <= 10 < 256 /\ 0 <= 200 < 256 /\ 0 <= 30 < 256)%Z) by lia.
  assert (Hrow2 : (0 <= 2 < 4)%Z) by lia.
  assert (Hcol1 : (0 <= 1 < 4)%Z) by lia.
  assert (Hrow0 : (0 <= 0 < 4)%Z) by lia.
  destruct (__init__ FloatLibm0 (reference_config 4 4 0.215 0.603)) as [self|e] eqn:E;
    [|vm_compute in E; discriminate].
  assert (Hs := E). vm_compute in Hs. injection Hs as Hs.
  destruct (constant_images_warp_to_constant FloatLibm0 _ self images
              (Vec3 10 200 30)%Z E) as (out & Hout & Hpix).
  - reflexivity.
  - intros [|[|i]] img Hi; try discriminate Hi.
    injection Hi as <-. repeat split; reflexivity.
  - exact Hcolour.
  - intros row col l. apply np_get2_Forall. subst self.
    repeat constructor;
      exists 4%Z, 4%Z; repeat split;
        solve [vm_compute; reflexivity | vm_compute; discriminate].
  - exists self, out. split; [reflexivity|]. split; [exact Hout|].
    split.
    + destruct (Hpix 2%Z 1%Z Hrow2 Hcol1) as (l & Hl & Hne & _).
      apply Hne. subst self. vm_compute in Hl. injection Hl as <-. discriminate.
    + destruct (Hpix 0%Z 0%Z Hrow0 Hrow0) as (l & Hl & _ & Hnil & _).
      apply Hnil. subst self. vm_compute in Hl. injection Hl as <-. reflexivity.
Defined.

(** * The code on concrete inputs (binary64) *)

Section Runs.
Local Open Scope float_scope.

(** C1: with a mirror radius of 1.0 the focal point of the reference set-up,
    (0, 0.859, 0.0158), lies inside the mirror sphere.  The discriminant of the
    top left pixel is positive, the two roots have opposite signs, and the
    code picks the negative one: a point behind the projector, not the
    intersection ahead. *)
Lemma mirror_root_behind_the_projector :
  exists focal pds pd,
    _calc_projector_focal_point
      (first_projector_image (reference_config 2 2 1.0 0.603))
      (second_projector_image (reference_config 2 2 1.0 0.603)) = Ok focal /\
    projector_pixel_directions FloatLibm0 (reference_config 2 2 1.0 0.603) focal
      = Ok pds /\
    np_get2 pds 0 0 = Ok pd /\
    fleb 0 (mirror_d_squared focal 1.0 pd) = true /\
    projector_mask_at focal 1.0 pd = 1%Z /\
    mirror_r focal 1.0 pd = mirror_root_minus focal 1.0 pd /\
    fltb (mirror_r focal 1.0 pd) 0 = true /\
    fltb 0 (mirror_root_plus focal 1.0 pd) = true.
Proof.
  eexists _, _, _.
  split; [vm_compute; reflexivity|].
  split; [vm_compute; reflexivity|].
  split; [vm_compute; reflexivity|].
  repeat split; vm_compute; reflexivity.
Qed.

(** C2: with a dome of radius 0.05 the reflected ray of the bottom left
    pixel of a 2x2 projector misses the dome.  The pixel hit the mirror, so
    its mask is 1; the dome discriminant is negative; the square root is NaN
    and so is the stored animal view direction.  The mask stays 1. *)
Theorem dome_miss_keeps_mask_and_stores_nan :
  exists mask avd focal pds pd v,
    _dome_display_directions FloatLibm0 (reference_config 2 2 0.215 0.05)
      = Ok (mask, avd) /\
    _calc_projector_focal_point
      (first_projector_image (reference_config 2 2 0.215 0.05))
      (second_projector_image (reference_config 2 2 0.215 0.05)) = Ok focal /\
    projector_pixel_directions FloatLibm0 (reference_config 2 2 0.215 0.05) focal
      = Ok pds /\
    np_get2 pds 1 0 = Ok pd /\
    fltb (dome_d_squared focal 0.215 (Vec3 0 0.138 0.309) 0.05 pd) 0 = true /\
    np_get2 mask 1 0 = Ok 1%Z /\
    np_get2 avd 1 0 = Ok v /\
    (is_nan (vx v) && is_nan (vy v) && is_nan (vz v))%bool = true.
Proof.
  eexists _, _, _, _, _, _.
  split; [vm_compute; reflexivity|].
  split; [vm_compute; reflexivity|].
  split; [vm_compute; reflexivity|].
  split; [vm_compute; reflexivity|].
  repeat split; vm_compute; reflexivity.
Qed.

(** C6: the same pixel.  Its mask is 1 and the norm of its animal view
    direction is NaN, which is not within 1e-6 of 1. *)
Theorem masked_pixel_without_unit_direction :
  exists mask avd v,
    _dome_display_directions FloatLibm0 (reference_config 2 2 0.215 0.05)
      = Ok (mask, avd) /\
    np_get2 mask 1 0 = Ok 1%Z /\
    np_get2 avd 1 0 = Ok v /\
    is_nan (norm v) = true /\
    fleb (fabs (fsub (norm v) 1)) 1e-6 = false.
Proof.
  eexists _, _, _.
  split; [vm_compute; reflexivity|].
  repeat split; vm_compute; reflexivity.
Qed.

(** C3: a grid of one row, one column or one pixel.  Nothing is
    special-cased: the row denominator [pixel_height - 1] (the column
    denominator [pixel_width - 1]) is zero, numpy's [0.0 / 0] is NaN, and
    every direction of the grid is NaN: neither the direction of the centre
    of the screen nor a unit vector. *)
Theorem single_row_or_column_is_nan :
  row_denominator 1 = 0%Z /\ col_denominator 1 = 0%Z /\
  is_nan (fdiv (of_Z 0) (of_Z (row_denominator 1))) = true /\
  flat_display_directions FloatLibm0 1 1 1 2 1 0 0
    = Ok [[Vec3 nan nan nan; Vec3 nan nan nan]] /\
  flat_display_directions FloatLibm0 1 1 2 1 1 0 0
    = Ok [[Vec3 nan nan nan]; [Vec3 nan nan nan]] /\
  flat_display_directions FloatLibm0 1 1 1 1 1 0 0 = Ok [[Vec3 nan nan nan]].
Proof. repeat split; vm_compute; reflexivity. Qed.

(** C4: two calibration quads whose top and bottom lines are parallel, both
    of slope 49.  The two slopes are computed exactly and the matrix
    [[49, -1], [49, -1]] is singular, but the elimination scales by the
    reciprocal of the pivot, [49 * (1 / 49)] is not 1 on binary64, and the
    second pivot is not zero: the solver raises nothing and returns a finite
    point, far away from the set-up, and [__init__] builds its object with
    it. *)
Theorem parallel_lines_return_a_finite_point :
  exists f0 f2 s0 s2 y z,
    py_index parallel_first_image 0 = Ok f0 /\
    py_index parallel_first_image 2 = Ok f2 /\
    py_index parallel_second_image 0 = Ok s0 /\
    py_index parallel_second_image 2 = Ok s2 /\
    (* both lines have the slope 49 *)
    py_div (vz s0 - vz f0)%A (vy s0 - vy f0)%A = Ok 49 /\
    py_div (vz s2 - vz f2)%A (vy s0 - vy f0)%A = Ok 49 /\
    feqb (49 * (1 / 49)) 1 = false /\
    (* no exception, and a finite result *)
    _calc_projector_focal_point parallel_first_image parallel_second_image
      = Ok (Vec3 0 y z) /\
    fltb y (-1e14) = true /\ fltb z (-1e15) = true /\
    fltb (-1e15) y = true /\ fltb (-1e16) z = true /\
    (* the constructor returns *)
    (exists self, __init__ FloatLibm0 parallel_beam_config = Ok self).
Proof.
  eexists _, _, _, _, _, _.
  split; [vm_compute; reflexivity|].
  split; [vm_compute; reflexivity|].
  split; [vm_compute; reflexivity|].
  split; [vm_compute; reflexivity|].
  split; [vm_compute; reflexivity|].
  split; [vm_compute; reflexivity|].
  split; [vm_compute; reflexivity|].
  split; [vm_compute; reflexivity|].
  split; [vm_compute; reflexivity|].
  split; [vm_compute; reflexivity|].
  split; [vm_compute; reflexivity|].
  split; [vm_compute; reflexivity|].
  eexists. vm_compute. reflexivity.
Qed.

(** C8: the search on the 8x8 projector of [dome_ahead_config], for the
    OpenGL pixel (3, 3).  It starts at the saved pixel (7, 4), a valid pixel
    whose stored direction is a unit vector, and returns (7, 4) without a
    move, although the grid neighbor (7, 3), valid as well, has a strictly
    larger dot product with the query.  The first neighbor, (6, 3), is a
    pixel whose reflected ray misses the dome: its direction is NaN, so is
    its dot product, and Python's [max] returns the NaN it met first, which
    no [dp] is below. *)
Theorem hill_climb_stops_below_a_neighbor :
  exists self q a4 a3 dps m,
    __init__ FloatLibm0 dome_ahead_config = Ok self /\
    (* the starting pixel *)
    _projector_pixel_row self = 7%Z /\ _projector_pixel_col self = 4%Z /\
    np_get2 (_projector_mask self) 7 4 = Ok 1%Z /\
    np_get2 (_animal_view_directions self) 7 4 = Ok a4 /\
    fleb (fabs (fsub (norm a4) 1)) 1e-6 = true /\
    (* the query *)
    np_get2 (_camera_view_directions self) 3 3 = Ok q /\
    (* the search terminates on the starting pixel *)
    _find_closest_projector_pixel 64 self [] 3 3
      = Some (Ok (7%Z, 4%Z, with_saved_pixel self 7 4, [])) /\
    (* the neighbors of the starting pixel and their dot products *)
    _calc_neighbor_dot_products self 7 4 q
      = Ok (dps, [(6, 3); (6, 4); (6, 5); (7, 3); (7, 5)]%Z) /\
    map is_nan dps = [true; true; true; false; true] /\
    (* the neighbor (7, 3) is better: 0.5867 at (7, 4), 0.8040 at (7, 3) *)
    np_get2 (_projector_mask self) 7 3 = Ok 1%Z /\
    np_get2 (_animal_view_directions self) 7 3 = Ok a3 /\
    py_index dps 3 = Ok (dot q a3) /\
    fltb (dot q a4) (dot q a3) = true /\
    fltb (dot q a4) 0.59 = true /\ fltb 0.80 (dot q a3) = true /\
    (* [max(neighbor_dps)] is NaN *)
    py_max dps = Ok m /\ is_nan m = true.
Proof.
  eexists _, _, _, _, _, _.
  split; [vm_compute; reflexivity|].
  split; [reflexivity|]. split; [reflexivity|].
  split; [vm_compute; reflexivity|].
  split; [vm_compute; reflexivity|].
  split; [vm_compute; reflexivity|].
  split; [vm_compute; reflexivity|].
  split; [vm_compute; reflexivity|].
  split; [vm_compute; reflexivity|].
  split; [vm_compute; reflexivity|].
  split; [vm_compute; reflexivity|].
  split; [vm_compute; reflexivity|].
  split; [vm_compute; reflexivity|].
  split; [vm_compute; reflexivity|].
  split; [vm_compute; reflexivity|].
  split; [vm_compute; reflexivity|].
  split; vm_compute; reflexivity.
Qed.


End Runs.

(** * Further properties of the code *)

(** ** The neighbors of a pixel *)

(** X1: [neighbors_of] lists exactly the pixels of the grid that touch
    [(r, c)] (one step away along a row, a column or a diagonal), the pixel
    itself excluded; there are at most 8 of them. *)
Theorem neighbors_are_the_adjacent_grid_pixels
    {F : Type} {AR : Arith F} (self : DomeProjection (F := F)) (r c : Z) :
  (forall n : Z * Z,
      In n (neighbors_of self r c) <->
      in_grid self n /\ n <> (r, c) /\
      (Z.abs (fst n - r) <= 1)%Z /\ (Z.abs (snd n - c) <= 1)%Z) /\
  (List.length (neighbors_of self r c) <= 8)%nat /\
  NoDup (neighbors_of self r c).
Proof.
  split; [|split].
  - intros [nr nc]. unfold neighbors_of, in_grid. rewrite in_flat_map. simpl. split.
    + intros ([dr dc] & Hoff & Hin).
      destruct (_ && _)%bool eqn:E1 in Hin; [|contradiction].
      destruct (_ && _)%bool eqn:E2 in Hin; [|contradiction].
      destruct Hin as [E | []]. injection E as <- <-.
      apply andb_prop in E1, E2. destruct E1 as [A1 A2], E2 as [B1 B2].
      apply Z.leb_le in A1, B1. apply Z.ltb_lt in A2, B2.
      unfold offsets in Hoff. simpl in Hoff.
      repeat (destruct Hoff as [Hoff | Hoff];
              [injection Hoff as <- <-;
               repeat split; try lia; intros E; injection E; lia|]).
      contradiction.
    + intros ((Hr & Hc) & Hne & Ar & Ac).
      exists ((nr - r)%Z, (nc - c)%Z). split.
      * assert (Hd : (nr - r = -1 \/ nr - r = 0 \/ nr - r = 1)%Z) by lia.
        assert (He : (nc - c = -1 \/ nc - c = 0 \/ nc - c = 1)%Z) by lia.
        assert (Hz : ~ (nr - r = 0 /\ nc - c = 0)%Z).
        { intros [A B]. apply Hne. f_equal; lia. }
        unfold offsets. simpl.
        destruct Hd as [Ed | [Ed | Ed]], He as [Ee | [Ee | Ee]];
          first [exfalso; apply Hz; split; assumption
                | rewrite Ed, Ee; repeat (first [left; reflexivity | right])].
      * replace (r + (nr - r))%Z with nr by lia.
        replace (c + (nc - c))%Z with nc by lia.
        destruct (Z.leb_spec 0 nr); [|lia].
        destruct (Z.ltb_spec nr (projector_pixel_height (params self))); [|lia].
        destruct (Z.leb_spec 0 nc); [|lia].
        destruct (Z.ltb_spec nc (projector_pixel_width (params self))); [|lia].
        simpl. now left.
  - unfold neighbors_of, offsets. simpl.
    repeat match goal with
    | |- context [if ?b then _ else _] => destruct b
    end; simpl; lia.
  - unfold neighbors_of, offsets. simpl.
    repeat match goal with
    | |- context [if ?b then _ else _] => destruct b
    end; simpl;
    repeat (constructor; [simpl; intuition (try congruence);
                          match goal with
                          | E : (_, _) = (_, _) |- _ => injection E; lia
                          end|]);
    constructor.
Qed.

(** ** What [__init__] establishes *)

Lemma calc_contributing_pixels_shape {F : Type} {AR : Arith F}
    (cfg : Config (F := F)) vts rv cv mask avd cp :
  _calc_contributing_pixels cfg vts rv cv mask avd = Ok cp ->
  grid_shape (projector_pixel_height cfg) (projector_pixel_width cfg) cp.
Proof.
  unfold _calc_contributing_pixels. intros H.
  repeat inv_bind H. eapply grid_shape_mapM. exact H.
Qed.

(** X2: the object built by [__init__].  The mask, the animal-view field and
    the contributing-pixel table all have the projector's resolution; the
    mask holds only 0 and 1; the camera-view field has the resolution of the
    first screen's image (an image of at least one row: numpy shapes an
    array without rows differently); there is one vector to the screen, one
    row vector and one column vector per screen; and the search starts in
    the middle of the bottom row. *)
Theorem init_establishes_the_object_invariants
    {F : Type} {AR : Arith F} (M : Libm F) (cfg : Config) (self : DomeProjection) :
  __init__ M cfg = Ok self ->
  let H := projector_pixel_height cfg in
  let W := projector_pixel_width cfg in
  params self = cfg /\
  grid_shape H W (_projector_mask self) /\
  grid_shape H W (_animal_view_directions self) /\
  grid_shape H W (_contributing_pixels self) /\
  Forall (Forall (fun m => m = 0%Z \/ m = 1%Z)) (_projector_mask self) /\
  (exists h0 w0,
      py_index (image_pixel_height cfg) 0 = Ok h0 /\
      py_index (image_pixel_width cfg) 0 = Ok w0 /\
      ((1 <= h0)%Z -> grid_shape h0 w0 (_camera_view_directions self))) /\
  List.length (_vector_to_screen self) = List.length (distance_to_screen cfg) /\
  List.length (_row_vector self) = List.length (distance_to_screen cfg) /\
  List.length (_col_vector self) = List.length (distance_to_screen cfg) /\
  _projector_pixel_row self = (H - 1)%Z /\
  _projector_pixel_col self = (W / 2)%Z.
Proof.
  intros Hinit H W. unfold __init__ in Hinit.
  apply bind_Ok in Hinit. destruct Hinit as (vectors & Hvec & Hinit).
  apply bind_Ok in Hinit. destruct Hinit as (sh0 & Hsh0 & Hinit).
  apply bind_Ok in Hinit. destruct Hinit as (sw0 & Hsw0 & Hinit).
  apply bind_Ok in Hinit. destruct Hinit as (ih0 & Hih0 & Hinit).
  apply bind_Ok in Hinit. destruct Hinit as (iw0 & Hiw0 & Hinit).
  apply bind_Ok in Hinit. destruct Hinit as (d0 & Hd0 & Hinit).
  apply bind_Ok in Hinit. destruct Hinit as (p0 & Hp0 & Hinit).
  apply bind_Ok in Hinit. destruct Hinit as (camera & Hcam & Hinit).
  apply bind_Ok in Hinit. destruct Hinit as ([mask avd] & Hdome & Hinit).
  apply bind_Ok in Hinit. destruct Hinit as (cp & Hcp & Hinit).
  injection Hinit as <-. simpl.
  destruct (dome_inv _ _ _ _ Hdome)
    as (focal & pds & _ & Hpds & _ & _ & Hmask & Havd).
  assert (Hlen : List.length vectors = List.length (distance_to_screen cfg)).
  { rewrite (mapM_length _ _ _ Hvec), range_length. apply Nat2Z.id. }
  split; [reflexivity|].
  split; [eapply for_each_pixel_shape; exact Hmask|].
  split; [eapply for_each_pixel_shape; exact Havd|].
  split; [eapply calc_contributing_pixels_shape; eauto|].
  split.
  { unfold for_each_pixel in Hmask.
    eapply mapM_Forall; [exact Hmask|]. intros i row _ Hrow. simpl in Hrow.
    eapply mapM_Forall; [exact Hrow|]. intros j m _ Hm. simpl in Hm.
    apply bind_Ok in Hm. destruct Hm as (pd & _ & Hm). injection Hm as <-.
    unfold projector_mask_at. destruct (fleb _ _); auto. }
  split.
  { exists ih0, iw0. split; [assumption|]. split; [assumption|].
    intros Hrows. rewrite flat_display_directions_rows in Hcam by assumption.
    injection Hcam as <-. apply flat_display_grid_shape. }
  rewrite !length_map. auto.
Qed.

Lemma init_establishes_the_object_invariants_witness :
  exists self,
    __init__ FloatLibm0 (reference_config 4 4 0.215 0.603) = Ok self /\
    grid_shape 4 4 (_projector_mask self) /\
    grid_shape 4 4 (_contributing_pixels self) /\
    _projector_pixel_row self = 3%Z /\ _projector_pixel_col self = 2%Z.
Proof.
  destruct (__init__ FloatLibm0 (reference_config 4 4 0.215 0.603)) as [self|e] eqn:E;
    [|vm_compute in E; discriminate].
  exists self. split; [reflexivity|].
  destruct (init_establishes_the_object_invariants FloatLibm0 _ self E)
    as (_ & Hm & _ & Hc & _ & _ & _ & _ & _ & Hr & Hcol).
  split; [exact Hm|]. split; [exact Hc|]. split; [exact Hr | exact Hcol].
Defined.

(** ** The contributing-pixel table *)

(** X3: every list of the table built by [__init__] holds at most one entry
    [[screen, r, c]]; the screen of an entry is one of the configured screens
    and its row and column passed the test [0 <= r < image_pixel_height] and
    [0 <= c < image_pixel_width] of that screen. *)
Theorem table_lists_hold_at_most_one_inside_entry
    {F : Type} {AR : Arith F} {L : ArithLaws F}
    (M : Libm F) (cfg : Config) (self : DomeProjection) :
  __init__ M cfg = Ok self ->
  Forall (Forall (fun l : list contribution =>
                    (List.length l <= 1)%nat /\ Forall (entry_inside cfg) l))
         (_contributing_pixels self).
Proof.
  intros Hinit. destruct (init_inv _ _ _ Hinit) as (_ & _ & Hcp & _).
  revert Hcp. generalize (_contributing_pixels self) as cp.
  intros cp Hcp. unfold _calc_contributing_pixels in Hcp.
  repeat inv_bind Hcp.
  eapply mapM_Forall; [exact Hcp|]. intros row cells _ Hcells. simpl in Hcells.
  eapply mapM_Forall; [exact Hcells|]. intros col l _ El. simpl in El.
  inv_bind El. destruct (a4 =? 1)%Z.
  - inv_bind El. eapply contributing_pixels_at_inside; eauto.
  - injection El as <-. split; [simpl; lia | constructor].
Qed.

Lemma table_lists_hold_at_most_one_inside_entry_witness :
  exists self l,
    __init__ FloatLibm0 (reference_config 4 4 0.215 0.603) = Ok self /\
    np_get2 (_contributing_pixels self) 2 1 = Ok l /\
    List.length l = 1%nat /\ Forall (entry_inside (reference_config 4 4 0.215 0.603)) l.
Proof.
  destruct (__init__ FloatLibm0 (reference_config 4 4 0.215 0.603)) as [self|e] eqn:E;
    [|vm_compute in E; discriminate].
  pose proof (table_lists_hold_at_most_one_inside_entry FloatLibm0 _ self E) as Hall.
  assert (Hs := E). vm_compute in Hs. injection Hs as Hs.
  assert (Hl : exists l, np_get2 (_contributing_pixels self) 2 1 = Ok l /\
                         List.length l = 1%nat).
  { subst self. eexists. split; [vm_compute; reflexivity | reflexivity]. }
  destruct Hl as (l & Hl & Hlen).
  exists self, l. split; [reflexivity|]. split; [exact Hl|]. split; [exact Hlen|].
  exact (proj2 (np_get2_Forall _ _ _ _ _ Hall Hl)).
Defined.

(** ** The warped image *)

(** X4: when [warp_image_for_dome] returns, its output has the projector's
    resolution and every channel of every pixel is a [uint8] value. *)
Theorem warp_output_is_an_rgb_image_of_the_projector
    {F : Type} {AR : Arith F}
    (self : DomeProjection (F := F)) (images : list Image)
    (out : list (list (vec3 Z))) :
  warp_image_for_dome self images = Ok out ->
  grid_shape (projector_pixel_height (params self))
             (projector_pixel_width (params self)) out /\
  Forall (Forall (fun p => (0 <= vx p < 256 /\ 0 <= vy p < 256 /\
                            0 <= vz p < 256)%Z)) out.
Proof.
  unfold warp_image_for_dome. intros H. inv_bind H. split.
  - eapply grid_shape_mapM. exact H.
  - eapply mapM_Forall; [exact H|]. intros row cells _ Hcells. simpl in Hcells.
    eapply mapM_Forall; [exact Hcells|]. intros col p _ Hp. simpl in Hp.
    inv_bind Hp. inv_bind Hp. unfold warp_pixel in Hp. inv_bind Hp.
    injection Hp as <-. unfold to_uint8. simpl.
    repeat split; apply Z.mod_pos_bound; lia.
Qed.

Lemma warp_output_is_an_rgb_image_of_the_projector_witness :
  exists self out,
    __init__ FloatLibm0 (reference_config 4 4 0.215 0.603) = Ok self /\
    warp_image_for_dome self
      [{| size := (4, 4)%Z; pixel_data := fun r c => Vec3 r c 7 |}]%Z = Ok out /\
    grid_shape 4 4 out.
Proof.
  destruct (__init__ FloatLibm0 (reference_config 4 4 0.215 0.603)) as [self|e] eqn:E;
    [|vm_compute in E; discriminate].
  assert (Hs := E). vm_compute in Hs. injection Hs as Hs.
  destruct (warp_image_for_dome self
              [{| size := (4, 4)%Z; pixel_data := fun r c => Vec3 r c 7 |}]%Z)
    as [out|e] eqn:Ew; [|subst self; vm_compute in Ew; discriminate].
  exists self, out. split; [reflexivity|]. split; [exact Ew|].
  pose proof (proj1 (warp_output_is_an_rgb_image_of_the_projector self _ out Ew)) as Hg.
  subst self. exact Hg.
Defined.

(** ** Errors of the loops *)

Lemma bind_Raise {A B : Type} (m : result A) (k : A -> result B) (e : string) :
  bind m k = Raise e -> m = Raise e \/ exists a, m = Ok a /\ k a = Raise e.
Proof. destruct m as [a|e']; simpl; intros H; [right; eauto | left; congruence]. Qed.

Lemma mapM_Raise_inv {A B : Type} (f : A -> result B) (l : list A) (e : string) :
  mapM f l = Raise e -> exists a, In a l /\ f a = Raise e.
Proof.
  induction l as [|a l IH]; simpl; [discriminate|]. intros H.
  apply bind_Raise in H. destruct H as [H | (b & Hb & H)].
  - exists a. auto.
  - apply bind_Raise in H. destruct H as [H | (bs & _ & H)]; [|discriminate].
    destruct (IH H) as (x & Hx & Hfx). exists x. auto.
Qed.

Lemma mapM_Ok_In {A B : Type} (f : A -> result B) (l : list A) (out : list B) :
  mapM f l = Ok out -> forall a, In a l -> exists b, f a = Ok b.
Proof.
  revert out. induction l as [|a l IH]; simpl; intros out H x Hx; [contradiction|].
  inv_bind H. inv_bind H. destruct Hx as [<- | Hx]; eauto.
Qed.

Lemma mapM_map_of {A B : Type} (f : A -> result B) (g : A -> B) (l : list A)
    (out : list B) :
  mapM f l = Ok out -> (forall a b, In a l -> f a = Ok b -> b = g a) ->
  out = map g l.
Proof.
  revert out. induction l as [|a l IH]; simpl; intros out H Hg.
  - now injection H as <-.
  - inv_bind H. inv_bind H. injection H as <-.
    rewrite (Hg a a0 (or_introl eq_refl) Ha). f_equal. apply IH; auto.
Qed.

Lemma py_index_Raise {A : Type} (l : list A) (i : Z) (e : string) :
  py_index l i = Raise e -> e = IndexError.
Proof.
  unfold py_index. destruct (_ && _)%bool; [|now intros [= <-]].
  destruct (nth_error _ _); [discriminate | now intros [= <-]].
Qed.

Lemma py_index_below {A : Type} (l : list A) (i k : Z) (a : A) :
  py_index l i = Ok a -> (0 <= k <= i)%Z -> exists b, py_index l k = Ok b.
Proof.
  intros H Hk. apply py_index_Ok_inv in H; [|lia].
  apply py_index_in_range. lia.
Qed.

Lemma np_axis_Ok (n i k : Z) : np_axis n i = Ok k -> (0 <= k < n)%Z.
Proof.
  unfold np_axis. destruct (_ && _)%bool eqn:E; [|discriminate].
  intros [= <-]. apply andb_prop in E. destruct E as [E1 E2].
  apply Z.leb_le in E1. apply Z.ltb_lt in E2. lia.
Qed.

Section WarpErrors.
Context {F : Type} {AR : Arith F}.

Lemma array_get_Raise (img : Image) (r c : F) (e : string) :
  array_get img r c = Raise e -> e = IndexError.
Proof.
  unfold array_get, np_axis. intros H.
  apply bind_Raise in H. destruct H as [H | (ri & _ & H)].
  - destruct (_ && _)%bool in H; [discriminate | now injection H as <-].
  - apply bind_Raise in H. destruct H as [H | (ci & _ & H)]; [|discriminate].
    destruct (_ && _)%bool in H; [discriminate | now injection H as <-].
Qed.

Lemma sum_contributions_Raise (pixels : list Image) (l : list contribution)
    (acc : vec3 F) (e : string) :
  sum_contributions pixels l acc = Raise e -> e = IndexError.
Proof.
  revert acc. induction l as [|[[s r] c] l IH]; simpl; intros acc H; [discriminate|].
  apply bind_Raise in H. destruct H as [H | (img & _ & H)].
  - eapply py_index_Raise; eauto.
  - apply bind_Raise in H. destruct H as [H | (p & _ & H)].
    + eapply array_get_Raise; eauto.
    + eapply IH; eauto.
Qed.

Lemma sum_contributions_reads (pixels : list Image) (l : list contribution)
    (acc v : vec3 F) :
  sum_contributions pixels l acc = Ok v ->
  forall s r c, In (s, r, c) l -> exists img, py_index pixels s = Ok img.
Proof.
  revert acc. induction l as [|[[s0 r0] c0] l IH]; simpl; intros acc H s r c Hin;
    [contradiction|].
  inv_bind H. inv_bind H. destruct Hin as [E | Hin].
  - injection E as <- <- <-. eauto.
  - eapply IH; eauto.
Qed.

Lemma warp_pixel_Raise (pixels : list Image) (l : list contribution) (e : string) :
  warp_pixel pixels l = Raise e -> e = IndexError.
Proof.
  unfold warp_pixel. intros H.
  apply bind_Raise in H. destruct H as [H | (v & _ & H)]; [|discriminate].
  eapply sum_contributions_Raise; eauto.
Qed.

Lemma check_image_Raise (self : DomeProjection (F := F)) (ii : Z * Image) (e : string) :
  check_image self ii = Raise e -> e = IndexError \/ e = AssertionError.
Proof.
  unfold check_image. intros H.
  apply bind_Raise in H. destruct H as [H | (w & _ & H)].
  - left. eapply py_index_Raise; eauto.
  - apply bind_Raise in H. destruct H as [H | (h & _ & H)].
    + left. eapply py_index_Raise; eauto.
    + destruct (_ && _)%bool in H; [discriminate | right; now injection H as <-].
Qed.

Lemma check_image_Ok (self : DomeProjection (F := F)) (ii : Z * Image) (img : Image) :
  check_image self ii = Ok img ->
  img = snd ii /\
  py_index (image_pixel_width (params self)) (fst ii) = Ok (fst (size img)) /\
  py_index (image_pixel_height (params self)) (fst ii) = Ok (snd (size img)).
Proof.
  unfold check_image. intros H. inv_bind H. inv_bind H.
  destruct (_ && _)%bool eqn:E in H; [|discriminate]. injection H as <-.
  apply andb_prop in E. destruct E as [E1 E2].
  apply Z.eqb_eq in E1, E2. rewrite E1, E2. auto.
Qed.

(** The [assert] loop returns the images themselves. *)
Lemma checked_images (self : DomeProjection (F := F)) (images pixels : list Image) :
  mapM (check_image self)
    (combine (range (Z.of_nat (List.length images))) images) = Ok pixels ->
  pixels = images.
Proof.
  intros H. rewrite (mapM_map_of _ snd _ _ H).
  - apply map_snd_combine_range.
  - intros a b _ Hb. now apply check_image_Ok in Hb.
Qed.

Lemma check_images_wrong_size (self : DomeProjection (F := F)) :
  forall (images : list Image) (s i : nat) (img : Image) (w h : Z),
    nth_error images i = Some img ->
    py_index (image_pixel_width (params self)) (Z.of_nat (s + i)) = Ok w ->
    py_index (image_pixel_height (params self)) (Z.of_nat (s + i)) = Ok h ->
    size img <> (w, h) ->
    mapM (check_image self)
      (combine (map Z.of_nat (seq s (List.length images))) images)
    = Raise AssertionError.
Proof.
  induction images as [|a images IH]; intros s i img w h Hnth Hw Hh Hsize.
  - destruct i; discriminate.
  - simpl. destruct i as [|i]; simpl in Hnth.
    + injection Hnth as ->. rewrite Nat.add_0_r in Hw, Hh.
      unfold check_image. simpl. rewrite Hw, Hh. simpl.
      destruct (_ && _)%bool eqn:E; [|reflexivity].
      apply andb_prop in E. destruct E as [E1 E2]. apply Z.eqb_eq in E1, E2.
      exfalso. apply Hsize. destruct (size img). simpl in *. congruence.
    + destruct (check_image self (Z.of_nat s, a)) as [b|e] eqn:E; simpl.
      * rewrite (IH (S s) i img w h Hnth); [reflexivity | | | assumption].
        -- now replace (S s + i)%nat with (s + S i)%nat by lia.
        -- now replace (S s + i)%nat with (s + S i)%nat by lia.
      * destruct (check_image_Raise _ _ _ E) as [-> | ->]; [|reflexivity].
        exfalso. unfold check_image in E. simpl in E.
        destruct (py_index_below _ _ (Z.of_nat s) _ Hw ltac:(lia)) as (w' & Hw').
        destruct (py_index_below _ _ (Z.of_nat s) _ Hh ltac:(lia)) as (h' & Hh').
        rewrite Hw', Hh' in E. simpl in E.
        destruct (_ && _)%bool in E; discriminate.
Qed.

End WarpErrors.

(** X5: an image whose size is not the configured [(width, height)] of its
    screen makes [warp_image_for_dome] fail its [assert], wherever the image
    stands in the list and whatever the images after it are. *)
Theorem warp_asserts_the_size_of_every_image
    {F : Type} {AR : Arith F}
    (self : DomeProjection (F := F)) (images : list Image)
    (i : nat) (img : Image) (w h : Z) :
  nth_error images i = Some img ->
  py_index (image_pixel_width (params self)) (Z.of_nat i) = Ok w ->
  py_index (image_pixel_height (params self)) (Z.of_nat i) = Ok h ->
  size img <> (w, h) ->
  warp_image_for_dome self images = Raise AssertionError.
Proof.
  intros Hnth Hw Hh Hsize. unfold warp_image_for_dome, range.
  rewrite Nat2Z.id.
  now rewrite (check_images_wrong_size self images 0 i img w h Hnth Hw Hh Hsize).
Qed.

Lemma warp_asserts_the_size_of_every_image_witness :
  exists self,
    __init__ FloatLibm0 (reference_config 4 4 0.215 0.603) = Ok self /\
    warp_image_for_dome self
      [{| size := (4, 3)%Z; pixel_data := fun _ _ => Vec3 0 0 0 |}]%Z
    = Raise AssertionError.
Proof.
  destruct (__init__ FloatLibm0 (reference_config 4 4 0.215 0.603)) as [self|e] eqn:E;
    [|vm_compute in E; discriminate].
  exists self. split; [reflexivity|].
  assert (Hp : params self = reference_config 4 4 0.215 0.603).
  { exact (proj1 (init_inv _ _ _ E)). }
  eapply (warp_asserts_the_size_of_every_image self _ 0 _ 4 4).
  - reflexivity.
  - rewrite Hp. reflexivity.
  - rewrite Hp. reflexivity.
  - simpl. intros [=].
Defined.

(** X6: the images are not counted.  For an object built by [__init__]:
    when the images all pass the [assert] but a contributing-pixel list names
    a screen for which no image was given, the warp raises [IndexError]. *)
Theorem warp_with_a_missing_image_raises_IndexError
    {F : Type} {AR : Arith F} (M : Libm F) (cfg : Config)
    (self : DomeProjection (F := F)) (images : list Image)
    (row col : Z) (l : list contribution) (s : Z) (r c : F) :
  __init__ M cfg = Ok self ->
  (forall k img, nth_error images k = Some img ->
      py_index (image_pixel_width (params self)) (Z.of_nat k) = Ok (fst (size img)) /\
      py_index (image_pixel_height (params self)) (Z.of_nat k) = Ok (snd (size img))) ->
  (0 <= row < projector_pixel_height (params self))%Z ->
  (0 <= col < projector_pixel_width (params self))%Z ->
  np_get2 (_contributing_pixels self) row col = Ok l ->
  In (s, r, c) l ->
  (Z.of_nat (List.length images) <= s)%Z ->
  warp_image_for_dome self images = Raise IndexError.
Proof.
  intros _ Hsizes Hrow Hcol Hl Hin Hs.
  destruct (warp_image_for_dome self images) as [out|e] eqn:E.
  - exfalso.
    destruct (warp_image_at _ _ _ _ _ E Hrow Hcol) as (pixels & l' & px & Hck & Hl' & Hpx & _).
    rewrite Hl in Hl'. injection Hl' as <-.
    apply checked_images in Hck. subst pixels.
    unfold warp_pixel in Hpx. inv_bind Hpx.
    destruct (sum_contributions_reads _ _ _ _ Ha _ _ _ Hin) as (img & Himg).
    apply py_index_Ok_inv in Himg; lia.
  - f_equal. unfold warp_image_for_dome in E.
    apply bind_Raise in E. destruct E as [E | (pixels & _ & E)].
    + exfalso. apply mapM_Raise_inv in E. destruct E as ([k img] & Hk & E).
      unfold range in Hk. apply combine_seq_In in Hk.
      destruct Hk as (k' & -> & Hk'). simpl in Hk'.
      destruct (Hsizes _ _ Hk') as (Hw & Hh).
      unfold check_image in E. simpl in E. rewrite Hw, Hh in E. simpl in E.
      rewrite !Z.eqb_refl in E. discriminate.
    + apply mapM_Raise_inv in E. destruct E as (row' & _ & E).
      apply mapM_Raise_inv in E. destruct E as (col' & _ & E).
      apply bind_Raise in E. destruct E as [E | (cps & _ & E)];
        [eapply py_index_Raise; eauto|].
      apply bind_Raise in E. destruct E as [E | (l' & _ & E)];
        [eapply py_index_Raise; eauto|].
      eapply warp_pixel_Raise; eauto.
Qed.

Lemma warp_with_a_missing_image_raises_IndexError_witness :
  exists self,
    __init__ FloatLibm0 (reference_config 4 4 0.215 0.603) = Ok self /\
    warp_image_for_dome self [] = Raise IndexError.
Proof.
  destruct (__init__ FloatLibm0 (reference_config 4 4 0.215 0.603)) as [self|e] eqn:E;
    [|vm_compute in E; discriminate].
  exists self. split; [reflexivity|].
  assert (Hs := E). vm_compute in Hs. injection Hs as Hs.
  assert (Hl : exists l r c, np_get2 (_contributing_pixels self) 2 1 = Ok l /\
                             In (0%Z, r, c) l).
  { subst self. eexists. eexists. eexists. split; [vm_compute; reflexivity|].
    left. reflexivity. }
  destruct Hl as (l & r & c & Hl & Hin).
  apply (warp_with_a_missing_image_raises_IndexError FloatLibm0
           (reference_config 4 4 0.215 0.603) self [] 2 1 l 0 r c).
  - exact E.
  - intros [|k] img Hk; discriminate.
  - subst self. vm_compute. split; [discriminate | reflexivity].
  - subst self. vm_compute. split; [discriminate | reflexivity].
  - exact Hl.
  - exact Hin.
  - vm_compute. discriminate.
Defined.

(** X7: the warp is a lookup.  For an object built by [__init__] and images
    of [uint8] channels, each pixel of the output is black when its
    contributing-pixel list is empty, and otherwise the list has the one
    entry [[s, r, c]] and the output pixel is [pixels[s][r, c]], unchanged by
    the sum, the division by [n = 1] and the conversion to [uint8]. *)
Theorem warp_copies_the_contributing_source_pixel
    {F : Type} {AR : Arith F} {L : ArithLaws F}
    (M : Libm F) (cfg : Config) (self : DomeProjection)
    (images : list Image) (out : list (list (vec3 Z))) (row col : Z) :
  __init__ M cfg = Ok self ->
  warp_image_for_dome self images = Ok out ->
  (forall img i j, In img images ->
      (0 <= i < snd (size img))%Z -> (0 <= j < fst (size img))%Z ->
      (0 <= vx (pixel_data img i j) < 256 /\
       0 <= vy (pixel_data img i j) < 256 /\
       0 <= vz (pixel_data img i j) < 256)%Z) ->
  (0 <= row < projector_pixel_height cfg)%Z ->
  (0 <= col < projector_pixel_width cfg)%Z ->
  exists l,
    np_get2 (_contributing_pixels self) row col = Ok l /\
    ((l = [] /\ np_get2 out row col = Ok (Vec3 0 0 0)%Z) \/
     (exists s r c img p,
         l = [(s, r, c)] /\
         py_index images s = Ok img /\
         array_get img r c = Ok p /\
         np_get2 out row col = Ok p)).
Proof.
  intros Hinit Hwarp Hrange Hrow Hcol.
  destruct (init_inv _ _ _ Hinit) as (Hp & _ & Hcp & _).
  destruct (contributing_pixels_inside _ _ _ _ _ _ _ row col Hcp Hrow Hcol)
    as (l & Hl & Hlen & _).
  rewrite <- Hp in Hrow, Hcol.
  destruct (warp_image_at _ _ _ _ _ Hwarp Hrow Hcol)
    as (pixels & l' & px & Hck & Hl' & Hpx & Hout).
  rewrite Hl in Hl'. injection Hl' as <-.
  apply checked_images in Hck. subst pixels.
  exists l. split; [assumption|].
  destruct l as [|[[s r] c] [|e l]]; [left | right | simpl in Hlen; lia].
  - split; [reflexivity|]. rewrite warp_pixel_nil in Hpx. now injection Hpx as <-.
  - unfold warp_pixel in Hpx. simpl in Hpx.
    apply bind_Ok in Hpx. destruct Hpx as (v & Hsum & Hpx).
    apply bind_Ok in Hsum. destruct Hsum as (img & Himg & Hsum).
    apply bind_Ok in Hsum. destruct Hsum as (p & Hp' & Hsum).
    injection Hsum as <-. injection Hpx as <-.
    exists s, r, c, img, p. repeat split; try assumption.
    rewrite Hout. f_equal.
    assert (Hin : In img images) by (eapply py_index_In; eauto).
    unfold array_get in Hp'.
    apply bind_Ok in Hp'. destruct Hp' as (ri & Hri & Hp').
    apply bind_Ok in Hp'. destruct Hp' as (ci & Hci & Hp').
    injection Hp' as <-.
    apply np_axis_Ok in Hri, Hci.
    destruct (Hrange img ri ci Hin Hri Hci) as (Hx & Hy & Hz).
    simpl. rewrite !avg_one by assumption.
    now destruct (pixel_data img ri ci).
Qed.

Lemma warp_copies_the_contributing_source_pixel_witness :
  let images := [{| size := (4, 4)%Z; pixel_data := fun r c => Vec3 r c 7 |}]%Z in
  exists self out,
    __init__ FloatLibm0 (reference_config 4 4 0.215 0.603) = Ok self /\
    warp_image_for_dome self images = Ok out /\
    exists l,
      np_get2 (_contributing_pixels self) 2 1 = Ok l /\
      ((l = [] /\ np_get2 out 2 1 = Ok (Vec3 0 0 0)%Z) \/
       (exists s r c img p,
           l = [(s, r, c)] /\
           py_index images s = Ok img /\
           array_get img r c = Ok p /\
           np_get2 out 2 1 = Ok p)).
Proof.
  intros images.
  assert (Hrow : (0 <= 2 < 4)%Z) by lia.
  assert (Hcol : (0 <= 1 < 4)%Z) by lia.
  assert (Hrange : forall (img : Image) (i j : Z), In img images ->
            (0 <= i < snd (size img))%Z -> (0 <= j < fst (size img))%Z ->
            (0 <= vx (pixel_data img i j) < 256 /\
             0 <= vy (pixel_data img i j) < 256 /\
             0 <= vz (pixel_data img i j) < 256)%Z).
  { intros img i j [<- | []] Hi Hj. simpl in *. lia. }
  destruct (__init__ FloatLibm0 (reference_config 4 4 0.215 0.603)) as [self|e] eqn:E;
    [|vm_compute in E; discriminate].
  assert (Hs := E). vm_compute in Hs. injection Hs as Hs.
  destruct (warp_image_for_dome self images)
    as [out|e] eqn:Ew; [|subst self; vm_compute in Ew; discriminate].
  exists self, out. split; [reflexivity|]. split; [exact Ew|].
  exact (warp_copies_the_contributing_source_pixel FloatLibm0 _ self images out 2 1
           E Ew Hrange Hrow Hcol).
Defined.

(** ** What a call of the search returns *)

Section SearchResults.
Context {F : Type} {AR : Arith F} {L : ArithLaws F}.
Variable self : DomeProjection (F := F).
Variable q : vec3 F.
Hypothesis shape :
  grid_shape (projector_pixel_height (params self))
    (projector_pixel_width (params self)) (_animal_view_directions self).

(** The first loop leaves the start pixel only through [randint]. *)
Lemma find_masked_pixel_Ok (fuel : nat) (rnd rnd' : list Z) (r c r' c' : Z) :
  find_masked_pixel fuel self rnd r c = Some (Ok (r', c', rnd')) ->
  r' = r /\ c' = c /\ rnd' = rnd /\
  exists m, np_get2 (_projector_mask self) r c = Ok m /\ m <> 0%Z.
Proof.
  destruct fuel; simpl;
    destruct (np_get2 (_projector_mask self) r c) as [m|e]; try discriminate;
    destruct (Z.eqb_spec m 0); try discriminate;
    intros [= <- <- <-]; eauto 6.
Qed.

Lemma find_masked_pixel_start (fuel : nat) (rnd : list Z) (r c m : Z) :
  np_get2 (_projector_mask self) r c = Ok m -> m <> 0%Z ->
  find_masked_pixel fuel self rnd r c = Some (Ok (r, c, rnd)).
Proof.
  intros Hm Hne. destruct fuel; simpl; rewrite Hm;
    destruct (Z.eqb_spec m 0); congruence.
Qed.

(** Where the hill climb returns: on a pixel of the grid at which the loop
    condition is false, and which is the start or strictly better. *)
Lemma climb_result (fuel : nat) :
  forall (dp : F) (rc rc' : Z * Z),
    in_grid self rc -> dp_of self q rc dp ->
    climb fuel self q dp rc
      (map (dp_at self q) (neighbors_of self (fst rc) (snd rc)))
      (neighbors_of self (fst rc) (snd rc)) = Some (Ok rc') ->
    in_grid self rc' /\ stopped self q rc' /\
    (rc' = rc \/ fltb dp (dp_at self q rc') = true).
Proof.
  induction fuel as [|fuel IH]; intros dp rc rc' Hrc Hdp Hclimb;
    destruct (py_max (map (dp_at self q) (neighbors_of self (fst rc) (snd rc))))
      as [m|e] eqn:Emax.
  - destruct (fltb dp m) eqn:Hm.
    + destruct (climb_step_move self q shape rc dp m Hrc Emax Hm)
        as (rc1 & Estep & _).
      simpl in Hclimb. rewrite Estep in Hclimb. discriminate.
    + simpl in Hclimb. rewrite (climb_step_stop self q _ _ _ _ Emax Hm) in Hclimb.
      injection Hclimb as <-. repeat split; try apply Hrc; [|now left].
      exists dp, m. auto.
  - simpl in Hclimb. unfold climb_step in Hclimb. rewrite Emax in Hclimb.
    discriminate.
  - destruct (fltb dp m) eqn:Hm.
    + destruct (climb_step_move self q shape rc dp m Hrc Emax Hm)
        as (rc1 & Estep & Hin & Hdp1).
      simpl in Hclimb. rewrite Estep in Hclimb.
      assert (Hrc1 : in_grid self rc1) by (eapply neighbors_in_grid; eauto).
      destruct (IH m rc1 rc' Hrc1 Hdp1 Hclimb) as (Hg & Hs & Hbetter).
      repeat split; try apply Hg; [assumption|]. right.
      destruct Hbetter as [-> | Hlt].
      * now rewrite <- (dp_of_ltb_r self q rc1 m dp Hdp1).
      * eapply ltb_trans; eauto.
    + simpl in Hclimb. rewrite (climb_step_stop self q _ _ _ _ Emax Hm) in Hclimb.
      injection Hclimb as <-. repeat split; try apply Hrc; [|now left].
      exists dp, m. auto.
  - simpl in Hclimb. unfold climb_step in Hclimb. rewrite Emax in Hclimb.
    discriminate.
Qed.

(** A call that returns: it started on the saved pixel, drew no random
    number, saved the pixel it returns and changed nothing else. *)
Lemma find_closest_Ok (fuel : nat) (rnd rnd' : list Z) (row col r c : Z)
    (self' : DomeProjection) :
  let start := (_projector_pixel_row self, _projector_pixel_col self) in
  in_grid self start ->
  np_get2 (_camera_view_directions self) row col = Ok q ->
  _find_closest_projector_pixel fuel self rnd row col
    = Some (Ok (r, c, self', rnd')) ->
  self' = with_saved_pixel self r c /\ rnd' = rnd /\
  in_grid self (r, c) /\ stopped self q (r, c) /\
  ((r, c) = start \/ fltb (dp_at self q start) (dp_at self q (r, c)) = true).
Proof.
  intros start Hstart Hq Hcall. unfold _find_closest_projector_pixel in Hcall.
  rewrite Hq in Hcall.
  destruct (find_masked_pixel fuel self rnd (_projector_pixel_row self)
              (_projector_pixel_col self)) as [[[[r0 c0] rnd0]|e]|] eqn:Efind;
    try discriminate.
  apply find_masked_pixel_Ok in Efind. destruct Efind as (-> & -> & -> & _).
  pose proof (np_get2_cell self shape start Hstart) as Hcell.
  subst start. simpl in Hcell. rewrite Hcell in Hcall.
  rewrite (calc_neighbor_dot_products_eq self q shape) in Hcall.
  destruct (climb fuel self q _ _ _ _) as [[[r1 c1]|e]|] eqn:Eclimb in Hcall;
    try discriminate.
  injection Hcall as <- <- <- <-.
  destruct (climb_result fuel _ _ (r1, c1) Hstart (or_introl eq_refl) Eclimb)
    as (Hg & Hs & Hb).
  auto.
Qed.

End SearchResults.

(** X8: the search never returns a pixel worse than the one it started from.
    When [_find_closest_projector_pixel] returns [[r, c]], that pixel lies in
    the projector grid and either is the saved pixel the search started on or
    has a strictly larger dot product with the camera direction; the call
    consumed no random number and changed only the saved pixel. *)
Theorem search_result_is_the_start_or_strictly_better
    {F : Type} {AR : Arith F} {L : ArithLaws F}
    (self self' : DomeProjection (F := F)) (q : vec3 F)
    (fuel : nat) (rnd rnd' : list Z) (row col r c : Z) :
  let H := projector_pixel_height (params self) in
  let W := projector_pixel_width (params self) in
  let start := (_projector_pixel_row self, _projector_pixel_col self) in
  grid_shape H W (_animal_view_directions self) ->
  in_grid self start ->
  np_get2 (_camera_view_directions self) row col = Ok q ->
  _find_closest_projector_pixel fuel self rnd row col
    = Some (Ok (r, c, self', rnd')) ->
  in_grid self (r, c) /\
  ((r, c) = start \/ fltb (dp_at self q start) (dp_at self q (r, c)) = true) /\
  self' = with_saved_pixel self r c /\ rnd' = rnd.
Proof.
  intros H W start shape Hstart Hq Hcall.
  destruct (find_closest_Ok self q shape fuel rnd rnd' row col r c self'
              Hstart Hq Hcall) as (Hs' & Hrnd & Hg & _ & Hb).
  auto.
Qed.

Lemma search_result_is_the_start_or_strictly_better_witness :
  exists self self' q r c,
    __init__ FloatLibm0 (reference_config 4 4 0.215 0.603) = Ok self /\
    np_get2 (_camera_view_directions self) 0 0 = Ok q /\
    _find_closest_projector_pixel 16 self [] 0 0 = Some (Ok (r, c, self', [])) /\
    in_grid self (r, c) /\
    ((r, c) = (_projector_pixel_row self, _projector_pixel_col self) \/
     fltb (dp_at self q (_projector_pixel_row self, _projector_pixel_col self))
          (dp_at self q (r, c)) = true).
Proof.
  destruct (__init__ FloatLibm0 (reference_config 4 4 0.215 0.603)) as [self|e] eqn:E;
    [|vm_compute in E; discriminate].
  assert (Hs := E). vm_compute in Hs. injection Hs as Hs.
  destruct (np_get2 (_camera_view_directions self) 0 0) as [q|e] eqn:Eq;
    [|subst self; vm_compute in Eq; discriminate].
  destruct (_find_closest_projector_pixel 16 self [] 0 0)
    as [[[[[r c] self'] rnd']|e]|] eqn:Ecall;
    [|subst self; vm_compute in Ecall; discriminate
     |subst self; vm_compute in Ecall; discriminate].
  assert (Hshape : grid_shape (projector_pixel_height (params self))
                     (projector_pixel_width (params self))
                     (_animal_view_directions self)).
  { subst self. vm_compute. split; [reflexivity|]. repeat constructor. }
  assert (Hstart : in_grid self (_projector_pixel_row self, _projector_pixel_col self)).
  { subst self. vm_compute. repeat split; congruence. }
  destruct (search_result_is_the_start_or_strictly_better self self' q 16 [] rnd'
              0 0 r c Hshape Hstart Eq Ecall) as (Hg & Hb & _ & ->).
  exists self, self', q, r, c.
  split; [reflexivity|]. split; [exact Eq|]. split; [exact Ecall|].
  split; [exact Hg | exact Hb].
Defined.

(** X9: asking again gives the same answer.  After a call that returned
    [[r, c]], a pixel whose mask is not 0, a second call for the same OpenGL
    pixel starts on [[r, c]], finds no better neighbor and returns [[r, c]]
    at once, whatever the random stream; the object is left as the first call
    left it. *)
Theorem repeated_query_returns_the_same_pixel
    {F : Type} {AR : Arith F} {L : ArithLaws F}
    (self self' : DomeProjection (F := F))
    (fuel : nat) (rnd rnd' : list Z) (row col r c m : Z) :
  let H := projector_pixel_height (params self) in
  let W := projector_pixel_width (params self) in
  let start := (_projector_pixel_row self, _projector_pixel_col self) in
  grid_shape H W (_animal_view_directions self) ->
  in_grid self start ->
  _find_closest_projector_pixel fuel self rnd row col
    = Some (Ok (r, c, self', rnd')) ->
  np_get2 (_projector_mask self) r c = Ok m -> m <> 0%Z ->
  forall (fuel2 : nat) (rnd2 : list Z),
    _find_closest_projector_pixel fuel2 self' rnd2 row col
      = Some (Ok (r, c, self', rnd2)).
Proof.
  intros H W start shape Hstart Hcall Hm Hne fuel2 rnd2.
  destruct (np_get2 (_camera_view_directions self) row col) as [q|e] eqn:Hq.
  2:{ unfold _find_closest_projector_pixel in Hcall. rewrite Hq in Hcall.
      discriminate. }
  destruct (find_closest_Ok self q shape fuel rnd rnd' row col r c self'
              Hstart Hq Hcall) as (-> & _ & Hg & (dp & mx & Hdp & Hmax & Hlt) & _).
  set (s2 := with_saved_pixel self r c).
  assert (shape2 : grid_shape (projector_pixel_height (params s2))
                     (projector_pixel_width (params s2))
                     (_animal_view_directions s2)) by exact shape.
  assert (Hg2 : in_grid s2 (r, c)) by exact Hg.
  unfold _find_closest_projector_pixel.
  change (_camera_view_directions s2) with (_camera_view_directions self).
  rewrite Hq.
  change (_projector_pixel_row s2) with r.
  change (_projector_pixel_col s2) with c.
  rewrite (find_masked_pixel_start s2 fuel2 rnd2 r c m Hm Hne).
  pose proof (np_get2_cell s2 shape2 (r, c) Hg2) as Hcell.
  cbn [fst snd] in Hcell. rewrite Hcell.
  rewrite (calc_neighbor_dot_products_eq s2 q shape2).
  assert (Hstop : climb_step s2 q (dot q (cell s2 (r, c)))
                    (map (dp_at s2 q) (neighbors_of s2 r c))
                    (neighbors_of s2 r c) = Ok None).
  { apply (climb_step_stop s2 q _ _ _ mx); [exact Hmax|].
    rewrite <- Hlt. symmetry. exact (dp_of_ltb_l self q (r, c) dp mx Hdp). }
  destruct fuel2; simpl; rewrite Hstop; reflexivity.
Qed.

Lemma repeated_query_returns_the_same_pixel_witness :
  exists self self' r c,
    __init__ FloatLibm0 (reference_config 4 4 0.215 0.603) = Ok self /\
    _find_closest_projector_pixel 16 self [] 0 0 = Some (Ok (r, c, self', [])) /\
    _find_closest_projector_pixel 0 self' [5; 9]%Z 0 0
      = Some (Ok (r, c, self', [5; 9]%Z)).
Proof.
  destruct (__init__ FloatLibm0 (reference_config 4 4 0.215 0.603)) as [self|e] eqn:E;
    [|vm_compute in E; discriminate].
  assert (Hs := E). vm_compute in Hs. injection Hs as Hs.
  destruct (_find_closest_projector_pixel 16 self [] 0 0)
    as [[[[[r c] self'] rnd']|e]|] eqn:Ecall;
    [|subst self; vm_compute in Ecall; discriminate
     |subst self; vm_compute in Ecall; discriminate].
  assert (Hshape : grid_shape (projector_pixel_height (params self))
                     (projector_pixel_width (params self))
                     (_animal_view_directions self)).
  { subst self. vm_compute. split; [reflexivity|]. repeat constructor. }
  assert (Hstart : in_grid self (_projector_pixel_row self, _projector_pixel_col self)).
  { subst self. vm_compute. repeat split; congruence. }
  assert (Hmask : np_get2 (_projector_mask self) r c = Ok 1%Z /\ rnd' = []).
  { subst self. vm_compute in Ecall. injection Ecall as <- <- _ <-.
    split; reflexivity. }
  destruct Hmask as (Hmask & ->).
  exists self, self', r, c. split; [reflexivity|]. split; [exact Ecall|].
  apply (repeated_query_returns_the_same_pixel self self' 16 [] [] 0 0 r c 1
           Hshape Hstart Ecall Hmask).
  discriminate.
Defined.

(** ** The nearest OpenGL screen *)

Section NearestScreen.
Context {F : Type} {AR : Arith F} {L : ArithLaws F}.

Lemma ltb_asym (x y : F) : fltb x y = true -> fltb y x = false.
Proof.
  intros H. destruct (fltb y x) eqn:E; [|reflexivity].
  pose proof (ltb_trans _ _ _ H E) as Hxx. rewrite ltb_irrefl in Hxx. discriminate.
Qed.

Lemma nearest_screen_best (direction : vec3 F) (dts : list (vec3 F)) :
  forall (screens : list Z) (screen0 : Z) (best0 : F) (screen : Z) (best : F),
    nearest_screen direction dts screens screen0 best0 = Ok (screen, best) ->
    (forall i d, In i screens -> py_index dts i = Ok d ->
                 fltb best (dot direction d) = false) /\
    ((screen = screen0 /\ best = best0) \/
     (In screen screens /\
      exists d, py_index dts screen = Ok d /\ best = dot direction d /\
                fltb best0 best = true)).
Proof.
  induction screens as [|i screens IH]; intros screen0 best0 screen best H.
  - simpl in H. injection H as <- <-. split; [intros i d []|now left].
  - simpl in H. apply bind_Ok in H. destruct H as (d & Hd & H).
    destruct (fltb best0 (dot direction d)) eqn:Hlt.
    + destruct (IH _ _ _ _ H) as (Hall & Hres). split.
      * intros j d' [<- | Hj] Hd'.
        -- rewrite Hd in Hd'. injection Hd' as <-.
           destruct Hres as [(_ & ->) | (_ & d2 & _ & _ & Hlt2)].
           ++ apply ltb_irrefl.
           ++ now apply ltb_asym.
        -- eauto.
      * right. destruct Hres as [(-> & ->) | (Hin & d2 & Hd2 & -> & Hlt2)].
        -- split; [now left|]. exists d. auto.
        -- split; [now right|]. exists d2. repeat split; try assumption.
           eapply ltb_trans; eauto.
    + destruct (IH _ _ _ _ H) as (Hall & Hres). split.
      * intros j d' [<- | Hj] Hd'.
        -- rewrite Hd in Hd'. injection Hd' as <-.
           destruct Hres as [(_ & ->) | (_ & d2 & _ & _ & Hlt2)]; [assumption|].
           destruct (fltb best (dot direction d)) eqn:E; [|reflexivity].
           rewrite (ltb_trans _ _ _ Hlt2 E) in Hlt. discriminate.
        -- eauto.
      * destruct Hres as [Hsame | (Hin & Hex)]; [now left|].
        right. split; [now right | assumption].
Qed.

End NearestScreen.

(** X10: the screen a direction is looked up on.  The loop over the screens
    returns a dot product that no screen exceeds; it is either the initial 0
    with screen 0, when no screen has a positive dot product with the
    direction, or the dot product of the returned screen, which is then
    positive. *)
Theorem nearest_screen_has_the_largest_dot_product
    {F : Type} {AR : Arith F} {L : ArithLaws F}
    (direction : vec3 F) (dts : list (vec3 F)) (screens : list Z)
    (screen : Z) (best : F) :
  nearest_screen direction dts screens 0 fzero = Ok (screen, best) ->
  (forall i d, In i screens -> py_index dts i = Ok d ->
               fltb best (dot direction d) = false) /\
  ((screen = 0%Z /\ best = fzero /\
    forall i d, In i screens -> py_index dts i = Ok d ->
                fltb fzero (dot direction d) = false) \/
   (In screen screens /\
    exists d, py_index dts screen = Ok d /\ best = dot direction d /\
              fltb fzero best = true)).
Proof.
  intros H. destruct (nearest_screen_best direction dts _ _ _ _ _ H) as (Hall & Hres).
  split; [exact Hall|].
  destruct Hres as [(-> & ->) | Hres]; [left | right; exact Hres].
  repeat split. exact Hall.
Qed.

Lemma nearest_screen_has_the_largest_dot_product_witness :
  let direction := Vec3 0%float 1%float 0%float in
  let dts := [Vec3 1%float 0%float 0%float; Vec3 0%float 1%float 0%float;
              Vec3 (-1)%float 0%float 0%float] in
  nearest_screen direction dts [0; 1; 2]%Z 0 fzero = Ok (1%Z, 1%float) /\
  forall i d, In i [0; 1; 2]%Z -> py_index dts i = Ok d ->
              fltb 1%float (dot direction d) = false.
Proof.
  intros direction dts.
  assert (H : nearest_screen direction dts [0; 1; 2]%Z 0 fzero = Ok (1%Z, 1%float))
    by (vm_compute; reflexivity).
  split; [exact H|].
  exact (proj1 (nearest_screen_has_the_largest_dot_product direction dts _ _ _ H)).
Defined.

(** ** Configurations the constructor refuses *)

Section InitErrors.
Context {F : Type} {AR : Arith F}.

Lemma screen_vectors_Raise (M : Libm F) (cfg : Config) (yaws pitches rolls : list F)
    (screen : Z) (e : string) :
  screen_vectors M cfg yaws pitches rolls screen = Raise e -> e = IndexError.
Proof.
  unfold screen_vectors. intros H.
  apply bind_Raise in H. destruct H as [H | (y & _ & H)];
    [eapply py_index_Raise; eauto|].
  apply bind_Raise in H. destruct H as [H | (pt & _ & H)];
    [eapply py_index_Raise; eauto|].
  apply bind_Raise in H. destruct H as [H | (rl & _ & H)];
    [eapply py_index_Raise; eauto|].
  apply bind_Raise in H. destruct H as [H | (d & _ & H)];
    [eapply py_index_Raise; eauto | discriminate].
Qed.

Lemma py_index_beyond {A : Type} (l : list A) (i : Z) :
  (Z.of_nat (List.length l) <= i)%Z -> py_index l i = Raise IndexError.
Proof.
  intros H. destruct (py_index l i) as [a|e] eqn:E.
  - apply py_index_Ok_inv in E; lia.
  - f_equal. eapply py_index_Raise; eauto.
Qed.

Lemma screen_vectors_short (M : Libm F) (cfg : Config) (yaws pitches rolls : list F)
    (screen : Z) :
  (Z.of_nat (List.length yaws) <= screen \/
   Z.of_nat (List.length pitches) <= screen \/
   Z.of_nat (List.length rolls) <= screen)%Z ->
  screen_vectors M cfg yaws pitches rolls screen = Raise IndexError.
Proof.
  intros H.
  destruct (screen_vectors M cfg yaws pitches rolls screen) as [v|e] eqn:E.
  - exfalso. unfold screen_vectors in E.
    apply bind_Ok in E. destruct E as (y & Hy & E).
    apply bind_Ok in E. destruct E as (pt & Hpt & E).
    apply bind_Ok in E. destruct E as (rl & Hrl & E).
    destruct H as [H | [H | H]].
    + rewrite (py_index_beyond _ _ H) in Hy. discriminate.
    + rewrite (py_index_beyond _ _ H) in Hpt. discriminate.
    + rewrite (py_index_beyond _ _ H) in Hrl. discriminate.
  - f_equal. eapply screen_vectors_Raise; eauto.
Qed.

End InitErrors.

(** X11: configurations [__init__] refuses.  With no screen at all, or with
    fewer yaw, pitch or roll angles than screens, the constructor raises
    [IndexError]. *)
Theorem init_without_a_screen_or_an_angle_raises_IndexError
    {F : Type} {AR : Arith F} (M : Libm F) (cfg : Config) :
  (distance_to_screen cfg = [] \/
   List.length (yaw cfg) < List.length (distance_to_screen cfg) \/
   List.length (pitch cfg) < List.length (distance_to_screen cfg) \/
   List.length (roll cfg) < List.length (distance_to_screen cfg))%nat ->
  __init__ M cfg = Raise IndexError.
Proof.
  intros H. unfold __init__.
  set (n := List.length (distance_to_screen cfg)).
  destruct (mapM (screen_vectors M cfg (map (radians M) (yaw cfg))
                    (map (radians M) (pitch cfg)) (map (radians M) (roll cfg)))
              (range (Z.of_nat n))) as [vectors|e] eqn:Evec.
  - simpl. destruct H as [Hnil | Hshort].
    + rewrite Hnil.
      destruct (py_index (screen_height cfg) 0) as [sh0|e] eqn:E0; simpl;
        [|f_equal; eapply py_index_Raise; eauto].
      destruct (py_index (screen_width cfg) 0) as [sw0|e] eqn:E1; simpl;
        [|f_equal; eapply py_index_Raise; eauto].
      destruct (py_index (image_pixel_height cfg) 0) as [ih0|e] eqn:E2; simpl;
        [|f_equal; eapply py_index_Raise; eauto].
      destruct (py_index (image_pixel_width cfg) 0) as [iw0|e] eqn:E3; simpl;
        [|f_equal; eapply py_index_Raise; eauto].
      reflexivity.
    + exfalso.
      set (k := Nat.min (List.length (yaw cfg))
                  (Nat.min (List.length (pitch cfg)) (List.length (roll cfg)))).
      assert (Hk : (k < n)%nat) by (unfold k, n; lia).
      assert (Hin : In (Z.of_nat k) (range (Z.of_nat n))) by (apply in_range; lia).
      destruct (mapM_Ok_In _ _ _ Evec _ Hin) as (v & Hv).
      rewrite screen_vectors_short in Hv; [discriminate|].
      rewrite !length_map. unfold k. lia.
  - simpl. f_equal. apply mapM_Raise_inv in Evec.
    destruct Evec as (i & _ & Ei). eapply screen_vectors_Raise; eauto.
Qed.

Lemma init_without_a_screen_or_an_angle_raises_IndexError_witness :
  __init__ FloatLibm0
    {| screen_height := [1%float]; screen_width := [1%float];
       distance_to_screen := [1%float];
       pitch := [0%float]; yaw := []; roll := [0%float];
       image_pixel_height := [4%Z]; image_pixel_width := [4%Z];
       projector_pixel_height := 4; projector_pixel_width := 4;
       first_projector_image := []; second_projector_image := [];
       mirror_radius := 1%float; dome_center := Vec3 0%float 0%float 0%float;
       dome_radius := 2%float; animal_position := Vec3 0%float 0%float 0%float |}
  = Raise IndexError.
Proof.
  apply init_without_a_screen_or_an_angle_raises_IndexError.
  right. left. simpl. lia.
Defined.

(** ** The exceptions of the warp and of the search *)

(** Splits a hypothesis [H : ... = Raise e] along the binds and the tests
    of the program, down to the call that raised. *)
Ltac raise_inv H :=
  repeat match type of H with
  | bind _ _ = Raise _ =>
      apply bind_Raise in H; destruct H as [H | (? & _ & H)]
  | (if ?b then _ else _) = Raise _ => destruct b
  | (let '(_, _) := ?p in _) = Raise _ => destruct p
  | Ok _ = Raise _ => discriminate H
  end.

Section Exceptions.
Context {F : Type} {AR : Arith F}.

Lemma np_get2_Raise {A : Type} (g : list (list A)) (r c : Z) (e : string) :
  np_get2 g r c = Raise e -> e = IndexError.
Proof.
  unfold np_get2. intros H. raise_inv H; eapply py_index_Raise; eauto.
Qed.

Lemma calc_neighbor_dot_products_Raise (self : DomeProjection (F := F))
    (row col : Z) (q : vec3 F) (e : string) :
  _calc_neighbor_dot_products self row col q = Raise e -> e = IndexError.
Proof.
  unfold _calc_neighbor_dot_products. intros H. raise_inv H.
  apply mapM_Raise_inv in H. destruct H as (n & _ & H). raise_inv H.
  eapply np_get2_Raise; eassumption.
Qed.

Lemma py_list_index_Raise (l : list F) (x : F) (e : string) :
  py_list_index l x = Raise e -> e = ValueError.
Proof.
  induction l as [|y l IH]; simpl; [now intros [= <-]|].
  destruct (feqb y x); [discriminate|]. intros H. raise_inv H. auto.
Qed.

Lemma climb_step_Raise (self : DomeProjection (F := F)) (q : vec3 F) (dp : F)
    (dps : list F) (ns : list (Z * Z)) (e : string) :
  climb_step self q dp dps ns = Raise e -> e = IndexError \/ e = ValueError.
Proof.
  unfold climb_step. intros H. raise_inv H.
  - right. destruct dps; [now injection H as <- | discriminate].
  - right. eapply py_list_index_Raise; eassumption.
  - left. eapply py_index_Raise; eassumption.
  - left. eapply calc_neighbor_dot_products_Raise; eassumption.
Qed.

Lemma climb_Raise (self : DomeProjection (F := F)) (q : vec3 F) (e : string) :
  forall (fuel : nat) (dp : F) (rc : Z * Z) (dps : list F) (ns : list (Z * Z)),
    climb fuel self q dp rc dps ns = Some (Raise e) ->
    e = IndexError \/ e = ValueError.
Proof.
  induction fuel as [|fuel IH]; intros dp rc dps ns H; simpl in H;
    destruct (climb_step self q dp dps ns) as [[[[dp' rc'] [dps' ns']]|]|e'] eqn:E;
    try discriminate;
    try (injection H as <-; eapply climb_step_Raise; eassumption).
  eapply IH; eassumption.
Qed.

Lemma find_masked_pixel_Raise (self : DomeProjection (F := F)) (e : string) :
  forall (fuel : nat) (rnd : list Z) (r c : Z),
    find_masked_pixel fuel self rnd r c = Some (Raise e) ->
    e = IndexError \/ e = TypeError.
Proof.
  intros fuel rnd r c H.
  destruct fuel; simpl in H;
    destruct (np_get2 (_projector_mask self) r c) as [m|e'] eqn:E;
    try (injection H as <-; left; eapply np_get2_Raise; eassumption);
    destruct (m =? 0)%Z; try discriminate.
  injection H as <-. now right.
Qed.

End Exceptions.

(** X12: the exceptions of the warp.  For an object built by [__init__] with
    a projector of at least one pixel, and RGB images, [warp_image_for_dome]
    raises nothing but [AssertionError] (an image of the wrong size) and
    [IndexError] (more images than screens, a table entry without its image,
    or a float coordinate that truncates outside the image). *)
Theorem warp_raises_only_AssertionError_or_IndexError
    {F : Type} {AR : Arith F} (M : Libm F) (cfg : Config)
    (self : DomeProjection (F := F)) (images : list Image) (e : string) :
  __init__ M cfg = Ok self ->
  (1 <= projector_pixel_height cfg)%Z ->
  (1 <= projector_pixel_width cfg)%Z ->
  warp_image_for_dome self images = Raise e ->
  e = AssertionError \/ e = IndexError.
Proof.
  intros _ _ _. unfold warp_image_for_dome. intros H. raise_inv H.
  - apply mapM_Raise_inv in H. destruct H as (ii & _ & H).
    destruct (check_image_Raise _ _ _ H); auto.
  - right. apply mapM_Raise_inv in H. destruct H as (row & _ & H).
    apply mapM_Raise_inv in H. destruct H as (col & _ & H). raise_inv H;
      first [ eapply py_index_Raise; eassumption
            | eapply warp_pixel_Raise; eassumption ].
Qed.

Lemma warp_raises_only_AssertionError_or_IndexError_witness :
  exists self e,
    __init__ FloatLibm0 (reference_config 4 4 0.215 0.603) = Ok self /\
    warp_image_for_dome self
      [{| size := (4, 4)%Z; pixel_data := fun _ _ => Vec3 0 0 0 |};
       {| size := (4, 4)%Z; pixel_data := fun _ _ => Vec3 0 0 0 |}]%Z = Raise e /\
    (e = AssertionError \/ e = IndexError).
Proof.
  assert (Hh : (1 <= projector_pixel_height (reference_config 4 4 0.215 0.603))%Z)
    by (simpl; lia).
  assert (Hw : (1 <= projector_pixel_width (reference_config 4 4 0.215 0.603))%Z)
    by (simpl; lia).
  destruct (__init__ FloatLibm0 (reference_config 4 4 0.215 0.603)) as [self|e] eqn:E;
    [|vm_compute in E; discriminate].
  assert (Hs := E). vm_compute in Hs. injection Hs as Hs.
  destruct (warp_image_for_dome self
      [{| size := (4, 4)%Z; pixel_data := fun _ _ => Vec3 0 0 0 |};
       {| size := (4, 4)%Z; pixel_data := fun _ _ => Vec3 0 0 0 |}]%Z)
    as [out|e] eqn:Ew; [subst self; vm_compute in Ew; discriminate|].
  exists self, e. split; [reflexivity|]. split; [exact Ew|].
  exact (warp_raises_only_AssertionError_or_IndexError FloatLibm0 _ self _ e
           E Hh Hw Ew).
Defined.

(** X13: the exceptions of the search.  When [_find_closest_projector_pixel]
    raises, it is [IndexError] (the OpenGL pixel or the saved pixel outside
    its array), [TypeError] (the call of [randint]) or [ValueError] ([max] of
    the empty neighbor list of a 1x1 grid). *)
Theorem search_raises_only_three_exceptions
    {F : Type} {AR : Arith F}
    (self : DomeProjection (F := F)) (fuel : nat) (rnd : list Z) (row col : Z)
    (e : string) :
  _find_closest_projector_pixel fuel self rnd row col = Some (Raise e) ->
  e = IndexError \/ e = TypeError \/ e = ValueError.
Proof.
  unfold _find_closest_projector_pixel. intros H.
  destruct (np_get2 (_camera_view_directions self) row col) as [q|e0] eqn:Eq;
    [|injection H as <-; left; eapply np_get2_Raise; eassumption].
  destruct (find_masked_pixel fuel self rnd (_projector_pixel_row self)
              (_projector_pixel_col self)) as [[[[r c] rnd']|e0]|] eqn:Efind;
    [| injection H as <-;
       destruct (find_masked_pixel_Raise _ _ _ _ _ _ Efind) as [-> | ->]; auto
     | discriminate].
  destruct (np_get2 (_animal_view_directions self) r c) as [a|e0] eqn:Ea;
    [|injection H as <-; left; eapply np_get2_Raise; eassumption].
  destruct (_calc_neighbor_dot_products self r c q) as [[dps ns]|e0] eqn:En;
    [|injection H as <-; left; eapply calc_neighbor_dot_products_Raise; eassumption].
  destruct (climb fuel self q (dot q a) (r, c) dps ns) as [[[r1 c1]|e0]|] eqn:Ec;
    try discriminate.
  injection H as <-.
  destruct (climb_Raise _ _ _ _ _ _ _ _ Ec) as [-> | ->]; auto.
Qed.

Lemma search_raises_only_three_exceptions_witness :
  exists self e,
    __init__ FloatLibm0 (reference_config 4 4 0.215 0.603) = Ok self /\
    _find_closest_projector_pixel 16 self [] 9 9 = Some (Raise e) /\
    (e = IndexError \/ e = TypeError \/ e = ValueError).
Proof.
  destruct (__init__ FloatLibm0 (reference_config 4 4 0.215 0.603)) as [self|e] eqn:E;
    [|vm_compute in E; discriminate].
  assert (Hs := E). vm_compute in Hs. injection Hs as Hs.
  destruct (_find_closest_projector_pixel 16 self [] 9 9) as [[v|e]|] eqn:Ecall;
    [subst self; vm_compute in Ecall; discriminate
    | | subst self; vm_compute in Ecall; discriminate].
  exists self, e. split; [reflexivity|]. split; [exact Ecall|].
  exact (search_raises_only_three_exceptions self 16 [] 9 9 e Ecall).
Defined.

(** ** The screens of the constructor *)

Section ScreenBasis.
Local Open Scope R_scope.

Lemma dot_cross_l (a b : vec3 R) : dot (cross a b) a = 0.
Proof. unfold dot, cross. simpl. ring. Qed.

Lemma dot_vdiv_l (v a : vec3 R) (n : R) : dot (vdiv v n) a = dot v a / n.
Proof. unfold dot, vdiv, Rdiv. simpl. unfold Rdiv. ring. Qed.

Lemma dot_cross_r (a b : vec3 R) : dot (cross a b) b = 0.
Proof. unfold dot, cross. simpl. ring. Qed.

Lemma vdiv_zero (v : vec3 R) : vdiv v (norm v) <> vzero -> v <> vzero.
Proof.
  intros H E. apply H. rewrite E. unfold vdiv, vzero. simpl.
  unfold Rdiv. now rewrite !Rmult_0_l.
Qed.

(** X15: the basis of a screen.  The row and column vectors [__init__]
    computes for a screen are perpendicular to the vector to the screen and
    to each other, and each is a unit vector unless it is zero.  (Exact
    arithmetic.) *)
Theorem screen_row_and_column_vectors_are_orthonormal
    (M : Libm R) (cfg : Config (F := R)) (yaws pitches rolls : list R)
    (screen : Z) (vts rv cv : vec3 R) :
  screen_vectors M cfg yaws pitches rolls screen = Ok (vts, rv, cv) ->
  dot cv vts = 0 /\ dot rv vts = 0 /\ dot rv cv = 0 /\
  (cv <> vzero -> norm cv = 1) /\ (rv <> vzero -> norm rv = 1).
Proof.
  unfold screen_vectors. intros H.
  apply bind_Ok in H. destruct H as (yaw_ & _ & H).
  apply bind_Ok in H. destruct H as (pitch_ & _ & H).
  apply bind_Ok in H. destruct H as (roll_ & _ & H).
  apply bind_Ok in H. destruct H as (d & _ & H).
  cbv zeta in H. injection H as <- <- <-.
  set (v := Vec3 (d * sin M yaw_ * cos M pitch_)%A (d * cos M yaw_ * cos M pitch_)%A
                 (d * sin M pitch_)%A).
  set (w := cross v (Vec3 (sin M roll_ * cos M yaw_)%A (sin M roll_ * sin M yaw_)%A
                          (cos M roll_))).
  set (c := vdiv w (norm w)).
  set (u := cross v c).
  repeat split.
  - unfold c. rewrite dot_vdiv_l. unfold w. rewrite dot_cross_l.
    unfold Rdiv. ring.
  - rewrite dot_vdiv_l. unfold u. rewrite dot_cross_l. unfold Rdiv. ring.
  - rewrite dot_vdiv_l. unfold u. rewrite dot_cross_r. unfold Rdiv. ring.
  - intros Hc. apply norm_normalized. now apply vdiv_zero.
  - intros Hr. apply norm_normalized. now apply vdiv_zero.
Qed.

Lemma screen_row_and_column_vectors_are_orthonormal_witness :
  let cfg : Config (F := R) :=
    {| screen_height := [1]; screen_width := [1]; distance_to_screen := [2];
       pitch := [0]; yaw := [0]; roll := [0];
       image_pixel_height := [4%Z]; image_pixel_width := [4%Z];
       projector_pixel_height := 2; projector_pixel_width := 2;
       first_projector_image := []; second_projector_image := [];
       mirror_radius := 1; dome_center := Vec3 0 0 0;
       dome_radius := 2; animal_position := Vec3 0 0 0 |} in
  exists vts rv cv,
    screen_vectors RealLibm cfg [0] [0] [0] 0 = Ok (vts, rv, cv) /\
    dot rv cv = 0.
Proof.
  intros cfg.
  destruct (screen_vectors RealLibm cfg [0] [0] [0] 0) as [[[vts rv] cv]|e] eqn:E;
    [|discriminate].
  exists vts, rv, cv. split; [reflexivity|].
  exact (proj1 (proj2 (proj2
    (screen_row_and_column_vectors_are_orthonormal RealLibm cfg [0] [0] [0] 0
       vts rv cv E)))).
Defined.

End ScreenBasis.

Section ExactGeometry.
Local Open Scope R_scope.

(** ** The focal point in exact arithmetic *)

(** X16: when the two quads are at different distances and the two lines are
    not parallel, [_calc_projector_focal_point] returns the point [(0, y, z)]
    where the line through [(y1, upper_z1)] and [(y2, upper_z2)] crosses the
    line through [(y1, lower_z1)] and [(y2, lower_z2)].  (Exact
    arithmetic.) *)
Theorem focal_point_is_where_the_two_lines_cross
    (first_projector_image second_projector_image : list (vec3 R))
    (f0 f2 s0 s2 : vec3 R) :
  py_index first_projector_image 0 = Ok f0 ->
  py_index first_projector_image 2 = Ok f2 ->
  py_index second_projector_image 0 = Ok s0 ->
  py_index second_projector_image 2 = Ok s2 ->
  vy f0 <> vy s0 ->
  ~ lines_parallel f0 f2 s0 s2 ->
  exists y z,
    _calc_projector_focal_point first_projector_image second_projector_image
      = Ok (Vec3 0 y z) /\
    (z - vz f0) * (vy s0 - vy f0) = (vz s0 - vz f0) * (y - vy f0) /\
    (z - vz f2) * (vy s0 - vy f0) = (vz s2 - vz f2) * (y - vy f0).
Proof.
  intros Hf0 Hf2 Hs0 Hs2 Hy Hnp. unfold lines_parallel in Hnp.
  unfold _calc_projector_focal_point. rewrite Hf0, Hs0. simpl.
  unfold py_div. simpl.
  destruct (Reqb_spec (vy s0 - vy f0) 0) as [E | _]; [lra|].
  simpl. rewrite Hf2, Hs2. simpl.
  destruct (Reqb_spec (vy s0 - vy f0) 0) as [E | _]; [lra|].
  simpl.
  set (su := (vz s0 - vz f0) / (vy s0 - vy f0)).
  set (sl := (vz s2 - vz f2) / (vy s0 - vy f0)).
  assert (Hsu : su * (vy s0 - vy f0) = vz s0 - vz f0) by (unfold su; field; lra).
  assert (Hsl : sl * (vy s0 - vy f0) = vz s2 - vz f2) by (unfold sl; field; lra).
  destruct (linalg_solve2_regular su (- (1)) sl (- (1))
              (su * vy f0 - vz f0) (sl * vy f0 - vz f2))
    as (y & z & Hsolve & E1 & E2).
  { intros Hdet. apply Hnp. nra. }
  exists y, z. split.
  - rewrite Hsolve. reflexivity.
  - split; nra.
Qed.

Lemma focal_point_is_where_the_two_lines_cross_witness :
  exists y z,
    _calc_projector_focal_point (F := R)
      [Vec3 0 2 2; Vec3 0 2 2; Vec3 0 2 (-2); Vec3 0 2 (-2)]
      [Vec3 0 1 1; Vec3 0 1 1; Vec3 0 1 (-1); Vec3 0 1 (-1)]
    = Ok (Vec3 0 y z) /\
    (z - 2) * (1 - 2) = (1 - 2) * (y - 2) /\
    (z - -2) * (1 - 2) = (-1 - -2) * (y - 2).
Proof.
  apply (focal_point_is_where_the_two_lines_cross _ _
           (Vec3 0 2 2) (Vec3 0 2 (-2)) (Vec3 0 1 1) (Vec3 0 1 (-1)));
    try reflexivity.
  - simpl. lra.
  - unfold lines_parallel. simpl. lra.
Defined.

End ExactGeometry.

Section Optics.
Local Open Scope R_scope.

(** ** The reflection on the mirror and the way to the dome *)

(** The two roots of a quadratic with a positive leading coefficient: the
    one with [+ sqrt] is the larger. *)
Lemma greatest_root (a b c : R) :
  0 < a -> 0 <= b * b - 4 * a * c ->
  let s := R_sqrt.sqrt (b * b - 4 * a * c) in
  let r := (- b + s) / (2 * a) in
  a * r * r + b * r + c = 0 /\
  (forall r', a * r' * r' + b * r' + c = 0 -> r' <= r) /\
  (c < 0 -> 0 < r /\ (- b - s) / (2 * a) < 0) /\
  (- b - s) / (2 * a) <= r.
Proof.
  intros Ha HD s r.
  assert (Hs0 : 0 <= s) by apply R_sqrt.sqrt_pos.
  assert (Hss : s * s = b * b - 4 * a * c) by (apply R_sqrt.sqrt_sqrt; assumption).
  assert (Hr : 2 * a * r = - b + s) by (unfold r; field; lra).
  set (r2 := (- b - s) / (2 * a)).
  assert (Hr2 : 2 * a * r2 = - b - s) by (unfold r2; field; lra).
  repeat split.
  - nra.
  - intros r' E.
    assert (Hsq : (2 * a * r' + b) * (2 * a * r' + b) = s * s) by nra.
    assert (2 * a * r' + b <= s) by nra. nra.
  - assert (Hb : b * b < s * s) by nra.
    assert (Hbs : - s < b < s) by nra. nra.
  - assert (Hb : b * b < s * s) by nra.
    assert (Hbs : - s < b < s) by nra. nra.
  - nra.
Qed.

Lemma py_max2_real (x y : R) : y <= x -> py_max2 x y = x.
Proof.
  intros H. unfold py_max2. change (fltb x y) with (Rltb x y).
  destruct (Rltb_spec x y); [lra | reflexivity].
Qed.

Lemma mask_one_real (p : vec3 R) (mr : R) (pd : vec3 R) :
  0 <= mirror_d_squared p mr pd -> projector_mask_at p mr pd = 1%Z.
Proof.
  intros HD. unfold projector_mask_at.
  change (fleb fzero (mirror_d_squared p mr pd))
    with (Rleb 0 (mirror_d_squared p mr pd)).
  destruct (Rleb_spec 0 (mirror_d_squared p mr pd)); [reflexivity | lra].
Qed.

Lemma incident_real (p : vec3 R) (mr : R) (pd : vec3 R) :
  0 <= mirror_d_squared p mr pd ->
  incident_light_vector p mr pd = vscale (mirror_r p mr pd) pd.
Proof.
  intros HD. unfold incident_light_vector.
  change (fleb fzero (mirror_d_squared p mr pd))
    with (Rleb 0 (mirror_d_squared p mr pd)).
  destruct (Rleb_spec 0 (mirror_d_squared p mr pd)); [reflexivity | lra].
Qed.

(** The point of reflection lies on the mirror. *)
Lemma mirror_point_on_sphere (p : vec3 R) (mr : R) (pd : vec3 R) :
  0 < mirror_a pd -> 0 <= mirror_d_squared p mr pd ->
  dot (mirror_radius_vector p mr pd) (mirror_radius_vector p mr pd) = mr * mr.
Proof.
  intros Ha HD. unfold mirror_radius_vector. rewrite (incident_real p mr pd HD).
  pose proof (mirror_r_real p mr pd Ha HD) as Er.
  destruct (least_root (mirror_a pd) (mirror_b p pd) (mirror_c p mr) Ha HD)
    as (Hroot & _).
  cbv zeta in Hroot. rewrite <- Er in Hroot.
  revert Hroot. generalize (mirror_r p mr pd) as r. intros r Hroot.
  unfold dot, vadd, vscale, mirror_a, mirror_b, mirror_c, sq, two in *.
  simpl in *. lra.
Qed.

(** The incident vector vanishes only when the focal point is on the
    mirror. *)
Lemma incident_length (p : vec3 R) (mr : R) (pd : vec3 R) :
  0 < mirror_a pd -> 0 <= mirror_d_squared p mr pd -> mirror_c p mr <> 0 ->
  0 < dot (incident_light_vector p mr pd) (incident_light_vector p mr pd).
Proof.
  intros Ha HD Hc. rewrite (incident_real p mr pd HD).
  pose proof (mirror_r_real p mr pd Ha HD) as Er.
  destruct (least_root (mirror_a pd) (mirror_b p pd) (mirror_c p mr) Ha HD)
    as (Hroot & _).
  cbv zeta in Hroot. rewrite <- Er in Hroot.
  revert Hroot. generalize (mirror_r p mr pd) as r. intros r Hroot.
  assert (Hr : r <> 0).
  { intros ->. apply Hc. lra. }
  assert (Hlen : dot (vscale r pd) (vscale r pd) = r * r * mirror_a pd).
  { unfold dot, vscale, mirror_a, sq. simpl. ring. }
  rewrite Hlen. assert (0 < r * r) by nra. nra.
Qed.

(** The algebra of [v = -2 (i . u) u + i] for a unit [u]. *)
Lemma reflect_unit (i u : vec3 R) :
  dot u u = 1 ->
  let v := vadd (vscale (of_Z (-2) * dot i u) u) i in
  dot v u = - dot i u /\ dot v v = dot i i.
Proof.
  destruct i as [ix iy iz], u as [ux uy uz]. unfold dot, vadd, vscale. simpl.
  intros Hu. set (d := ix * ux + iy * uy + iz * uz).
  split.
  - replace ((-2 * d * ux + ix) * ux + (-2 * d * uy + iy) * uy
             + (-2 * d * uz + iz) * uz)
      with (-2 * d * (ux * ux + uy * uy + uz * uz) + d) by (unfold d; ring).
    rewrite Hu. ring.
  - replace ((-2 * d * ux + ix) * (-2 * d * ux + ix)
             + (-2 * d * uy + iy) * (-2 * d * uy + iy)
             + (-2 * d * uz + iz) * (-2 * d * uz + iz))
      with (4 * d * d * (ux * ux + uy * uy + uz * uz) - 4 * d * d
            + (ix * ix + iy * iy + iz * iz)) by (unfold d; ring).
    rewrite Hu. ring.
Qed.

Lemma mirror_normal_unit (p : vec3 R) (mr : R) (pd : vec3 R) :
  0 < mirror_a pd -> 0 <= mirror_d_squared p mr pd -> mr <> 0 ->
  dot (mirrorUnitNormal p mr pd) (mirrorUnitNormal p mr pd) = 1.
Proof.
  intros Ha HD Hmr. pose proof (mirror_point_on_sphere p mr pd Ha HD) as Hm.
  unfold mirrorUnitNormal. revert Hm.
  generalize (mirror_radius_vector p mr pd) as m. intros [mx my mz].
  unfold dot, vdiv. simpl. intros Hm.
  replace (mx / mr * (mx / mr) + my / mr * (my / mr) + mz / mr * (mz / mr))
    with ((mx * mx + my * my + mz * mz) / (mr * mr)) by (field; assumption).
  rewrite Hm. field. assumption.
Qed.

(** X17: the law of reflection.  For a pixel that hits the mirror, the normal
    [u] the code uses is a unit vector, and the reflected light vector
    [-2 (i . u) u + i] has the length of the incident vector [i] and the
    opposite component along [u].  (Exact arithmetic.) *)
Theorem reflection_keeps_length_and_flips_the_normal_component
    (p : vec3 R) (mr : R) (pd : vec3 R) :
  0 < mirror_a pd ->
  0 <= mirror_d_squared p mr pd ->
  mr <> 0 ->
  let i := incident_light_vector p mr pd in
  let u := mirrorUnitNormal p mr pd in
  let v := reflectedLightVector p mr pd in
  dot u u = 1 /\ dot v u = - dot i u /\ dot v v = dot i i.
Proof.
  intros Ha HD Hmr i u v.
  pose proof (mirror_normal_unit p mr pd Ha HD Hmr) as Hu.
  split; [exact Hu|]. exact (reflect_unit i u Hu).
Qed.

Lemma reflection_keeps_length_and_flips_the_normal_component_witness :
  let p := Vec3 0 2 0 in
  let pd := Vec3 0 (-1) 0 in
  dot (reflectedLightVector p 1 pd) (reflectedLightVector p 1 pd)
  = dot (incident_light_vector p 1 pd) (incident_light_vector p 1 pd).
Proof.
  intros p pd.
  apply (reflection_keeps_length_and_flips_the_normal_component p 1 pd);
    unfold mirror_a, mirror_d_squared, mirror_b, mirror_c, sq, dot, two, four;
    simpl; lra.
Defined.

(** The reflected direction of a pixel that hits the mirror is a unit
    vector (the focal point being off the mirror). *)
Lemma reflected_direction_unit (p : vec3 R) (mr : R) (pd : vec3 R) :
  0 < mirror_a pd -> 0 <= mirror_d_squared p mr pd -> mr <> 0 ->
  mirror_c p mr <> 0 ->
  dome_a p mr pd = 1.
Proof.
  intros Ha HD Hmr Hc.
  pose proof (mirror_normal_unit p mr pd Ha HD Hmr) as Hu.
  assert (Hlen : dot (reflectedLightVector p mr pd) (reflectedLightVector p mr pd)
                 = dot (incident_light_vector p mr pd) (incident_light_vector p mr pd))
    by exact (proj2 (reflect_unit (incident_light_vector p mr pd)
                       (mirrorUnitNormal p mr pd) Hu)).
  pose proof (incident_length p mr pd Ha HD Hc) as Hpos.
  assert (Hne : reflectedLightVector p mr pd <> vzero).
  { intros E. rewrite E in Hlen.
    assert (Hz : dot (vzero (F := R)) vzero = 0) by (unfold dot, vzero; simpl; ring).
    rewrite Hz in Hlen. lra. }
  pose proof (norm_normalized _ Hne) as Hn.
  set (w := vdiv (reflectedLightVector p mr pd) (norm (reflectedLightVector p mr pd))) in *.
  unfold dome_a, reflectedLightDirection. rewrite (mask_one_real p mr pd HD).
  simpl Z.eqb. cbv iota zeta. fold w.
  change (norm w) with (R_sqrt.sqrt (vx w * vx w + vy w * vy w + vz w * vz w)) in Hn.
  change (vx w * vx w + vy w * vy w + vz w * vz w = 1).
  set (X := vx w * vx w + vy w * vy w + vz w * vz w) in *.
  assert (HX : 0 <= X).
  { unfold X. pose proof (Rle_0_sqr (vx w)). pose proof (Rle_0_sqr (vy w)).
    pose proof (Rle_0_sqr (vz w)). unfold Rsqr in *. lra. }
  pose proof (R_sqrt.sqrt_sqrt X HX) as Hsq. rewrite Hn in Hsq. lra.
Qed.

(** X18: the way to the dome.  For a pixel that hits the mirror at a point
    strictly inside the dome, the dome quadratic has a positive
    discriminant, the root [r] the code takes is positive and the other one
    negative, the point [mirror_radius_vector + r * direction] lies on the
    dome, and no other intersection parameter is larger.  (Exact arithmetic;
    the focal point is off the mirror.) *)
Theorem dome_root_is_the_forward_intersection
    (p : vec3 R) (mr : R) (dc : vec3 R) (dr : R) (pd : vec3 R) :
  0 < mirror_a pd ->
  0 <= mirror_d_squared p mr pd ->
  mr <> 0 ->
  mirror_c p mr <> 0 ->
  (* the point of reflection is inside the dome *)
  dome_c p mr dc dr pd < 0 ->
  let m := mirror_radius_vector p mr pd in
  let rld := reflectedLightDirection p mr pd in
  let r := dome_r p mr dc dr pd in
  0 < dome_d_squared p mr dc dr pd /\
  0 < r /\
  reflected_light_vector p mr dc dr pd = vscale r rld /\
  dot (vsub (vadd m (vscale r rld)) dc) (vsub (vadd m (vscale r rld)) dc) = dr * dr /\
  (forall r',
      dot (vsub (vadd m (vscale r' rld)) dc) (vsub (vadd m (vscale r' rld)) dc)
      = dr * dr -> r' <= r).
Proof.
  intros Ha HD Hmr Hc Hin m rld r.
  pose proof (reflected_direction_unit p mr pd Ha HD Hmr Hc) as Ha1.
  assert (HDd : dome_d_squared p mr dc dr pd
                = dome_b p mr dc pd * dome_b p mr dc pd
                  - 4 * dome_a p mr pd * dome_c p mr dc dr pd) by reflexivity.
  assert (Hpos : 0 < dome_d_squared p mr dc dr pd).
  { rewrite HDd, Ha1. pose proof (Rle_0_sqr (dome_b p mr dc pd)) as Hsq.
    unfold Rsqr in Hsq. lra. }
  assert (Ha0 : 0 < dome_a p mr pd) by lra.
  assert (HD0 : 0 <= dome_b p mr dc pd * dome_b p mr dc pd
                     - 4 * dome_a p mr pd * dome_c p mr dc dr pd)
    by (rewrite <- HDd; lra).
  destruct (greatest_root (dome_a p mr pd) (dome_b p mr dc pd)
              (dome_c p mr dc dr pd) Ha0 HD0) as (Hroot & Hmax & Hsign & Hle).
  cbv zeta in Hroot, Hmax, Hsign, Hle.
  assert (Er : r = (- dome_b p mr dc pd
                    + R_sqrt.sqrt (dome_b p mr dc pd * dome_b p mr dc pd
                                   - 4 * dome_a p mr pd * dome_c p mr dc dr pd))
                   / (2 * dome_a p mr pd)).
  { unfold r, dome_r. cbv zeta. rewrite py_max2_real; [rewrite HDd; reflexivity|].
    rewrite HDd. exact Hle. }
  rewrite <- Er in Hroot, Hmax, Hsign.
  assert (Hsphere : forall t : R,
    dot (vsub (vadd m (vscale t rld)) dc) (vsub (vadd m (vscale t rld)) dc) - dr * dr
    = dome_a p mr pd * t * t + dome_b p mr dc pd * t + dome_c p mr dc dr pd).
  { intros t. unfold dome_a, dome_b, dome_c, dome_rp. fold m. fold rld.
    unfold dot, vsub, vadd, vscale, sq, two. simpl. ring. }
  split; [exact Hpos|]. split; [apply Hsign; exact Hin|]. split.
  - unfold reflected_light_vector. rewrite (mask_one_real p mr pd HD).
    reflexivity.
  - split.
    + pose proof (Hsphere r). lra.
    + intros r' E. apply Hmax. pose proof (Hsphere r'). lra.
Qed.

Lemma dome_root_is_the_forward_intersection_witness :
  let p := Vec3 0 2 0 in
  let pd := Vec3 0 (-1) 0 in
  0 < dome_r p 1 vzero 2 pd.
Proof.
  intros p pd.
  assert (Ha : 0 < mirror_a pd) by (unfold mirror_a, sq; simpl; lra).
  assert (HD : 0 <= mirror_d_squared p 1 pd).
  { unfold mirror_d_squared, mirror_a, mirror_b, mirror_c, sq, two, four.
    simpl. lra. }
  apply (dome_root_is_the_forward_intersection p 1 vzero 2 pd Ha HD).
  - lra.
  - unfold mirror_c, sq. simpl. lra.
  - pose proof (mirror_point_on_sphere p 1 pd Ha HD) as Hm.
    unfold dome_c, dome_rp. revert Hm.
    generalize (mirror_radius_vector p 1 pd) as m. intros [mx my mz].
    unfold dot, vsub, sq. simpl. intros Hm. lra.
Defined.

End Optics.

(** ** Left-right symmetry *)

Lemma focal_point_x {F : Type} {AR : Arith F} (fpi spi : list (vec3 F))
    (focal : vec3 F) :
  _calc_projector_focal_point fpi spi = Ok focal -> vx focal = of_Z 0.
Proof.
  unfold _calc_projector_focal_point. intros H.
  repeat (apply bind_Ok in H; destruct H as (? & _ & H)).
  match type of H with
  | (let '(_, _) := ?yz in _) = _ => destruct yz as [y z]
  end.
  now injection H as <-.
Qed.

Section Symmetry.
Local Open Scope R_scope.

Lemma flat_x_mirror (sw : R) (pw j : Z) :
  (2 <= pw)%Z -> flat_x sw pw (pw - 1 - j) = - flat_x sw pw j.
Proof.
  intros Hpw. unfold flat_x, col_denominator. simpl.
  rewrite !minus_IZR.
  assert (Hd : IZR pw - 1 <> 0).
  { apply IZR_le in Hpw. lra. }
  field. exact Hd.
Qed.

Lemma flat_direction_mirror (M : Libm R) (sh sw : R) (ph pw : Z) (d off phi : R)
    (i j : Z) :
  (2 <= pw)%Z ->
  flat_direction M sh sw ph pw d off phi i (pw - 1 - j)
  = vmul (flat_direction M sh sw ph pw d off phi i j) (Vec3 (-1) 1 1).
Proof.
  intros Hpw. unfold flat_direction, flat_vector. cbv zeta.
  cbn [vx vy vz]. rewrite (flat_x_mirror sw pw j Hpw).
  set (x := flat_x sw pw j).
  set (y := flat_y M sh ph d phi i).
  set (z := flat_z M sh ph d off phi i).
  replace (sq (- x)) with (sq x) by (unfold sq; simpl; ring).
  set (r := fsqrt (sq x + sq y + sq z)%A).
  unfold vmul. cbn [vx vy vz]. simpl.
  f_equal; unfold Rdiv; ring.
Qed.

(** [d_squared] does not see the sign of the x component when the focal
    point has [x = 0]. *)
Lemma mask_mirror (p : vec3 R) (mr : R) (v : vec3 R) :
  vx p = 0 ->
  projector_mask_at p mr (vmul v (Vec3 (-1) 1 1)) = projector_mask_at p mr v.
Proof.
  intros Hp. unfold projector_mask_at.
  replace (mirror_d_squared p mr (vmul v (Vec3 (-1) 1 1)))
    with (mirror_d_squared p mr v); [reflexivity|].
  unfold mirror_d_squared, mirror_a, mirror_b, mirror_c, vmul, sq, two, four.
  simpl. rewrite Hp. ring.
Qed.

(** X19: the direction field of [flat_display_directions] is symmetric about
    the vertical centre line: the direction of pixel [(i, pixel_width - 1 -
    j)] is the direction of pixel [(i, j)] with the sign of [x] flipped.
    (Exact arithmetic; at least two columns.) *)
Theorem flat_display_directions_is_left_right_symmetric
    (M : Libm R) (sh sw : R) (ph pw : Z) (d off phi : R) (i j : Z) :
  (2 <= pw)%Z -> (0 <= i < ph)%Z -> (0 <= j < pw)%Z ->
  exists g v,
    flat_display_directions M sh sw ph pw d off phi = Ok g /\
    np_get2 g i j = Ok v /\
    np_get2 g i (pw - 1 - j) = Ok (Vec3 (- vx v) (vy v) (vz v)).
Proof.
  intros Hpw Hi Hj. eexists. eexists.
  split; [apply flat_display_directions_rows; lia|].
  split; [apply np_get2_flat; assumption|].
  rewrite np_get2_flat by lia. f_equal.
  rewrite (flat_direction_mirror M sh sw ph pw d off phi i j Hpw).
  unfold vmul. cbn [vx vy vz]. f_equal; simpl; ring.
Qed.

Lemma flat_display_directions_is_left_right_symmetric_witness :
  exists g v,
    flat_display_directions RealLibm 1 2 3 4 1 0 0 = Ok g /\
    np_get2 g 2 0 = Ok v /\
    np_get2 g 2 (4 - 1 - 0) = Ok (Vec3 (- vx v) (vy v) (vz v)).
Proof.
  apply (flat_display_directions_is_left_right_symmetric RealLibm 1 2 3 4 1 0 0 2 0);
    lia.
Defined.

(** X20: the projector mask is symmetric about the vertical centre line:
    pixel [(row, projector_pixel_width - 1 - col)] hits the mirror exactly
    when pixel [(row, col)] does.  (Exact arithmetic; at least two
    columns.) *)
Theorem projector_mask_is_left_right_symmetric
    (M : Libm R) (cfg : Config (F := R))
    (mask : list (list Z)) (avd : list (list (vec3 R))) (row col : Z) :
  _dome_display_directions M cfg = Ok (mask, avd) ->
  (2 <= projector_pixel_width cfg)%Z ->
  (0 <= row < projector_pixel_height cfg)%Z ->
  (0 <= col < projector_pixel_width cfg)%Z ->
  exists m,
    np_get2 mask row col = Ok m /\
    np_get2 mask row (projector_pixel_width cfg - 1 - col) = Ok m.
Proof.
  intros Hdome Hw Hrow Hcol.
  assert (Hrows : (1 <= projector_pixel_height cfg)%Z) by lia.
  destruct (dome_inv_rows _ _ _ _ Hdome Hrows)
    as (focal & pds & Hfocal & Hpds & -> & _).
  apply focal_point_x in Hfocal. change (of_Z 0) with 0 in Hfocal.
  destruct (projector_pixel_directions_rows _ _ _ _ Hpds Hrows)
    as (sh & sw & d & off & ->).
  rewrite !np_get2_map.
  rewrite (np_get2_grid _ _ _ row col Hrow Hcol).
  rewrite (np_get2_grid _ _ _ row (projector_pixel_width cfg - 1 - col) Hrow)
    by lia.
  simpl bind.
  eexists. split; [reflexivity|]. f_equal.
  rewrite (flat_direction_mirror M _ _ _ _ _ _ _ row col Hw).
  change (Vec3 (of_Z (-1)) (of_Z 1) (of_Z 1)) with (Vec3 (-1) 1 1 : vec3 R).
  apply mask_mirror. exact Hfocal.
Qed.

Lemma projector_mask_is_left_right_symmetric_witness :
  let cfg : Config (F := R) :=
    {| screen_height := [1]; screen_width := [1]; distance_to_screen := [1];
       pitch := [0]; yaw := [0]; roll := [0];
       image_pixel_height := [4%Z]; image_pixel_width := [4%Z];
       projector_pixel_height := 2; projector_pixel_width := 2;
       first_projector_image :=
         [Vec3 (-2) 2 2; Vec3 2 2 2; Vec3 2 2 (-2); Vec3 (-2) 2 (-2)];
       second_projector_image :=
         [Vec3 (-1) 1 1; Vec3 1 1 1; Vec3 1 1 (-1); Vec3 (-1) 1 (-1)];
       mirror_radius := 1; dome_center := Vec3 0 0 0;
       dome_radius := 2; animal_position := Vec3 0 0 0 |} in
  exists mask avd m,
    _dome_display_directions RealLibm cfg = Ok (mask, avd) /\
    np_get2 mask 1 0 = Ok m /\ np_get2 mask 1 (2 - 1 - 0) = Ok m.
Proof.
  intros cfg.
  assert (Hdome : exists mask avd,
             _dome_display_directions RealLibm cfg = Ok (mask, avd)).
  { unfold _dome_display_directions, _calc_projector_focal_point. simpl.
    unfold py_div. simpl.
    destruct (Reqb_spec (1 - 2) 0) as [E | _]; [lra|]. simpl.
    match goal with
    | |- context [linalg_solve2 ?a ?b ?c ?d ?e ?f] =>
        destruct (linalg_solve2_regular a b c d e f) as (y & z & Hsolve & _);
          [lra | rewrite Hsolve]
    end.
    simpl. eexists. eexists. reflexivity. }
  destruct Hdome as (mask & avd & Hdome).
  assert (Hw : (2 <= projector_pixel_width cfg)%Z) by (simpl; lia).
  assert (Hrow : (0 <= 1 < projector_pixel_height cfg)%Z) by (simpl; lia).
  assert (Hcol : (0 <= 0 < projector_pixel_width cfg)%Z) by (simpl; lia).
  destruct (projector_mask_is_left_right_symmetric RealLibm cfg mask avd 1 0
              Hdome Hw Hrow Hcol) as (m & H1 & H2).
  exists mask, avd, m. split; [exact Hdome|]. split; [exact H1 | exact H2].
Defined.

End Symmetry.

(** ** Termination of the search *)

(** X21: started on a valid pixel (mask not 0) of a grid with at least two
    pixels along one axis, the hill climb of [_find_closest_projector_pixel]
    terminates, NaN or not.  Every move goes to a pixel of the grid one step
    away along a row, a column or a diagonal, whose dot product with the
    query is strictly larger, so [H * W] turns of the loop are enough.  When
    no dot product of the grid is NaN, no pixel of the grid one step away
    from the returned pixel has a strictly larger dot product. *)
Theorem hill_climb_terminates_within_grid_size
    {F : Type} {AR : Arith F} {L : ArithLaws F}
    (self : DomeProjection) (rnd : list Z) (row col : Z) (q : vec3 F) (m : Z) :
  let H := projector_pixel_height (params self) in
  let W := projector_pixel_width (params self) in
  let start := (_projector_pixel_row self, _projector_pixel_col self) in
  grid_shape H W (_animal_view_directions self) ->
  np_get2 (_camera_view_directions self) row col = Ok q ->
  in_grid self start ->
  np_get2 (_projector_mask self) (fst start) (snd start) = Ok m -> m <> 0%Z ->
  (2 <= H \/ 2 <= W)%Z ->
  (* every move goes to an adjacent pixel with a strictly larger dot product *)
  (forall rc dp dps ns dp' rc' nn,
      in_grid self rc -> dp_of self q rc dp ->
      _calc_neighbor_dot_products self (fst rc) (snd rc) q = Ok (dps, ns) ->
      climb_step self q dp dps ns = Ok (Some (dp', rc', nn)) ->
      in_grid self rc' /\ rc' <> rc /\
      (Z.abs (fst rc' - fst rc) <= 1)%Z /\ (Z.abs (snd rc' - snd rc) <= 1)%Z /\
      fltb (dp_at self q rc) (dp_at self q rc') = true /\
      dp_of self q rc' dp' /\
      _calc_neighbor_dot_products self (fst rc') (snd rc') q = Ok nn) /\
  (* the search returns, [H * W] turns of the loop are enough, and without a
     NaN the pixel it returns is a local maximum *)
  exists r c,
    _find_closest_projector_pixel (Z.to_nat (H * W)) self rnd row col
      = Some (Ok (r, c, with_saved_pixel self r c, rnd)) /\
    in_grid self (r, c) /\
    ((forall p, in_grid self p -> number (dp_at self q p)) ->
     forall n, in_grid self n -> n <> (r, c) ->
               (Z.abs (fst n - r) <= 1)%Z -> (Z.abs (snd n - c) <= 1)%Z ->
               fltb (dp_at self q (r, c)) (dp_at self q n) = false).
Proof.
  intros H W start shape Hq Hstart Hmask Hm big. split.
  - intros rc dp dps ns dp' rc' nn Hrc Hdp Hcalc Hstep.
    rewrite (calc_neighbor_dot_products_eq self q shape) in Hcalc.
    injection Hcalc as <- <-.
    destruct (py_max (map (dp_at self q) (neighbors_of self (fst rc) (snd rc))))
      as [mx|e] eqn:Emax; [|unfold climb_step in Hstep; rewrite Emax in Hstep; discriminate].
    destruct (fltb dp mx) eqn:Hlt;
      [|rewrite (climb_step_stop _ _ _ _ _ _ Emax Hlt) in Hstep; discriminate].
    destruct (climb_step_move self q shape rc dp mx Hrc Emax Hlt) as (rc0 & E & Hin & Hdp0).
    rewrite E in Hstep. injection Hstep as <- <- <-.
    apply neighbors_of_adjacent in Hin.
    destruct Hin as (Hg & Hne & Ar & Ac).
    split; [exact Hg|].
    split; [intros ->; apply Hne; now destruct rc|].
    split; [exact Ar|]. split; [exact Ac|].
    split.
    { rewrite <- (dp_of_ltb_l self q _ _ _ Hdp), <- (dp_of_ltb_r self q _ _ _ Hdp0).
      assumption. }
    split; [assumption|].
    apply (calc_neighbor_dot_products_eq self q shape).
  - destruct (climb_terminates self q shape big (Z.to_nat (H * W))
                (dp_at self q start) start Hstart (or_introl eq_refl)
                (above_bound self q _))
      as ([r c] & Eclimb & Hg & Hs).
    exists r, c. repeat split; try apply Hg.
    + unfold _find_closest_projector_pixel. rewrite Hq.
      assert (Efind : find_masked_pixel (Z.to_nat (H * W)) self rnd (fst start) (snd start)
                      = Some (Ok (fst start, snd start, rnd))).
      { simpl in Hmask.
        destruct (Z.to_nat (H * W)); simpl; rewrite Hmask;
          destruct (Z.eqb_spec m 0); try contradiction; reflexivity. }
      simpl in Efind. rewrite Efind.
      pose proof (np_get2_cell self shape start Hstart) as Ecell.
      simpl in Ecell. rewrite Ecell.
      rewrite calc_neighbor_dot_products_eq by assumption.
      unfold dp_at in *. subst start. cbn [fst snd] in *.
      rewrite Eclimb. reflexivity.
    + intros Hnum n Hn Hne Ar Ac.
      apply (stopped_local_max self q (r, c) Hg Hs Hnum n).
      apply neighbors_of_adjacent. auto.
Qed.

Lemma hill_climb_terminates_within_grid_size_witness :
  exists self q r c,
    __init__ FloatLibm0 (reference_config 4 4 0.215 0.603) = Ok self /\
    np_get2 (_camera_view_directions self) 0 0 = Ok q /\
    _find_closest_projector_pixel 16 self [] 0 0
      = Some (Ok (r, c, with_saved_pixel self r c, [])) /\
    in_grid self (r, c) /\
    (forall n, in_grid self n -> n <> (r, c) ->
               (Z.abs (fst n - r) <= 1)%Z -> (Z.abs (snd n - c) <= 1)%Z ->
               fltb (dp_at self q (r, c)) (dp_at self q n) = false).
Proof.
  destruct (__init__ FloatLibm0 (reference_config 4 4 0.215 0.603)) as [self|e] eqn:E;
    [|vm_compute in E; discriminate].
  assert (Hs := E). vm_compute in Hs. injection Hs as Hs.
  destruct (np_get2 (_camera_view_directions self) 0 0) as [q|e] eqn:Eq;
    [|subst self; vm_compute in Eq; discriminate].
  assert (Hq := Eq). rewrite <- Hs in Hq. vm_compute in Hq. injection Hq as Hq.
  assert (Hnum : forall p, in_grid self p -> number (dp_at self q p)).
  { intros p Hp. apply in_pixels in Hp. subst self q. vm_compute in Hp.
    repeat (destruct Hp as [<- | Hp]; [vm_compute; reflexivity|]).
    contradiction. }
  edestruct (hill_climb_terminates_within_grid_size self [] 0 0 q)
    as (_ & r & c & Hfind & Hgrid & Hmax).
  - subst self. split; [reflexivity | repeat constructor].
  - exact Eq.
  - subst self. split; simpl; lia.
  - subst self. vm_compute. reflexivity.
  - discriminate.
  - subst self. left. simpl. lia.
  - exists self, q, r, c. subst self. split; [reflexivity|]. split; [exact Eq|].
    split; [exact Hfind|]. split; [exact Hgrid|]. exact (Hmax Hnum).
Defined.

